(** * dbbench.py: a verification development

    Shallow embedding of [dbbench.py], the Python 2.7 wrapper around the
    [dbbench] executable, and the properties of its functions.

    Python byte strings are lists of 8-bit characters, Python integers are
    [Z], Python floats are IEEE-754 binary64 values ([spec_float] with
    [prec = 53] and [emax = 1024]), and a call that may raise returns in the
    [result] type. *)

From Stdlib Require Import ZArith List Bool Ascii String Lia Arith.
From Stdlib Require Import DecimalString DecimalPos.
From Stdlib Require Import Floats.SpecFloat.
Import ListNotations.

(** ** Byte strings *)

Definition str := list ascii.

Definition lit (s : string) : str := list_ascii_of_string s.

Definition LF : ascii := "010"%char.
Definition SP : ascii := " "%char.
Definition TAB : ascii := "009"%char.
Definition DASH : ascii := "-"%char.

(** [s.split(sep)] for a one-character separator: never an empty list. *)
Fixpoint split (sep : ascii) (s : str) : list str :=
  match s with
  | [] => [[]]
  | c :: s' =>
      if Ascii.eqb c sep then [] :: split sep s'
      else match split sep s' with
           | l :: ls => (c :: l) :: ls
           | [] => [[c]]
           end
  end.

(** [sep.join(parts)]. *)
Fixpoint join (sep : str) (parts : list str) : str :=
  match parts with
  | [] => []
  | [p] => p
  | p :: ps => p ++ sep ++ join sep ps
  end.

(** ** Values, exceptions and results *)

(** The Python values the program is handed: [None], booleans, integers
    and byte strings. *)
Inductive value : Type :=
| VNone
| VBool (b : bool)
| VInt (n : Z)
| VStr (s : str).

Inductive exception : Type :=
| TypeError_init_args (given : nat)
    (** [__init__() takes exactly 5 arguments (<given> given)] *)
| TypeError_int_arg
    (** [int() argument must be a string or a number, not 'NoneType'] *)
| ValueError_int_literal (literal : str)
    (** [invalid literal for int() with base 10: <repr of literal>] *)
| ValueError_float_to_int
    (** a NaN where [%d] needs an integer *)
| TypeError_join_item
    (** [sequence item N: expected string, ... found], from [str.join] *)
| TypeError_exec_arg
    (** [execv() arg 2 must contain only strings], from [subprocess] *)
| NameError (name : string)
    (** [global name '<name>' is not defined] *)
| OverflowError
| ZeroDivisionError
| CalledProcessError (returncode : Z) (cmd : list value) (output : str)
    (** [subprocess.CalledProcessError], with its [returncode], [cmd] and
        [output] attributes *)
| OSError (errno : Z).

Inductive result (A : Type) : Type :=
| Ok (a : A)
| Raise (e : exception).

Arguments Ok {A} a.
Arguments Raise {A} e.

Definition bind {A B : Type} (r : result A) (f : A -> result B) : result B :=
  match r with
  | Ok a => f a
  | Raise e => Raise e
  end.

Notation "x <- r ;; k" := (bind r (fun x => k))
  (at level 61, r at next level, right associativity).

(** A list comprehension whose element expression may raise: the elements
    are built left to right and the first exception leaves no list. *)
Fixpoint comprehension {A B : Type} (f : A -> result B) (l : list A)
  : result (list B) :=
  match l with
  | [] => Ok []
  | a :: l' => b <- f a ;; bs <- comprehension f l' ;; Ok (b :: bs)
  end.

(** ** The fragment of Python's [re] that [CleanQuery] uses

    A backtracking matcher in continuation-passing style: greedy repetition,
    ordered alternation, [.] that refuses the newline, [^] at offset 0 and
    [$] at the end of the subject or before its final newline (no flags are
    passed in the source, so neither MULTILINE nor DOTALL applies). *)

Module Re.

Inductive regex : Type :=
| Chr (c : ascii)
| Dot
| Bol
| Eol
| Seq (a b : regex)
| Alt (a b : regex)
| Star (a : regex)
| Plus (a : regex)
| Group (a : regex).

(** A continuation receives the offset reached and the rest of the subject. *)
Definition cont := nat -> str -> option str.

(** Greedy repetition of [step]: one more round first, the continuation
    when that fails.  A round that consumes nothing ends the repetition. *)
Fixpoint star_loop (step : nat -> str -> cont -> option str)
         (fuel : nat) (i : nat) (s : str) (k : cont) : option str :=
  match fuel with
  | O => k i s
  | S fuel' =>
      match step i s (fun i' s' =>
                        if Nat.eqb i' i then None
                        else star_loop step fuel' i' s' k) with
      | Some r => Some r
      | None => k i s
      end
  end.

Fixpoint m (r : regex) (i : nat) (s : str) (k : cont) {struct r} : option str :=
  match r with
  | Chr c =>
      match s with
      | x :: s' => if Ascii.eqb x c then k (S i) s' else None
      | [] => None
      end
  | Dot =>
      match s with
      | x :: s' => if Ascii.eqb x LF then None else k (S i) s'
      | [] => None
      end
  | Bol => if Nat.eqb i 0 then k i s else None
  | Eol =>
      match s with
      | [] => k i s
      | [x] => if Ascii.eqb x LF then k i s else None
      | _ => None
      end
  | Seq a b => m a i s (fun i' s' => m b i' s' k)
  | Alt a b =>
      match m a i s k with
      | Some r => Some r
      | None => m b i s k
      end
  | Star a => star_loop (m a) (List.length s) i s k
  | Plus a => m a i s (fun i' s' => star_loop (m a) (List.length s') i' s' k)
  | Group a => m a i s k
  end.

(** The match that starts at offset [i], as the rest of the subject after it. *)
Definition match_at (r : regex) (i : nat) (s : str) : option str :=
  m r i s (fun _ s' => Some s').

(** [re.sub(pattern, repl, string)] for a replacement without group
    references: the leftmost match at every step, an unmatched character
    copied, an empty match replaced unless it touches the previous match. *)
Fixpoint sub_loop (fuel : nat) (r : regex) (repl : str)
         (adj : bool) (i : nat) (s : str) : str :=
  match fuel with
  | O => s
  | S fuel' =>
      let skip :=
        match s with
        | [] => []
        | c :: s' => c :: sub_loop fuel' r repl false (S i) s'
        end in
      match match_at r i s with
      | None => skip
      | Some rest =>
          let n := List.length s - List.length rest in
          if Nat.eqb n 0 then (if adj then [] else repl) ++ skip
          else repl ++ sub_loop fuel' r repl true (i + n) rest
      end
  end.

Definition sub (r : regex) (repl : str) (s : str) : str :=
  sub_loop (S (List.length s)) r repl false 0 s.

End Re.

(** ** CleanQuery *)

(** [r"--.*$"] *)
Definition comment_re : Re.regex :=
  Re.Seq (Re.Chr DASH) (Re.Seq (Re.Chr DASH) (Re.Seq (Re.Star Re.Dot) Re.Eol)).

(** [r"(^ +)|( +$)"] *)
Definition trim_re : Re.regex :=
  Re.Alt (Re.Group (Re.Seq Re.Bol (Re.Plus (Re.Chr SP))))
         (Re.Group (Re.Seq (Re.Plus (Re.Chr SP)) Re.Eol)).

(** [r" +"] *)
Definition spaces_re : Re.regex := Re.Plus (Re.Chr SP).

(** The names bound at the top level of the module, its imports and its
    definitions.  [re] is not among them, and it is no builtin. *)
Definition module_globals : list string :=
  [ "csv"; "logging"; "subprocess"; "os"; "NamedTemporaryFile"; "logger";
    "humanize_us"; "humanize_count"; "QueryStatistic"; "DatabaseSpec";
    "RunDbbench"; "EnsureDbbenchInPath"; "CleanQuery" ]%string.

(** The lookup of a global name when a function runs. *)
Definition load_global (globals : list string) (name : string) : result unit :=
  if existsb (String.eqb name) globals then Ok tt else Raise (NameError name).

(** The function, run in a module with the given global names.  The first
    line of a query already evaluates [re.sub], so the name [re] is looked up
    in every call; where it is bound it is read as Python's standard [re]
    module, which is what the three calls are written against. *)
Definition CleanQuery (globals : list string) (query : str) : result str :=
  _ <- load_global globals "re" ;;
  let query :=
    join [SP] (map (fun l => Re.sub comment_re [] l) (split LF query)) in
  let query := Re.sub trim_re [] query in
  let query := Re.sub spaces_re [SP] query in
  Ok query.

(** ** Integers and their text *)

Definition is_space (c : ascii) : bool :=
  let n := nat_of_ascii c in
  Nat.eqb n 32 || (Nat.leb 9 n && Nat.leb n 13).

Definition digit_val (c : ascii) : option Z :=
  let n := nat_of_ascii c in
  if Nat.leb 48 n && Nat.leb n 57 then Some (Z.of_nat (n - 48)) else None.

Fixpoint digits_val (acc : Z) (s : str) : option Z :=
  match s with
  | [] => Some acc
  | c :: s' =>
      match digit_val c with
      | Some d => digits_val (10 * acc + d) s'
      | None => None
      end
  end.

Fixpoint drop_while (p : ascii -> bool) (s : str) : str :=
  match s with
  | [] => []
  | c :: s' => if p c then drop_while p s' else s
  end.

Definition drop_while_end (p : ascii -> bool) (s : str) : str :=
  rev (drop_while p (rev s)).

(** [int(s)] for a byte string: optional blanks, an optional sign, one or
    more decimal digits, optional blanks. *)
Definition int_of_str (s : str) : result Z :=
  let body := drop_while_end is_space (drop_while is_space s) in
  let '(neg, ds) :=
    match body with
    | c :: t =>
        if Ascii.eqb c "-" then (true, t)
        else if Ascii.eqb c "+" then (false, t)
        else (false, body)
    | [] => (false, body)
    end in
  match ds with
  | [] => Raise (ValueError_int_literal s)
  | _ =>
      match digits_val 0 ds with
      | Some n => Ok (if neg then (- n)%Z else n)
      | None => Raise (ValueError_int_literal s)
      end
  end.

(** [str(n)] and [%d] for an integer. *)
Definition str_of_int (n : Z) : str := lit (NilZero.string_of_int (Z.to_int n)).

Definition digit_char (d : Z) : ascii := ascii_of_nat (48 + Z.to_nat d).

(** ** Floats *)

Definition prec : Z := 53.
Definition emax : Z := 1024.

Definition float := spec_float.

(** The nearest float, ties to even; an infinity past the largest float. *)
Definition float_of_Z (n : Z) : float := binary_normalize prec emax n 0 false.

(** The conversion a mixed [int / float] operation applies to its integer
    operand. *)
Definition int_to_float (n : Z) : result float :=
  match float_of_Z n with
  | S754_infinity _ => Raise OverflowError
  | f => Ok f
  end.

Definition float_mul (x y : float) : float := SFmul prec emax x y.

Definition float_div (x y : float) : result float :=
  match y with
  | S754_zero _ => Raise ZeroDivisionError
  | _ => Ok (SFdiv prec emax x y)
  end.

(** [n >= f] between an integer and a float compares the exact values. *)
Definition int_ge_float (n : Z) (f : float) : bool :=
  match f with
  | S754_zero _ => (0 <=? n)%Z
  | S754_infinity s => s
  | S754_nan => false
  | S754_finite s m e =>
      let x := cond_Zopp s (Zpos m) in
      if (0 <=? e)%Z then (x * 2 ^ e <=? n)%Z
      else (x <=? n * 2 ^ (- e))%Z
  end.

(** The integer nearest to [num / den] ([0 < den]), ties to even. *)
Definition round_half_even (num den : Z) : Z :=
  let q := (num / den)%Z in
  let r := (num mod den)%Z in
  match (2 * r ?= den)%Z with
  | Lt => q
  | Eq => if Z.even q then q else (q + 1)%Z
  | Gt => (q + 1)%Z
  end.

(** [abs(f) * 1000] rounded to an integer, for a finite [f]. *)
Definition milli (m : positive) (e : Z) : Z :=
  if (0 <=? e)%Z then (Zpos m * 2 ^ e * 1000)%Z
  else round_half_even (Zpos m * 1000) (2 ^ (- e)).

Definition sign_str (s : bool) : str := if s then lit "-" else [].

Definition fixed3 (n : Z) : str :=
  str_of_int (n / 1000) ++ lit "."
    ++ [digit_char (n / 100 mod 10); digit_char (n / 10 mod 10);
        digit_char (n mod 10)].

(** ['%.3f' % f]: the exact binary value rounded to three decimals. *)
Definition format_3f (f : float) : str :=
  match f with
  | S754_zero s => sign_str s ++ lit "0.000"
  | S754_infinity s => sign_str s ++ lit "inf"
  | S754_nan => lit "nan"
  | S754_finite s m e => sign_str s ++ fixed3 (milli m e)
  end.

(** [int(f)]: truncation towards zero. *)
Definition float_to_int (f : float) : result Z :=
  match f with
  | S754_zero _ => Ok 0%Z
  | S754_infinity _ => Raise OverflowError
  | S754_nan => Raise ValueError_float_to_int
  | S754_finite s m e =>
      Ok (cond_Zopp s (if (0 <=? e)%Z then Zpos m * 2 ^ e
                       else Zpos m / 2 ^ (- e)))%Z
  end.

(** ** Unit formatting *)

Inductive number : Type :=
| NInt (n : Z)
| NFloat (f : float).

(** A [%]-format of one conversion followed by a unit. *)
Inductive fmt : Type :=
| Fmt3f (unit : str)
| FmtD (unit : str).

Definition num_ge (x : Z) (scale : number) : bool :=
  match scale with
  | NInt d => (d <=? x)%Z
  | NFloat f => int_ge_float x f
  end.

(** [x / scale] in Python 2: floor division between integers, float
    division once an operand is a float. *)
Definition num_div (x : Z) (scale : number) : result number :=
  match scale with
  | NInt d =>
      if (d =? 0)%Z then Raise ZeroDivisionError else Ok (NInt (x / d))
  | NFloat f =>
      xf <- int_to_float x ;; q <- float_div xf f ;; Ok (NFloat q)
  end.

Definition format (f : fmt) (x : number) : result str :=
  match f, x with
  | Fmt3f u, NFloat v => Ok (format_3f v ++ u)
  | Fmt3f u, NInt n => v <- int_to_float n ;; Ok (format_3f v ++ u)
  | FmtD u, NInt n => Ok (str_of_int n ++ u)
  | FmtD u, NFloat v => n <- float_to_int v ;; Ok (str_of_int n ++ u)
  end.

(** The loop both functions share: the first entry whose scale the value
    reaches formats the quotient; no entry, the fallback. *)
Fixpoint humanize (table : list (fmt * number)) (x : Z) (fallback : str)
  : result str :=
  match table with
  | [] => Ok fallback
  | (f, scale) :: rest =>
      if num_ge x scale then q <- num_div x scale ;; format f q
      else humanize rest x fallback
  end.

Definition us_table : list (fmt * number) :=
  [ (Fmt3f (lit "h"),
     NFloat (float_mul (float_of_Z (60 * 60)) (float_of_Z 1000000)));
    (Fmt3f (lit "m"), NFloat (float_mul (float_of_Z 60) (float_of_Z 1000000)));
    (Fmt3f (lit "s"), NFloat (float_of_Z 1000000));
    (Fmt3f (lit "ms"), NFloat (float_of_Z 1000));
    (FmtD (lit "us"), NInt 1) ].

Definition humanize_us (micros : Z) : result str :=
  humanize us_table micros (lit "0us").

(** [2.0**k] is the float [2^k], exactly. *)
Definition count_table : list (fmt * number) :=
  [ (Fmt3f (lit "G"), NFloat (float_of_Z (2 ^ 30)));
    (Fmt3f (lit "M"), NFloat (float_of_Z (2 ^ 20)));
    (Fmt3f (lit "K"), NFloat (float_of_Z (2 ^ 10)));
    (FmtD [], NInt 1) ].

Definition humanize_count (count : Z) : result str :=
  humanize count_table count (lit "0").

(** ** Query statistics *)

Record QueryStatistic : Type := {
  name : str;
  startMicros : Z;
  elapsedMicros : Z;
  rowsAffected : Z
}.

(** The constructor applied to an unpacked row: the call binds exactly four
    fields (with [self], five arguments), then converts the three counts in
    order. *)
Definition QueryStatistic_init (row : list str) : result QueryStatistic :=
  match row with
  | [name; startMicros; elapsedMicros; rowsAffected] =>
      s <- int_of_str startMicros ;;
      e <- int_of_str elapsedMicros ;;
      r <- int_of_str rowsAffected ;;
      Ok {| name := name; startMicros := s; elapsedMicros := e;
            rowsAffected := r |}
  | _ => Raise (TypeError_init_args (S (List.length row)))
  end.

(** ** Connection descriptor *)

Definition truthy (v : value) : bool :=
  match v with
  | VNone => false
  | VBool b => b
  | VInt n => negb (n =? 0)%Z
  | VStr s => match s with [] => false | _ => true end
  end.

Definition py_int (v : value) : result Z :=
  match v with
  | VNone => Raise TypeError_int_arg
  | VBool b => Ok (if b then 1 else 0)%Z
  | VInt n => Ok n
  | VStr s => int_of_str s
  end.

Record DatabaseSpec : Type := {
  host : value;
  port : Z;
  user : value;
  password : value;
  database : value;
  driver : value
}.

(** A keyword argument left out takes the default of the signature. *)
Definition arg (a : option value) (default : value) : value :=
  match a with
  | Some v => v
  | None => default
  end.

Definition DatabaseSpec_init (host port user password database driver
                              : option value) : result DatabaseSpec :=
  let host := arg host (VStr (lit "localhost")) in
  let port := arg port (VInt 3306) in
  let user := arg user (VStr (lit "root")) in
  let password := arg password (VStr []) in
  let database := arg database (VStr []) in
  let driver := arg driver (VStr (lit "mysql")) in
  p <- (if truthy port then py_int port else Ok 3306%Z) ;;
  Ok {| host := if truthy host then host else VStr (lit "localhost");
        port := p;
        user := if truthy user then user else VStr (lit "root");
        password := if truthy password then password else VStr [];
        database := if truthy database then database else VStr [];
        driver := if truthy driver then driver else VStr (lit "mysql") |}.

(** ** Running dbbench *)

(** [os.path.dirname]: up to the last slash, without trailing slashes
    unless it is slashes only. *)
Definition is_slash (c : ascii) : bool := Ascii.eqb c "/".

Definition dirname (p : str) : str :=
  let head := drop_while_end (fun c => negb (is_slash c)) p in
  if forallb is_slash head then head else drop_while_end is_slash head.

(** What the benchmark process leaves behind: it could not be started, or
    it exited with a return code, its combined output and the text it wrote
    to the statistics file. *)
Inductive execution : Type :=
| NotStarted (errno : Z)
| Exited (returncode : Z) (output : str) (stats : str).

(** The argument vector of the call. *)
Definition dbbench_command (statsFile : str) (dbspec : DatabaseSpec)
           (configFileName basedir : str) : list value :=
  [ VStr (lit "dbbench");
    VStr (lit "--database"); dbspec.(database);
    VStr (lit "--host"); dbspec.(host);
    VStr (lit "--port"); VStr (str_of_int dbspec.(port));
    VStr (lit "--username"); dbspec.(user);
    VStr (lit "--password"); dbspec.(password);
    VStr (lit "--intermediate-stats=false");
    VStr (lit "--query-stats-file"); VStr statsFile;
    VStr (lit "--base-dir"); VStr basedir;
    VStr configFileName ].

Definition is_str (v : value) : bool :=
  match v with
  | VStr _ => true
  | _ => false
  end.

(** [repr] of a falsy value. *)
Definition repr_falsy (v : value) : str :=
  match v with
  | VNone => lit "None"
  | VBool _ => lit "False"
  | VInt _ => lit "0"
  | VStr _ => lit "''"
  end.

(** The text handed to [logger.debug]: every argument, or its [repr] when
    it is falsy, joined with spaces; [str.join] takes strings only. *)
Definition debug_item (a : value) : result str :=
  if truthy a then
    match a with
    | VStr s => Ok s
    | _ => Raise TypeError_join_item
    end
  else Ok (repr_falsy a).

Definition debug_line (command : list value) : result str :=
  items <- comprehension debug_item command ;; Ok (join [SP] items).

(** The directory a run is based in: the one given, or that of the
    configuration file. *)
Definition default_basedir (configFileName : str) (basedir : option str)
  : str :=
  match basedir with
  | None => dirname configFileName
  | Some d => d
  end.

Section Driver.

(** [csv.reader] over the text of the statistics file: the rows, each a
    list of fields. *)
Variable csv_reader : str -> list (list str).

(** The process, as a function of the statistics file it is given and of
    its argument vector. *)
Variable dbbench : str -> list value -> execution.

(** [subprocess.check_output(command, stderr=subprocess.STDOUT)]: the
    arguments of a process are strings. *)
Definition check_output (statsFile : str) (command : list value)
  : result (str * str) :=
  if forallb is_str command then
    match dbbench statsFile command with
    | NotStarted errno => Raise (OSError errno)
    | Exited returncode output stats =>
        if (returncode =? 0)%Z then Ok (output, stats)
        else Raise (CalledProcessError returncode command output)
    end
  else Raise TypeError_exec_arg.

(** [statsFile] is the name of the temporary file; what the logger does
    with the debug line, and the removal of the file, have no part in the
    value returned. *)
Definition RunDbbench (statsFile : str) (dbspec : DatabaseSpec)
           (configFileName : str) (basedir : option str)
  : result (list QueryStatistic) :=
  let basedir := default_basedir configFileName basedir in
  let command := dbbench_command statsFile dbspec configFileName basedir in
  _ <- debug_line command ;;
  out <- check_output statsFile command ;;
  comprehension QueryStatistic_init (csv_reader (snd out)).

End Driver.

(** A reader for text without quotes: one row per line, fields between
    commas, no field on an empty line. *)
Definition lines (text : str) : list str :=
  match rev (split LF text) with
  | [] :: ls => rev ls
  | ls => rev ls
  end.

Definition plain_csv_reader (text : str) : list (list str) :=
  map (fun l => match l with [] => [] | _ => split "," l end) (lines text).

(** ** The normalizer in plain words

    What the three substitutions of [CleanQuery] come to, written on lists
    without regular expressions. *)

Definition is_sp (c : ascii) : bool := Ascii.eqb c SP.

Definition not_lf (c : ascii) : bool := negb (Ascii.eqb c LF).

Definition starts_dd (l : str) : bool :=
  match l with
  | c :: d :: _ => Ascii.eqb c DASH && Ascii.eqb d DASH
  | _ => false
  end.

Definition starts_dash (s : str) : bool :=
  match s with
  | c :: _ => Ascii.eqb c DASH
  | [] => false
  end.

(** Some line-comment marker [--] occurs in [l]. *)
Fixpoint has_dd (l : str) : bool :=
  match l with
  | [] => false
  | _ :: l' => starts_dd l || has_dd l'
  end.

(** The part of a line before its first [--]. *)
Fixpoint cut_comment (l : str) : str :=
  match l with
  | [] => []
  | c :: l' => if starts_dd l then [] else c :: cut_comment l'
  end.

Definition starts_sp (s : str) : bool :=
  match s with
  | c :: _ => is_sp c
  | [] => false
  end.

(** Every run of spaces becomes one space. *)
Fixpoint collapse_spaces (s : str) : str :=
  match s with
  | [] => []
  | c :: s' =>
      if is_sp c && starts_sp s' then collapse_spaces s'
      else c :: collapse_spaces s'
  end.

(** Leading and trailing spaces removed. *)
Definition strip_spaces (s : str) : str :=
  drop_while_end is_sp (drop_while is_sp s).

(** The steps in the order of the code: trim, then collapse. *)
Definition clean_plain (query : str) : str :=
  collapse_spaces
    (strip_spaces (join [SP] (map cut_comment (split LF query)))).

(** The steps in the order of the specification: collapse, then trim. *)
Definition normalize_spec (query : str) : str :=
  strip_spaces
    (collapse_spaces (join [SP] (map cut_comment (split LF query)))).

(** Spaces and newlines taken out: what is left of a query once layout is
    ignored. *)
Definition is_blank (c : ascii) : bool := is_sp c || Ascii.eqb c LF.

Definition unblank (s : str) : str := filter (fun c => negb (is_blank c)) s.

(** Two adjacent whitespace characters. *)
Fixpoint has_ws_run (s : str) : bool :=
  match s with
  | c :: s' =>
      match s' with
      | d :: _ => (is_space c && is_space d) || has_ws_run s'
      | [] => false
      end
  | [] => false
  end.

(** A whitespace character at either end. *)
Definition has_ws_end (s : str) : bool :=
  match s, rev s with
  | c :: _, d :: _ => is_space c || is_space d
  | _, _ => false
  end.

(** A one-character class as a matching step, and the length of the run of
    the class that starts a string. *)
Definition cls (p : ascii -> bool) (i : nat) (s : str) (k : Re.cont)
  : option str :=
  match s with
  | x :: s' => if p x then k (S i) s' else None
  | [] => None
  end.

Fixpoint span_len (p : ascii -> bool) (s : str) : nat :=
  match s with
  | c :: s' => if p c then S (span_len p s') else 0
  | [] => 0
  end.

(** ** Unit formatting in plain words *)

(** The least integer that has no float: from here on the conversion of an
    integer operand raises [OverflowError]. *)
Definition overflow_bound : Z := 2 ^ 1024 - 2 ^ 970.

(** The float quotient of two integers. *)
Definition float_quot (v scale : Z) : float :=
  SFdiv prec emax (float_of_Z v) (float_of_Z scale).

Definition us_scales : list Z := [3600000000; 60000000; 1000000; 1000; 1]%Z.

Definition us_unit (scale : Z) : str :=
  if (scale =? 3600000000)%Z then lit "h"
  else if (scale =? 60000000)%Z then lit "m"
  else if (scale =? 1000000)%Z then lit "s"
  else if (scale =? 1000)%Z then lit "ms"
  else lit "us".

Definition count_scales : list Z := [2 ^ 30; 2 ^ 20; 2 ^ 10; 1]%Z.

Definition count_unit (scale : Z) : str :=
  if (scale =? 2 ^ 30)%Z then lit "G"
  else if (scale =? 2 ^ 20)%Z then lit "M"
  else if (scale =? 2 ^ 10)%Z then lit "K"
  else [].

(** The text for [v] at a scale: three decimals of the float quotient, or
    the integer itself at scale 1; then the unit. *)
Definition scaled_text (unit : Z -> str) (scale v : Z) : str :=
  if (scale =? 1)%Z then str_of_int v ++ unit scale
  else format_3f (float_quot v scale) ++ unit scale.

(** [s] is the largest of [scales] that [v] reaches. *)
Definition largest_scale (scales : list Z) (v s : Z) : Prop :=
  In s scales /\ (s <= v)%Z /\
  forall s', In s' scales -> (s' <= v)%Z -> (s' <= s)%Z.

(** A text of digits, a point and exactly three digits. *)
Definition is_digit (c : ascii) : bool :=
  let n := nat_of_ascii c in Nat.leb 48 n && Nat.leb n 57.

Definition is_fixed3 (s : str) : bool :=
  match rev s with
  | d3 :: d2 :: d1 :: dot :: ip =>
      is_digit d3 && is_digit d2 && is_digit d1 && Ascii.eqb dot "."
      && forallb is_digit ip
      && match ip with [] => false | _ => true end
  | _ => false
  end.

(** ** The descriptor and the driver in plain words *)

Definition defaults : DatabaseSpec :=
  {| host := VStr (lit "localhost");
     port := 3306;
     user := VStr (lit "root");
     password := VStr [];
     database := VStr [];
     driver := VStr (lit "mysql") |}.

(** An argument left out, or given a falsy value. *)
Definition empty (a : option value) : bool :=
  match a with
  | None => true
  | Some v => negb (truthy v)
  end.

(** The argument vector of a run. *)
Definition run_command (statsFile : str) (dbspec : DatabaseSpec)
           (configFileName : str) (basedir : option str) : list value :=
  dbbench_command statsFile dbspec configFileName
                  (default_basedir configFileName basedir).

(** A field that [int] accepts. *)
Definition numeric (field : str) : Prop := exists n, int_of_str field = Ok n.

(** A row of the wrong length, or with a count that is not numeric. *)
Definition malformed (row : list str) : Prop :=
  List.length row <> 4 \/ exists field, In field (tl row) /\ ~ numeric field.

(** What a malformed row raises: the number of arguments of the call, or
    the field that [int] refused. *)
Definition row_error (row : list str) (e : exception) : Prop :=
  (List.length row <> 4 /\ e = TypeError_init_args (S (List.length row)))
  \/ (List.length row = 4 /\
      exists field, In field (tl row) /\ ~ numeric field
                    /\ e = ValueError_int_literal field).

(** ** The text of values *)

Definition QUOTE : ascii := "'"%char.
Definition DQUOTE : ascii := ascii_of_nat 34.
Definition BACKSLASH : ascii := "\"%char.
Definition CR : ascii := "013"%char.

(** A digit of [%02x]. *)
Definition hex_digit (n : nat) : ascii :=
  if Nat.ltb n 10 then ascii_of_nat (48 + n) else ascii_of_nat (87 + n).

(** The quote [repr] puts around a byte string: the single quote, unless
    the string holds one and no double quote. *)
Definition repr_quote (s : str) : ascii :=
  if existsb (Ascii.eqb QUOTE) s && negb (existsb (Ascii.eqb DQUOTE) s)
  then DQUOTE else QUOTE.

(** One character inside the quotes. *)
Definition repr_char (quote c : ascii) : str :=
  let n := nat_of_ascii c in
  if Ascii.eqb c quote || Ascii.eqb c BACKSLASH then [BACKSLASH; c]
  else if Ascii.eqb c TAB then [BACKSLASH; "t"%char]
  else if Ascii.eqb c LF then [BACKSLASH; "n"%char]
  else if Ascii.eqb c CR then [BACKSLASH; "r"%char]
  else if Nat.ltb n 32 || Nat.leb 127 n then
    [BACKSLASH; "x"%char; hex_digit (n / 16); hex_digit (n mod 16)]
  else [c].

(** [repr(s)] for a byte string. *)
Definition repr_str (s : str) : str :=
  let quote := repr_quote s in
  quote :: flat_map (repr_char quote) s ++ [quote].

(** [str(v)], which is what [%s] writes. *)
Definition py_str (v : value) : str :=
  match v with
  | VNone => lit "None"
  | VBool b => if b then lit "True" else lit "False"
  | VInt n => str_of_int n
  | VStr s => s
  end.

(** [QueryStatistic.__repr__]: the four parts are built in order, so the
    first count that cannot be formatted raises. *)
Definition QueryStatistic_repr (self : QueryStatistic) : result str :=
  let n := lit "name=" ++ repr_str self.(name) in
  s <- humanize_us self.(startMicros) ;;
  e <- humanize_us self.(elapsedMicros) ;;
  r <- humanize_count self.(rowsAffected) ;;
  Ok (lit "QueryStatistic("
        ++ join (lit ",") [n; lit "start=" ++ s; lit "elapsed=" ++ e;
                           lit "rowsAffected=" ++ r]
        ++ lit ")").

(** [DatabaseSpec.__repr__]. *)
Definition DatabaseSpec_repr (self : DatabaseSpec) : str :=
  lit "DatabaseSpec(" ++ py_str self.(driver) ++ lit "::"
    ++ py_str self.(user) ++ lit ":" ++ py_str self.(password) ++ lit "@"
    ++ py_str self.(host) ++ lit ":" ++ str_of_int self.(port) ++ lit "/"
    ++ py_str self.(database) ++ lit ")".

(** ** The search path *)

Fixpoint str_eqb (a b : str) : bool :=
  match a, b with
  | [], [] => true
  | c :: a', d :: b' => Ascii.eqb c d && str_eqb a' b'
  | _, _ => false
  end.

(** [os.environ]: the variables and their values, one binding a name. *)
Definition environ := list (str * str).

Fixpoint environ_get (env : environ) (key : str) : option str :=
  match env with
  | [] => None
  | (k, v) :: env' => if str_eqb k key then Some v else environ_get env' key
  end.

(** [os.environ[key] = value]: the binding of [key] is replaced where it
    stands, or added. *)
Fixpoint environ_set (env : environ) (key value : str) : environ :=
  match env with
  | [] => [(key, value)]
  | (k, v) :: env' =>
      if str_eqb k key then (k, value) :: env'
      else (k, v) :: environ_set env' key value
  end.

(** [os.path.join(a, b)] of [posixpath]. *)
Definition path_join (a b : str) : str :=
  if match b with c :: _ => is_slash c | [] => false end then b
  else match rev a with
       | [] => a ++ b
       | c :: _ => if is_slash c then a ++ b else a ++ lit "/" ++ b
       end.

(** What a call of [EnsureDbbenchInPath] leaves: a [KeyError], or the
    environment after the call with the warnings it logged. *)
Inductive path_outcome : Type :=
| KeyError (key : str)
| Returned (env : environ) (warnings : list str).

Section SearchPath.

(** [os.access(path, os.X_OK)] on the file system of the call. *)
Variable access_X_OK : str -> bool.

(** [os.path.realpath(__file__)], the place of the module. *)
Variable realpath_file : str.

(** Some entry of a search path holds an executable [dbbench]. *)
Definition dbbench_found (path_value : str) : bool :=
  existsb (fun path => access_X_OK (path_join path (lit "dbbench")))
          (split ":" path_value).

(** [os.pathsep] is the colon of POSIX, as [os.path] is [posixpath]. *)
Definition EnsureDbbenchInPath (env : environ) : path_outcome :=
  let cur_dir := dirname realpath_file in
  match environ_get env (lit "PATH") with
  | None => KeyError (lit "PATH")
  | Some path_value =>
      if negb (dbbench_found path_value) then
        Returned
          (environ_set env (lit "PATH") (path_value ++ lit ":" ++ cur_dir))
          [lit "No dbbench found in PATH, adding " ++ cur_dir
             ++ lit " to the PATH"]
      else Returned env []
  end.

End SearchPath.

(** ** Texts, rows and paths in plain words *)

(** Two adjacent spaces. *)
Fixpoint has_sp_run (s : str) : bool :=
  match s with
  | c :: s' => (is_sp c && starts_sp s') || has_sp_run s'
  | [] => false
  end.

(** A string the normalizer has nothing to do on: one line, no [--], no
    space at either end and no two spaces in a row. *)
Definition normalized (s : str) : bool :=
  forallb not_lf s && negb (has_dd s) && negb (starts_sp s)
  && negb (starts_sp (rev s)) && negb (has_sp_run s).

(** A character of a decimal literal: a digit, a sign or a blank. *)
Definition int_char (c : ascii) : bool :=
  is_digit c || is_space c || Ascii.eqb c "+" || Ascii.eqb c "-".

(** [f'] is [f] between blanks. *)
Definition padded (f f' : str) : Prop :=
  exists l r, forallb is_space l = true /\ forallb is_space r = true
              /\ f' = l ++ f ++ r.

(** A printable character of ASCII. *)
Definition printable (c : ascii) : bool :=
  let n := nat_of_ascii c in Nat.leb 32 n && Nat.ltb n 127.

(** Two lines that are cut alike, also once a character is put before
    them. *)
Definition cut_alike (l1 l2 : str) : Prop :=
  cut_comment l1 = cut_comment l2 /\ starts_dash l1 = starts_dash l2.


(** The words of a string: its maximal runs of characters other than the
    space. *)
Definition words (s : str) : list str :=
  filter (fun w => match w with [] => false | _ => true end) (split SP s).

(** What follows the first word, when words follow. *)
Definition after_word (ws : list str) : str :=
  match ws with
  | [] => []
  | _ => SP :: join [SP] ws
  end.

(** An argument that leaves a string in the descriptor: left out, falsy or
    a string. *)
Definition str_or_empty (a : option value) : bool :=
  match a with
  | None => true
  | Some v => is_str v || negb (truthy v)
  end.

(** * Properties *)

(** ** Lists of characters *)

Lemma drop_while_length p s : List.length (drop_while p s) <= List.length s.
Proof.
  induction s as [|c s IH]; simpl; [lia|].
  destruct (p c); simpl; lia.
Qed.

Lemma drop_while_all p s : forallb p s = true -> drop_while p s = [].
Proof.
  induction s as [|c s IH]; simpl; [reflexivity|].
  destruct (p c); simpl; [exact IH|discriminate].
Qed.

Lemma drop_while_nil_all p s : drop_while p s = [] -> forallb p s = true.
Proof.
  induction s as [|c s IH]; simpl; [reflexivity|].
  destruct (p c); simpl; [exact IH|discriminate].
Qed.

Lemma drop_while_head p s c t : drop_while p s = c :: t -> p c = false.
Proof.
  induction s as [|x s IH]; simpl; [discriminate|].
  destruct (p x) eqn:E; [exact IH|].
  intros H; injection H as -> _; exact E.
Qed.

Lemma drop_while_idem p s : drop_while p (drop_while p s) = drop_while p s.
Proof.
  induction s as [|c s IH]; simpl; [reflexivity|].
  destruct (p c) eqn:E; [exact IH|]. simpl. rewrite E. reflexivity.
Qed.

Lemma drop_while_snoc p s c :
  drop_while p (s ++ [c]) =
  if forallb p s then (if p c then [] else [c]) else drop_while p s ++ [c].
Proof.
  induction s as [|x s IH]; simpl; [reflexivity|].
  destruct (p x); simpl; [exact IH|reflexivity].
Qed.

Lemma forallb_rev (p : ascii -> bool) s : forallb p (rev s) = forallb p s.
Proof.
  induction s as [|c s IH]; simpl; [reflexivity|].
  rewrite forallb_app, IH. simpl. rewrite andb_true_r. apply andb_comm.
Qed.

(** [drop_while_end] read from the front: the first position from which
    only [p] remains ends the result. *)
Lemma drop_while_end_cons p c s :
  drop_while_end p (c :: s) =
  if forallb p (c :: s) then [] else c :: drop_while_end p s.
Proof.
  unfold drop_while_end. simpl rev. rewrite drop_while_snoc.
  rewrite forallb_rev. simpl forallb.
  destruct (forallb p s) eqn:Es.
  - rewrite (drop_while_all p (rev s)) by (rewrite forallb_rev; exact Es).
    destruct (p c); reflexivity.
  - rewrite andb_false_r. rewrite rev_app_distr. reflexivity.
Qed.

Lemma drop_while_end_all p s : forallb p s = true -> drop_while_end p s = [].
Proof.
  destruct s as [|c s]; [reflexivity|].
  intros H. rewrite drop_while_end_cons, H. reflexivity.
Qed.

(** ** The matcher on the three patterns *)

Lemma m_Chr c i s k :
  Re.m (Re.Chr c) i s k = cls (fun x => Ascii.eqb x c) i s k.
Proof. reflexivity. Qed.

Lemma m_Dot i s k : Re.m Re.Dot i s k = cls not_lf i s k.
Proof.
  destruct s as [|x s]; simpl; [reflexivity|].
  unfold not_lf. destruct (Ascii.eqb x LF); reflexivity.
Qed.

Lemma succ_eqb_self i : Nat.eqb (S i) i = false.
Proof. apply Nat.eqb_neq. lia. Qed.

(** Greedy repetition of a class stops at the end of the run when the
    continuation accepts there. *)
Lemma star_cls_some step p :
  (forall i s k, step i s k = cls p i s k) ->
  forall fuel i s k r,
    List.length s <= fuel ->
    k (i + span_len p s) (drop_while p s) = Some r ->
    Re.star_loop step fuel i s k = Some r.
Proof.
  intros Hstep. induction fuel as [|fuel IH]; intros i s k r Hlen Hk.
  - destruct s; [|simpl in Hlen; lia]. simpl in *.
    rewrite Nat.add_0_r in Hk. exact Hk.
  - cbn [Re.star_loop]. rewrite Hstep.
    destruct s as [|x s]; cbn [cls span_len drop_while List.length] in *.
    + rewrite Nat.add_0_r in Hk. exact Hk.
    + destruct (p x) eqn:E.
      * rewrite succ_eqb_self.
        rewrite (IH (S i) s k r); [reflexivity|lia|].
        rewrite <- Hk. f_equal. lia.
      * rewrite Nat.add_0_r in Hk. exact Hk.
Qed.

(** When the continuation refuses every string that still starts in the
    class, giving characters back never helps: the repetition is decided at
    the end of the run. *)
Lemma star_cls_none step p :
  (forall i s k, step i s k = cls p i s k) ->
  forall fuel i s k,
    List.length s <= fuel ->
    (forall j x s', p x = true -> k j (x :: s') = None) ->
    Re.star_loop step fuel i s k = k (i + span_len p s) (drop_while p s).
Proof.
  intros Hstep. induction fuel as [|fuel IH]; intros i s k Hlen Hk.
  - destruct s; [|simpl in Hlen; lia]. simpl. rewrite Nat.add_0_r. reflexivity.
  - cbn [Re.star_loop]. rewrite Hstep.
    destruct s as [|x s]; cbn [cls span_len drop_while List.length] in *.
    + rewrite Nat.add_0_r. reflexivity.
    + destruct (p x) eqn:E.
      * rewrite succ_eqb_self.
        rewrite (IH (S i) s k) by (try lia; exact Hk).
        replace (S i + span_len p s) with (i + S (span_len p s)) by lia.
        destruct (k (i + S (span_len p s)) (drop_while p s)) eqn:Ek;
          [reflexivity|].
        apply Hk. exact E.
      * rewrite Nat.add_0_r. reflexivity.
Qed.

Lemma match_spaces i s :
  Re.match_at spaces_re i s =
  if starts_sp s then Some (drop_while is_sp s) else None.
Proof.
  unfold Re.match_at, spaces_re. destruct s as [|x s]; [reflexivity|].
  cbn [Re.m starts_sp]. unfold is_sp at 1.
  destruct (Ascii.eqb x SP) eqn:E; [|reflexivity].
  cbn [drop_while]. unfold is_sp at 1. rewrite E.
  apply star_cls_some with (p := is_sp); [intros; apply m_Chr|lia|reflexivity].
Qed.

Lemma match_comment i s :
  forallb not_lf s = true ->
  Re.match_at comment_re i s = if starts_dd s then Some [] else None.
Proof.
  intros Hlf. unfold Re.match_at, comment_re.
  destruct s as [|c [|d t]]; cbn [Re.m starts_dd]; try reflexivity.
  - destruct (Ascii.eqb c DASH); reflexivity.
  - destruct (Ascii.eqb c DASH); [|reflexivity].
    destruct (Ascii.eqb d DASH); [|reflexivity]. cbn [andb].
    simpl in Hlf. apply andb_prop in Hlf as [_ Hlf].
    apply andb_prop in Hlf as [_ Hlf].
    apply star_cls_some with (p := not_lf); [intros; apply m_Dot|lia|].
    rewrite (drop_while_all _ _ Hlf). reflexivity.
Qed.

Lemma eol_refuses_space j x s' :
  is_sp x = true -> Re.m Re.Eol j (x :: s') (fun _ r => Some r) = None.
Proof.
  intros H. unfold is_sp in H. apply Ascii.eqb_eq in H. subst x.
  destruct s'; reflexivity.
Qed.

Lemma match_trim_start s :
  Re.match_at trim_re 0 s =
  if starts_sp s then Some (drop_while is_sp s) else None.
Proof.
  unfold Re.match_at, trim_re. destruct s as [|x s]; [reflexivity|].
  cbn [Re.m starts_sp Nat.eqb]. unfold is_sp at 1.
  destruct (Ascii.eqb x SP) eqn:E; [|reflexivity].
  cbn [drop_while]. unfold is_sp at 1. rewrite E.
  rewrite star_cls_some with (p := is_sp) (r := drop_while is_sp s);
    [reflexivity|intros; apply m_Chr|lia|reflexivity].
Qed.

Lemma match_trim_inner i s :
  forallb not_lf s = true ->
  Re.match_at trim_re (S i) s =
  if starts_sp s && forallb is_sp s then Some [] else None.
Proof.
  intros Hlf. unfold Re.match_at, trim_re. destruct s as [|x s]; [reflexivity|].
  cbn [Re.m starts_sp Nat.eqb forallb]. unfold is_sp at 1 2.
  destruct (Ascii.eqb x SP) eqn:E; [|reflexivity]. cbn [andb].
  rewrite star_cls_none with (p := is_sp);
    [|intros; apply m_Chr|lia|
     intros j x' s' Hx; exact (eol_refuses_space j x' s' Hx)].
  simpl in Hlf. apply andb_prop in Hlf as [_ Hlf].
  destruct (drop_while is_sp s) as [|y [|z t]] eqn:D.
  - rewrite (drop_while_nil_all _ _ D). reflexivity.
  - assert (Hy : not_lf y = true).
    { assert (Hin : In y s).
      { clear -D. induction s as [|a s IH]; simpl in D; [discriminate|].
        destruct (is_sp a); [right; auto|].
        injection D as -> _. left; reflexivity. }
      rewrite forallb_forall in Hlf. apply Hlf, Hin. }
    unfold not_lf in Hy. cbn [Re.m].
    destruct (Ascii.eqb y LF); [discriminate|].
    replace (forallb is_sp s) with false; [reflexivity|].
    symmetry. destruct (forallb is_sp s) eqn:F; [|reflexivity].
    rewrite (drop_while_all _ _ F) in D. discriminate.
  - cbn [Re.m].
    replace (forallb is_sp s) with false; [reflexivity|].
    symmetry. destruct (forallb is_sp s) eqn:F; [|reflexivity].
    rewrite (drop_while_all _ _ F) in D. discriminate.
Qed.

(** ** The three substitutions *)

Lemma sub_loop_nil_comment fuel adj i :
  Re.sub_loop fuel comment_re [] adj i [] = [].
Proof. destruct fuel; reflexivity. Qed.

Lemma sub_loop_comment fuel : forall adj i s,
  forallb not_lf s = true ->
  List.length s < fuel ->
  Re.sub_loop fuel comment_re [] adj i s = cut_comment s.
Proof.
  induction fuel as [|fuel IH]; intros adj i s Hlf Hlen; [lia|].
  cbn [Re.sub_loop]. rewrite (match_comment i s Hlf).
  destruct s as [|c s]; [reflexivity|].
  cbn [cut_comment]. destruct (starts_dd (c :: s)) eqn:E.
  - cbn [List.length Nat.sub Nat.eqb app]. apply sub_loop_nil_comment.
  - f_equal. apply IH.
    + simpl in Hlf. apply andb_prop in Hlf as [_ H]. exact H.
    + simpl in Hlen. lia.
Qed.

Lemma sub_comment l :
  forallb not_lf l = true -> Re.sub comment_re [] l = cut_comment l.
Proof. intros H. apply sub_loop_comment; [exact H|lia]. Qed.

Lemma collapse_spaces_run c s :
  is_sp c = true ->
  collapse_spaces (c :: s) = c :: collapse_spaces (drop_while is_sp s).
Proof.
  intros Hc. unfold is_sp in Hc. apply Ascii.eqb_eq in Hc. subst c.
  induction s as [|d s IH].
  - reflexivity.
  - cbn [drop_while]. destruct (is_sp d) eqn:Ed.
    + rewrite <- IH. unfold is_sp in Ed. apply Ascii.eqb_eq in Ed. subst d.
      reflexivity.
    + cbn [collapse_spaces starts_sp]. rewrite Ed, andb_false_r. reflexivity.
Qed.

Lemma sub_loop_spaces fuel : forall adj i s,
  List.length s < fuel ->
  Re.sub_loop fuel spaces_re [SP] adj i s = collapse_spaces s.
Proof.
  induction fuel as [|fuel IH]; intros adj i s Hlen; [lia|].
  cbn [Re.sub_loop]. rewrite match_spaces.
  destruct s as [|c s]; [reflexivity|].
  cbn [starts_sp]. destruct (is_sp c) eqn:E.
  - cbn [drop_while]. rewrite E.
    pose proof (drop_while_length is_sp s) as Hd.
    cbn [List.length] in *.
    replace (Nat.eqb (S (List.length s) - List.length (drop_while is_sp s)) 0)
      with false by (symmetry; apply Nat.eqb_neq; lia).
    rewrite IH by lia. rewrite (collapse_spaces_run c s E).
    unfold is_sp in E. apply Ascii.eqb_eq in E. subst c. reflexivity.
  - cbn [collapse_spaces]. rewrite E. cbn [andb]. f_equal.
    apply IH. simpl in Hlen. lia.
Qed.

Lemma sub_spaces s : Re.sub spaces_re [SP] s = collapse_spaces s.
Proof. apply sub_loop_spaces. lia. Qed.

Lemma sub_loop_nil_trim fuel adj i :
  Re.sub_loop fuel trim_re [] adj (S i) [] = [].
Proof.
  destruct fuel; [reflexivity|]. cbn [Re.sub_loop].
  rewrite (match_trim_inner i [] eq_refl). reflexivity.
Qed.

Lemma sub_loop_trim_inner fuel : forall adj i s,
  forallb not_lf s = true ->
  List.length s < fuel ->
  Re.sub_loop fuel trim_re [] adj (S i) s = drop_while_end is_sp s.
Proof.
  induction fuel as [|fuel IH]; intros adj i s Hlf Hlen; [lia|].
  cbn [Re.sub_loop]. rewrite (match_trim_inner i s Hlf).
  destruct s as [|c s]; [reflexivity|].
  rewrite drop_while_end_cons. cbn [starts_sp forallb].
  destruct (is_sp c) eqn:E; cbn [andb].
  - destruct (forallb is_sp s) eqn:F.
    + cbn [List.length Nat.sub Nat.eqb app].
      replace (S i + S (List.length s)) with (S (S i + List.length s)) by lia.
      apply sub_loop_nil_trim.
    + f_equal. apply IH.
      * simpl in Hlf. apply andb_prop in Hlf as [_ H]. exact H.
      * simpl in Hlen. lia.
  - f_equal. apply IH.
    + simpl in Hlf. apply andb_prop in Hlf as [_ H]. exact H.
    + simpl in Hlen. lia.
Qed.

Lemma forallb_drop_while (q p : ascii -> bool) s :
  forallb q s = true -> forallb q (drop_while p s) = true.
Proof.
  induction s as [|c s IH]; simpl; [reflexivity|].
  intros H. apply andb_prop in H as [Hc Hs].
  destruct (p c); [apply IH, Hs|]. simpl. rewrite Hc, Hs. reflexivity.
Qed.

Lemma sub_trim s :
  forallb not_lf s = true -> Re.sub trim_re [] s = strip_spaces s.
Proof.
  intros Hlf. unfold Re.sub, strip_spaces. cbn [Re.sub_loop].
  rewrite match_trim_start. destruct s as [|c s]; [reflexivity|].
  cbn [starts_sp]. destruct (is_sp c) eqn:E.
  - cbn [drop_while]. rewrite E.
    pose proof (drop_while_length is_sp s) as Hd. cbn [List.length].
    destruct (S (List.length s) - List.length (drop_while is_sp s))
      as [|n] eqn:En; [lia|].
    cbn [Nat.eqb app Nat.add].
    apply sub_loop_trim_inner; [|lia].
    apply forallb_drop_while. simpl in Hlf.
    apply andb_prop in Hlf as [_ H]. exact H.
  - cbn [drop_while]. rewrite E. rewrite drop_while_end_cons.
    cbn [forallb]. rewrite E. cbn [andb]. f_equal.
    apply sub_loop_trim_inner; [|cbn [List.length]; lia].
    simpl in Hlf. apply andb_prop in Hlf as [_ H]. exact H.
Qed.

(** ** Lines *)

Lemma split_cons sep c s :
  split sep (c :: s) =
  if Ascii.eqb c sep then [] :: split sep s
  else (c :: hd [] (split sep s)) :: tl (split sep s).
Proof.
  cbn [split]. destruct (Ascii.eqb c sep); [reflexivity|].
  destruct (split sep s) eqn:E; [|reflexivity].
  destruct s as [|d s]; simpl in E; [discriminate|].
  destruct (Ascii.eqb d sep); [discriminate|].
  destruct (split sep s); discriminate.
Qed.

Lemma split_not_lf q :
  Forall (fun l => forallb not_lf l = true) (split LF q).
Proof.
  induction q as [|c q IH]; [repeat constructor|].
  rewrite split_cons. destruct (Ascii.eqb c LF) eqn:E.
  - constructor; [reflexivity|exact IH].
  - destruct (split LF q) as [|l ls]; simpl.
    + constructor; [|constructor]. simpl. unfold not_lf. rewrite E. reflexivity.
    + inversion IH as [|? ? Hl Hls]; subst. constructor; [|exact Hls].
      simpl. unfold not_lf at 1. rewrite E, Hl. reflexivity.
Qed.

Lemma split_single s : forallb not_lf s = true -> split LF s = [s].
Proof.
  induction s as [|c s IH]; [reflexivity|].
  intros H. simpl in H. apply andb_prop in H as [Hc Hs].
  rewrite split_cons, (IH Hs). unfold not_lf in Hc.
  destruct (Ascii.eqb c LF); [discriminate|reflexivity].
Qed.

Lemma cut_comment_not_lf l :
  forallb not_lf l = true -> forallb not_lf (cut_comment l) = true.
Proof.
  induction l as [|c l IH]; [reflexivity|].
  intros H. cbn [cut_comment]. destruct (starts_dd (c :: l)); [reflexivity|].
  simpl in *. apply andb_prop in H as [Hc Hl]. rewrite Hc, (IH Hl). reflexivity.
Qed.

Lemma join_not_lf ls :
  Forall (fun l => forallb not_lf l = true) ls ->
  forallb not_lf (join [SP] ls) = true.
Proof.
  induction 1 as [|l ls Hl Hls IH]; [reflexivity|].
  destruct ls as [|l' ls]; [exact Hl|].
  change (join [SP] (l :: l' :: ls)) with (l ++ [SP] ++ join [SP] (l' :: ls)).
  rewrite !forallb_app, Hl, IH. reflexivity.
Qed.

Lemma cut_lines_not_lf q :
  Forall (fun l => forallb not_lf l = true) (map cut_comment (split LF q)).
Proof.
  pose proof (split_not_lf q) as H. induction H; simpl; constructor; auto.
  apply cut_comment_not_lf. assumption.
Qed.

(** The code's pipeline without regular expressions. *)
Lemma CleanQuery_plain g q :
  load_global g "re" = Ok tt -> CleanQuery g q = Ok (clean_plain q).
Proof.
  intros Hre. unfold CleanQuery, clean_plain. rewrite Hre. cbn [bind].
  assert (E : map (fun l => Re.sub comment_re [] l) (split LF q)
              = map cut_comment (split LF q)).
  { pose proof (split_not_lf q) as H.
    induction H as [|l ls Hl Hls IH]; simpl; [reflexivity|].
    rewrite IH, (sub_comment l Hl). reflexivity. }
  rewrite E, sub_spaces, sub_trim; [reflexivity|].
  apply join_not_lf, cut_lines_not_lf.
Qed.

(** As the module stands every call stops at the lookup of [re]. *)
Lemma CleanQuery_unbound g q :
  load_global g "re" <> Ok tt -> CleanQuery g q = Raise (NameError "re").
Proof.
  intros H. unfold CleanQuery. unfold load_global in *.
  destruct (existsb (String.eqb "re") g); [congruence|reflexivity].
Qed.

(** ** Trimming and collapsing commute *)

Lemma collapse_spaces_all s :
  forallb is_sp s = true -> forallb is_sp (collapse_spaces s) = true.
Proof.
  induction s as [|c s IH]; [reflexivity|].
  intros H. simpl in H. apply andb_prop in H as [Hc Hs].
  cbn [collapse_spaces]. destruct (is_sp c && starts_sp s); [auto|].
  simpl. rewrite Hc. auto.
Qed.

Lemma collapse_spaces_starts s :
  starts_sp (collapse_spaces s) = starts_sp s.
Proof.
  induction s as [|c s IH]; [reflexivity|].
  cbn [collapse_spaces starts_sp].
  destruct (is_sp c) eqn:Ec; cbn [andb].
  - destruct (starts_sp s) eqn:Es; [exact IH|]. simpl. exact Ec.
  - simpl. exact Ec.
Qed.

Lemma collapse_spaces_not_all s :
  forallb is_sp s = false -> forallb is_sp (collapse_spaces s) = false.
Proof.
  induction s as [|c s IH]; [discriminate|].
  intros H. cbn [collapse_spaces]. simpl in H.
  destruct (is_sp c) eqn:Ec; cbn [andb] in *.
  - destruct (starts_sp s); [auto|]. simpl. rewrite Ec. auto.
  - simpl. rewrite Ec. reflexivity.
Qed.

Lemma collapse_drop_while s :
  collapse_spaces (drop_while is_sp s) = drop_while is_sp (collapse_spaces s).
Proof.
  induction s as [|c s IH]; [reflexivity|].
  cbn [drop_while]. destruct (is_sp c) eqn:Ec.
  - rewrite (collapse_spaces_run c s Ec). cbn [drop_while]. rewrite Ec.
    clear IH. destruct (drop_while is_sp s) as [|d u] eqn:D; [reflexivity|].
    pose proof (drop_while_head _ _ _ _ D) as Hd.
    cbn [collapse_spaces]. rewrite Hd. cbn [andb drop_while].
    rewrite Hd. reflexivity.
  - cbn [collapse_spaces]. rewrite Ec. cbn [andb drop_while]. rewrite Ec.
    reflexivity.
Qed.

Lemma drop_while_end_starts s :
  forallb is_sp s = false ->
  starts_sp (drop_while_end is_sp s) = starts_sp s.
Proof.
  destruct s as [|c s]; [discriminate|].
  intros H. rewrite drop_while_end_cons, H. reflexivity.
Qed.

Lemma collapse_drop_while_end s :
  collapse_spaces (drop_while_end is_sp s)
  = drop_while_end is_sp (collapse_spaces s).
Proof.
  induction s as [|c s IH]; [reflexivity|].
  rewrite drop_while_end_cons.
  destruct (forallb is_sp (c :: s)) eqn:F.
  - rewrite drop_while_end_all; [reflexivity|].
    apply collapse_spaces_all. exact F.
  - cbn [collapse_spaces].
    destruct (is_sp c && starts_sp s) eqn:E.
    + apply andb_prop in E as [Ec Es].
      assert (Fs : forallb is_sp s = false).
      { simpl in F. rewrite Ec in F. exact F. }
      rewrite (drop_while_end_starts s Fs), Ec, Es. exact IH.
    + rewrite drop_while_end_cons.
      assert (F' : forallb is_sp (c :: collapse_spaces s) = false).
      { simpl in *. destruct (is_sp c); [|reflexivity]. simpl in *.
        apply collapse_spaces_not_all. exact F. }
      rewrite F'. rewrite <- IH.
      destruct (is_sp c) eqn:Ec; [|reflexivity]. cbn [andb] in *.
      destruct (forallb is_sp s) eqn:Fs.
      * rewrite (drop_while_end_all _ _ Fs). reflexivity.
      * rewrite (drop_while_end_starts s Fs), E. reflexivity.
Qed.

Lemma strip_collapse_comm s :
  strip_spaces (collapse_spaces s) = collapse_spaces (strip_spaces s).
Proof.
  unfold strip_spaces.
  rewrite collapse_drop_while_end, collapse_drop_while. reflexivity.
Qed.

Lemma clean_plain_normalize_spec q : clean_plain q = normalize_spec q.
Proof.
  unfold clean_plain, normalize_spec. symmetry. apply strip_collapse_comm.
Qed.

(** ** The result of the normalizer is a fixed point *)

Lemma forallb_collapse (q : ascii -> bool) s :
  forallb q s = true -> forallb q (collapse_spaces s) = true.
Proof.
  induction s as [|c s IH]; [reflexivity|].
  intros H. simpl in H. apply andb_prop in H as [Hc Hs].
  cbn [collapse_spaces]. destruct (is_sp c && starts_sp s); [auto|].
  simpl. rewrite Hc. auto.
Qed.

Lemma forallb_drop_while_end (q p : ascii -> bool) s :
  forallb q s = true -> forallb q (drop_while_end p s) = true.
Proof.
  intros H. unfold drop_while_end. rewrite forallb_rev.
  apply forallb_drop_while. rewrite forallb_rev. exact H.
Qed.

Lemma drop_while_end_idem p s :
  drop_while_end p (drop_while_end p s) = drop_while_end p s.
Proof.
  unfold drop_while_end. rewrite rev_involutive, drop_while_idem. reflexivity.
Qed.

Lemma drop_while_of_end p s :
  drop_while p (drop_while_end p (drop_while p s))
  = drop_while_end p (drop_while p s).
Proof.
  destruct (drop_while p s) as [|c u] eqn:D; [reflexivity|].
  pose proof (drop_while_head _ _ _ _ D) as Hc.
  rewrite drop_while_end_cons. cbn [forallb]. rewrite Hc. cbn [andb drop_while].
  rewrite Hc. reflexivity.
Qed.

Lemma strip_spaces_idem s : strip_spaces (strip_spaces s) = strip_spaces s.
Proof.
  unfold strip_spaces. rewrite drop_while_of_end. apply drop_while_end_idem.
Qed.

Lemma collapse_spaces_idem s :
  collapse_spaces (collapse_spaces s) = collapse_spaces s.
Proof.
  induction s as [|c s IH]; [reflexivity|].
  cbn [collapse_spaces]. destruct (is_sp c && starts_sp s) eqn:E; [exact IH|].
  cbn [collapse_spaces]. rewrite collapse_spaces_starts, E, IH. reflexivity.
Qed.

Lemma starts_dd_cons c s :
  starts_dd (c :: s) = Ascii.eqb c DASH && starts_dash s.
Proof. destruct s; simpl; [rewrite andb_false_r|]; reflexivity. Qed.

Lemma sp_not_dash c : is_sp c = true -> Ascii.eqb c DASH = false.
Proof.
  unfold is_sp. intros H. apply Ascii.eqb_eq in H. subst c. reflexivity.
Qed.

Lemma starts_sp_not_dash s : starts_sp s = true -> starts_dash s = false.
Proof. destruct s as [|c s]; [reflexivity|]. simpl. apply sp_not_dash. Qed.

Lemma collapse_starts_dash s :
  starts_dash (collapse_spaces s) = starts_dash s.
Proof.
  induction s as [|c s IH]; [reflexivity|].
  cbn [collapse_spaces].
  destruct (is_sp c && starts_sp s) eqn:E; [|reflexivity].
  apply andb_prop in E as [Ec Es]. rewrite IH.
  rewrite (starts_sp_not_dash s Es). simpl. symmetry. apply sp_not_dash, Ec.
Qed.

Lemma has_dd_collapse s : has_dd (collapse_spaces s) = has_dd s.
Proof.
  induction s as [|c s IH]; [reflexivity|].
  cbn [collapse_spaces has_dd]. destruct (is_sp c && starts_sp s) eqn:E.
  - apply andb_prop in E as [Ec Es]. rewrite IH, starts_dd_cons.
    rewrite (sp_not_dash c Ec). reflexivity.
  - cbn [has_dd]. rewrite IH, !starts_dd_cons, collapse_starts_dash.
    reflexivity.
Qed.

Lemma has_dd_app_l a b : has_dd (a ++ b) = false -> has_dd a = false.
Proof.
  induction a as [|c a IH]; [reflexivity|].
  cbn [app has_dd]. rewrite !starts_dd_cons. intros H.
  apply orb_false_elim in H as [H1 H2]. rewrite (IH H2), orb_false_r.
  destruct (Ascii.eqb c DASH); [|reflexivity]. cbn [andb] in *.
  destruct a; [reflexivity|exact H1].
Qed.

Lemma has_dd_app_r a b : has_dd (a ++ b) = false -> has_dd b = false.
Proof.
  induction a as [|c a IH]; [auto|].
  cbn [app has_dd]. intros H. apply orb_false_elim in H as [_ H]. auto.
Qed.

Lemma drop_while_suffix p s : exists a, s = a ++ drop_while p s.
Proof.
  induction s as [|c s [a IH]]; [exists []; reflexivity|].
  simpl. destruct (p c); [|exists []; reflexivity].
  exists (c :: a). simpl. f_equal. exact IH.
Qed.

Lemma drop_while_end_prefix p s : exists b, s = drop_while_end p s ++ b.
Proof.
  unfold drop_while_end. destruct (drop_while_suffix p (rev s)) as [a H].
  exists (rev a). rewrite <- rev_app_distr, <- H, rev_involutive. reflexivity.
Qed.

Lemma has_dd_strip s : has_dd s = false -> has_dd (strip_spaces s) = false.
Proof.
  intros H. unfold strip_spaces.
  destruct (drop_while_suffix is_sp s) as [a Ha].
  rewrite Ha in H. apply has_dd_app_r in H.
  destruct (drop_while_end_prefix is_sp (drop_while is_sp s)) as [b Hb].
  rewrite Hb in H. apply has_dd_app_l in H. exact H.
Qed.

Lemma has_dd_cut l : has_dd (cut_comment l) = false.
Proof.
  induction l as [|c l IH]; [reflexivity|].
  cbn [cut_comment]. destruct (starts_dd (c :: l)) eqn:E; [reflexivity|].
  cbn [has_dd]. rewrite IH, orb_false_r.
  rewrite starts_dd_cons in *. destruct (Ascii.eqb c DASH); [|reflexivity].
  cbn [andb] in *. destruct l as [|d l]; [reflexivity|].
  cbn [cut_comment]. destruct (starts_dd (d :: l)); [reflexivity|exact E].
Qed.

Lemma has_dd_sep a b :
  has_dd a = false -> has_dd b = false -> has_dd (a ++ SP :: b) = false.
Proof.
  intros Ha Hb. induction a as [|c a IH].
  - simpl. destruct b; exact Hb.
  - cbn [app has_dd] in *. apply orb_false_elim in Ha as [H1 H2].
    rewrite (IH H2), orb_false_r. rewrite starts_dd_cons in *.
    destruct (Ascii.eqb c DASH); [|reflexivity]. cbn [andb] in *.
    destruct a; [reflexivity|exact H1].
Qed.

Lemma has_dd_join ls :
  Forall (fun l => has_dd l = false) ls -> has_dd (join [SP] ls) = false.
Proof.
  induction 1 as [|l ls Hl Hls IH]; [reflexivity|].
  destruct ls as [|l' ls]; [exact Hl|].
  change (join [SP] (l :: l' :: ls)) with (l ++ SP :: join [SP] (l' :: ls)).
  apply has_dd_sep; assumption.
Qed.

Lemma cut_lines_no_dd ls :
  Forall (fun l => has_dd l = false) (map cut_comment ls).
Proof.
  induction ls as [|l ls IH]; simpl; constructor; [apply has_dd_cut|exact IH].
Qed.

Lemma cut_comment_id l : has_dd l = false -> cut_comment l = l.
Proof.
  induction l as [|c l IH]; [reflexivity|].
  cbn [has_dd cut_comment]. intros H. apply orb_false_elim in H as [H1 H2].
  rewrite H1, (IH H2). reflexivity.
Qed.

(** A string without newline, without [--], without a space at either end
    and without two spaces in a row comes back unchanged. *)
Lemma clean_plain_fixed s :
  forallb not_lf s = true ->
  has_dd s = false ->
  strip_spaces s = s ->
  collapse_spaces s = s ->
  clean_plain s = s.
Proof.
  intros Hlf Hdd Hst Hco. unfold clean_plain. rewrite (split_single s Hlf).
  cbn [map join]. rewrite (cut_comment_id s Hdd), Hst. exact Hco.
Qed.

Lemma clean_plain_idem q : clean_plain (clean_plain q) = clean_plain q.
Proof.
  unfold clean_plain at 2 3.
  set (j := join [SP] (map cut_comment (split LF q))).
  assert (Hlf : forallb not_lf j = true)
    by (apply join_not_lf, cut_lines_not_lf).
  assert (Hdd : has_dd j = false).
  { apply has_dd_join, cut_lines_no_dd. }
  apply clean_plain_fixed.
  - apply forallb_collapse. unfold strip_spaces.
    apply forallb_drop_while_end, forallb_drop_while, Hlf.
  - rewrite has_dd_collapse. apply has_dd_strip, Hdd.
  - rewrite strip_collapse_comm, strip_spaces_idem. reflexivity.
  - apply collapse_spaces_idem.
Qed.

(** ** Only layout changes where there is no line comment *)

Lemma unblank_app a b : unblank (a ++ b) = unblank a ++ unblank b.
Proof. apply filter_app. Qed.

Lemma unblank_cons c s :
  unblank (c :: s) = (if negb (is_blank c) then [c] else []) ++ unblank s.
Proof. unfold unblank. simpl. destruct (negb (is_blank c)); reflexivity. Qed.

Lemma unblank_all_sp s : forallb is_sp s = true -> unblank s = [].
Proof.
  induction s as [|c s IH]; [reflexivity|].
  intros H. simpl in H. apply andb_prop in H as [Hc Hs].
  unfold unblank in *. simpl. unfold is_blank. rewrite Hc. simpl. auto.
Qed.

Lemma unblank_sp c s : is_sp c = true -> unblank (c :: s) = unblank s.
Proof.
  intros Hc. unfold unblank. simpl. unfold is_blank. rewrite Hc. reflexivity.
Qed.

Lemma unblank_collapse s : unblank (collapse_spaces s) = unblank s.
Proof.
  induction s as [|c s IH]; [reflexivity|].
  cbn [collapse_spaces]. destruct (is_sp c && starts_sp s) eqn:E.
  - apply andb_prop in E as [Ec _]. rewrite (unblank_sp c s Ec). exact IH.
  - unfold unblank in *. simpl. rewrite IH. reflexivity.
Qed.

Lemma unblank_drop_while s : unblank (drop_while is_sp s) = unblank s.
Proof.
  induction s as [|c s IH]; [reflexivity|].
  cbn [drop_while]. destruct (is_sp c) eqn:E; [|reflexivity].
  rewrite (unblank_sp c s E). exact IH.
Qed.

Lemma unblank_drop_while_end s : unblank (drop_while_end is_sp s) = unblank s.
Proof.
  induction s as [|c s IH]; [reflexivity|].
  rewrite drop_while_end_cons. destruct (forallb is_sp (c :: s)) eqn:F.
  - symmetry. apply unblank_all_sp, F.
  - unfold unblank in *. simpl. rewrite IH. reflexivity.
Qed.

Lemma unblank_strip s : unblank (strip_spaces s) = unblank s.
Proof.
  unfold strip_spaces. rewrite unblank_drop_while_end. apply unblank_drop_while.
Qed.

Lemma unblank_join ls : unblank (join [SP] ls) = List.concat (map unblank ls).
Proof.
  induction ls as [|l ls IH]; [reflexivity|].
  destruct ls as [|l' ls]; [simpl; rewrite app_nil_r; reflexivity|].
  change (join [SP] (l :: l' :: ls)) with (l ++ SP :: join [SP] (l' :: ls)).
  rewrite unblank_app, (unblank_sp SP _ eq_refl), IH. reflexivity.
Qed.

Lemma unblank_split q : List.concat (map unblank (split LF q)) = unblank q.
Proof.
  induction q as [|c q IH]; [reflexivity|].
  rewrite split_cons. destruct (Ascii.eqb c LF) eqn:E.
  - cbn [map List.concat app]. rewrite IH. unfold unblank. simpl.
    unfold is_blank. rewrite E, orb_true_r. reflexivity.
  - cbn [map List.concat]. rewrite !unblank_cons, <- IH, <- app_assoc.
    f_equal. destruct (split LF q) as [|l ls]; reflexivity.
Qed.

Lemma split_hd_dash c q :
  starts_dd (c :: hd [] (split LF q)) = true -> starts_dd (c :: q) = true.
Proof.
  rewrite !starts_dd_cons. destruct (Ascii.eqb c DASH); [|auto].
  cbn [andb]. destruct q as [|d q]; [auto|].
  rewrite split_cons. destruct (Ascii.eqb d LF); simpl; [discriminate|auto].
Qed.

Lemma split_no_dd q :
  has_dd q = false -> Forall (fun l => has_dd l = false) (split LF q).
Proof.
  induction q as [|c q IH]; [repeat constructor|].
  intros H. cbn [has_dd] in H. apply orb_false_elim in H as [H1 H2].
  specialize (IH H2). rewrite split_cons.
  destruct (Ascii.eqb c LF); [constructor; [reflexivity|exact IH]|].
  assert (Hhd : has_dd (hd [] (split LF q)) = false)
    by (inversion IH; auto).
  assert (Htl : Forall (fun l => has_dd l = false) (tl (split LF q)))
    by (inversion IH; simpl; auto).
  constructor; [|exact Htl]. cbn [has_dd]. rewrite Hhd, orb_false_r.
  destruct (starts_dd (c :: hd [] (split LF q))) eqn:E; [|reflexivity].
  apply split_hd_dash in E. congruence.
Qed.

Lemma clean_plain_layout_only q :
  has_dd q = false -> unblank (clean_plain q) = unblank q.
Proof.
  intros H. unfold clean_plain. rewrite unblank_collapse, unblank_strip.
  rewrite unblank_join, <- unblank_split. f_equal.
  pose proof (split_no_dd q H) as Hl.
  induction Hl as [|l ls Hl Hls IH]; [reflexivity|].
  simpl. rewrite (cut_comment_id l Hl), IH. reflexivity.
Qed.

(** ** Integers as floats *)

Section FloatFacts.

Local Open Scope Z_scope.

Lemma iter_pos_nat {A : Type} (f : A -> A) p : forall x,
  iter_pos f p x = Nat.iter (Pos.to_nat p) f x.
Proof.
  induction p as [p IH|p IH|]; intros x; cbn [iter_pos].
  - rewrite !IH, Pos2Nat.inj_xI, Nat.iter_succ_r.
    replace (2 * Pos.to_nat p)%nat with (Pos.to_nat p + Pos.to_nat p)%nat
      by lia.
    rewrite Nat.iter_add. reflexivity.
  - rewrite !IH, Pos2Nat.inj_xO.
    replace (2 * Pos.to_nat p)%nat with (Pos.to_nat p + Pos.to_nat p)%nat
      by lia.
    rewrite Nat.iter_add. reflexivity.
  - reflexivity.
Qed.

Lemma shr_1_spec mrs :
  0 <= shr_m mrs ->
  shr_m (shr_1 mrs) = shr_m mrs / 2 /\ shr_r (shr_1 mrs) = Z.odd (shr_m mrs).
Proof.
  destruct mrs as [m r s]. cbn [shr_m]. intros Hm.
  destruct m as [|[p|p|]|p]; cbn [shr_1 shr_m shr_r]; try lia.
  - split; reflexivity.
  - split; [|reflexivity]. rewrite Pos2Z.inj_xI. 
    replace (2 * Z.pos p + 1) with (1 + Z.pos p * 2) by lia.
    rewrite Z.div_add by lia. reflexivity.
  - split; [|reflexivity]. rewrite Pos2Z.inj_xO.
    replace (2 * Z.pos p) with (Z.pos p * 2) by lia.
    rewrite Z.div_mul by lia. reflexivity.
  - split; reflexivity.
Qed.

Lemma shr_iter_nat mrs k :
  0 <= shr_m mrs ->
  shr_m (Nat.iter (S k) shr_1 mrs) = shr_m mrs / 2 ^ Z.of_nat (S k)
  /\ shr_r (Nat.iter (S k) shr_1 mrs) = Z.odd (shr_m mrs / 2 ^ Z.of_nat k).
Proof.
  intros Hm. induction k as [|k [IHm IHr]].
  - cbn [Nat.iter nat_rect]. destruct (shr_1_spec mrs Hm) as [H1 H2].
    rewrite H1, H2. change (2 ^ Z.of_nat 1) with 2.
    change (2 ^ Z.of_nat 0) with 1.
    rewrite Z.div_1_r. split; reflexivity.
  - rewrite Nat.iter_succ.
    assert (H0 : 0 <= shr_m (Nat.iter (S k) shr_1 mrs)).
    { rewrite IHm. apply Z.div_pos; [exact Hm|]. apply Z.pow_pos_nonneg; lia. }
    destruct (shr_1_spec _ H0) as [H1 H2]. rewrite H1, H2, IHm.
    split; [|reflexivity].
    rewrite Z.div_div by (try apply Z.pow_pos_nonneg; lia).
    f_equal. rewrite (Nat2Z.inj_succ (S k)), Z.pow_succ_r by lia. lia.
Qed.

Lemma shr_iter m r s p :
  0 <= m ->
  let res := iter_pos shr_1 p (Build_shr_record m r s) in
  shr_m res = m / 2 ^ Z.pos p /\ shr_r res = Z.odd (m / 2 ^ (Z.pos p - 1)).
Proof.
  intros Hm res. subst res. rewrite iter_pos_nat.
  destruct (Pos2Nat.is_succ p) as [k Hk]. rewrite Hk.
  destruct (shr_iter_nat (Build_shr_record m r s) k Hm) as [H1 H2].
  cbn [shr_m] in *. rewrite H1, H2.
  assert (Z.pos p = Z.of_nat (S k)) by lia.
  split; f_equal; f_equal; f_equal; lia.
Qed.

Lemma digits2_bounds m :
  2 ^ (Z.pos (digits2_pos m) - 1) <= Z.pos m < 2 ^ Z.pos (digits2_pos m).
Proof.
  induction m as [m IH|m IH|]; cbn [digits2_pos].
  - rewrite Pos2Z.inj_succ. change (Z.pos m~1) with (2 * Z.pos m + 1).
    replace (Z.succ (Z.pos (digits2_pos m)) - 1)
      with (Z.succ (Z.pos (digits2_pos m) - 1)) by lia.
    rewrite !Z.pow_succ_r by lia. lia.
  - rewrite Pos2Z.inj_succ. change (Z.pos m~0) with (2 * Z.pos m).
    replace (Z.succ (Z.pos (digits2_pos m)) - 1)
      with (Z.succ (Z.pos (digits2_pos m) - 1)) by lia.
    rewrite !Z.pow_succ_r by lia. lia.
  - change (2 ^ (Z.pos 1 - 1)) with 1. change (2 ^ Z.pos 1) with 2. lia.
Qed.


Lemma Zdigits2_bounds x :
  0 < x -> 2 ^ (Zdigits2 x - 1) <= x < 2 ^ Zdigits2 x.
Proof.
  destruct x as [|p|p]; try lia. intros _. apply digits2_bounds.
Qed.

Lemma Zdigits2_unique x k :
  2 ^ (k - 1) <= x < 2 ^ k -> 0 < x -> Zdigits2 x = k.
Proof.
  intros [Hlo Hhi] Hx. pose proof (Zdigits2_bounds x Hx) as [Hlo' Hhi'].
  assert (Hk : 0 < k).
  { destruct (Z.lt_trichotomy k 0) as [H|[H|H]];
      [|subst k; simpl in Hhi; lia|exact H].
    rewrite (Z.pow_neg_r 2 k H) in Hhi. lia. }
  assert (Hdp : 0 < Zdigits2 x) by (destruct x; simpl; lia).
  destruct (Z.lt_trichotomy (Zdigits2 x) k) as [H|[H|H]]; [|exact H|].
  - assert (2 ^ Zdigits2 x <= 2 ^ (k - 1)) by (apply Z.pow_le_mono_r; lia). lia.
  - assert (2 ^ k <= 2 ^ (Zdigits2 x - 1)) by (apply Z.pow_le_mono_r; lia). lia.
Qed.

Lemma shr_fexp_keep mx ex l :
  fexp prec emax (Zdigits2 mx + ex) - ex <= 0 ->
  shr_fexp prec emax mx ex l = (shr_record_of_loc mx l, ex).
Proof.
  intros H. unfold shr_fexp, shr.
  destruct (fexp prec emax (Zdigits2 mx + ex) - ex); try reflexivity. lia.
Qed.

Lemma shr_fexp_shift mx ex :
  0 <= mx ->
  0 < fexp prec emax (Zdigits2 mx + ex) - ex ->
  exists mrs,
    shr_fexp prec emax mx ex loc_Exact
    = (mrs, fexp prec emax (Zdigits2 mx + ex))
    /\ shr_m mrs = mx / 2 ^ (fexp prec emax (Zdigits2 mx + ex) - ex)
    /\ shr_r mrs
       = Z.odd (mx / 2 ^ (fexp prec emax (Zdigits2 mx + ex) - ex - 1)).
Proof.
  intros Hm H. unfold shr_fexp, shr.
  destruct (fexp prec emax (Zdigits2 mx + ex) - ex) as [|n|n] eqn:E; try lia.
  cbn [shr_record_of_loc].
  destruct (shr_iter mx false false n Hm) as [H1 H2].
  eexists. split; [f_equal; lia|]. split; assumption.
Qed.

Lemma round_nearest_even_bounds mx l :
  mx <= round_nearest_even mx l <= mx + 1.
Proof.
  unfold round_nearest_even. destruct l as [|[| |]]; try lia.
  destruct (Z.even mx); lia.
Qed.

Lemma round_nearest_even_down mrs :
  shr_r mrs = false ->
  round_nearest_even (shr_m mrs) (loc_of_shr_record mrs) = shr_m mrs.
Proof.
  destruct mrs as [m r s]. cbn [shr_r shr_m]. intros ->.
  destruct s; reflexivity.
Qed.


Lemma pow2_split a b : 0 <= a -> 0 <= b -> 2 ^ (a + b) = 2 ^ a * 2 ^ b.
Proof. intros. apply Z.pow_add_r; assumption. Qed.


Lemma iter_xO_spec m k : Z.pos (Pos.iter xO m k) = Z.pos m * 2 ^ Z.pos k.
Proof.
  induction k as [|k IH] using Pos.peano_ind.
  - cbn [Pos.iter]. change (2 ^ Z.pos 1) with 2. lia.
  - rewrite Pos.iter_succ, Pos2Z.inj_succ, Z.pow_succ_r by lia.
    change (Z.pos (Pos.iter xO m k)~0) with (2 * Z.pos (Pos.iter xO m k)). lia.
Qed.

(** A mantissa of 53 digits whose exponent is in range is kept as it is. *)
Lemma binary_round_aux_exact p e :
  Zdigits2 (Z.pos p) = 53 ->
  -1074 <= e <= 971 ->
  binary_round_aux prec emax false (Z.pos p) e loc_Exact
  = S754_finite false p e.
Proof.
  intros Hdig He. unfold binary_round_aux.
  assert (Hk : fexp prec emax (Zdigits2 (Z.pos p) + e) - e <= 0).
  { rewrite Hdig.
    change (fexp prec emax (53 + e)) with (Z.max (53 + e - 53) (-1074)). lia. }
  rewrite (shr_fexp_keep _ _ _ Hk).
  cbn [shr_record_of_loc shr_m loc_of_shr_record round_nearest_even].
  rewrite (shr_fexp_keep _ _ _ Hk). cbn [shr_record_of_loc shr_m].
  replace (e <=? emax - prec) with true
    by (symmetry; apply Z.leb_le; unfold emax, prec; lia).
  reflexivity.
Qed.

(** Below [2^1024 - 2^970] the conversion never reaches an infinity. *)
Lemma float_of_Z_normal v :
  0 < v < 2 ^ 1024 - 2 ^ 970 ->
  exists m e,
    float_of_Z v = S754_finite false m e
    /\ Zdigits2 (Z.pos m) = 53 /\ e <= 971.
Proof.
  intros [Hpos Hlt]. destruct v as [|m|m]; try lia.
  unfold float_of_Z, binary_normalize, binary_round.
  pose proof (digits2_bounds m) as Hd.
  set (d := Z.pos (digits2_pos m)) in *.
  assert (Hd1 : 1 <= d) by (unfold d; lia).
  assert (Hd2 : d <= 1024).
  { destruct (Z_le_gt_dec d 1024) as [H|H]; [exact H|].
    assert (2 ^ 1024 <= 2 ^ (d - 1)) by (apply Z.pow_le_mono_r; lia). lia. }
  change (fexp prec emax (d + 0)) with (Z.max (d + 0 - 53) (-1074)).
  destruct (Z_le_gt_dec d 53) as [Hsmall|Hbig].
  - replace (Z.max (d + 0 - 53) (-1074)) with (d - 53) by lia.
    unfold shl_align. destruct (d - 53 - 0) as [|k|k] eqn:Ek; try lia.
    + assert (Hdig : Zdigits2 (Z.pos m) = 53) by (cbn [Zdigits2]; fold d; lia).
      rewrite binary_round_aux_exact; [|exact Hdig|lia].
      eexists _, _. split; [reflexivity|]. split; [exact Hdig|lia].
    + assert (Hk : Z.pos k = 53 - d) by lia.
      assert (Hdig : Zdigits2 (Z.pos (Pos.iter xO m k)) = 53);
        [|rewrite binary_round_aux_exact; [|exact Hdig|lia];
          eexists _, _; split; [reflexivity|]; split; [exact Hdig|lia]].
      apply Zdigits2_unique; [|lia]. rewrite iter_xO_spec, Hk.
      change (53 - 1) with 52.
      replace (2 ^ 52) with (2 ^ (d - 1) * 2 ^ (53 - d))
        by (rewrite <- pow2_split by lia; f_equal; lia).
      replace (2 ^ 53) with (2 ^ d * 2 ^ (53 - d))
        by (rewrite <- pow2_split by lia; f_equal; lia).
      assert (0 < 2 ^ (53 - d)) by (apply Z.pow_pos_nonneg; lia).
      split; [apply Z.mul_le_mono_nonneg_r; lia|apply Z.mul_lt_mono_pos_r; lia].
  - replace (Z.max (d + 0 - 53) (-1074)) with (d - 53) by lia.
    unfold shl_align. destruct (d - 53 - 0) as [|n|n] eqn:En; try lia.
    unfold binary_round_aux.
    assert (Hn1 : fexp prec emax (Zdigits2 (Z.pos m) + 0) - 0 = d - 53).
    { cbn [Zdigits2]. fold d.
      change (fexp prec emax (d + 0)) with (Z.max (d + 0 - 53) (-1074)). lia. }
    destruct (shr_fexp_shift (Z.pos m) 0 ltac:(lia) ltac:(lia))
      as (mrs' & E1 & Hm1 & Hr1).
    rewrite E1.
    replace (fexp prec emax (Zdigits2 (Z.pos m) + 0)) with (d - 53) by lia.
    rewrite Hn1 in Hm1, Hr1.
    set (q := shr_m mrs') in *.
    assert (Hq : 2 ^ 52 <= q < 2 ^ 53).
    { rewrite Hm1. split.
      - apply Z.div_le_lower_bound; [apply Z.pow_pos_nonneg; lia|].
        rewrite <- pow2_split by lia.
        replace (d - 53 + 52) with (d - 1) by lia. lia.
      - apply Z.div_lt_upper_bound; [apply Z.pow_pos_nonneg; lia|].
        rewrite <- pow2_split by lia.
        replace (d - 53 + 53) with d by lia. lia. }
    pose proof (round_nearest_even_bounds q (loc_of_shr_record mrs')) as Hm'.
    set (m' := round_nearest_even q (loc_of_shr_record mrs')) in *.
    destruct (Z_lt_le_dec m' (2 ^ 53)) as [Hno|Hcarry].
    + assert (Hdig : Zdigits2 m' = 53).
      { apply Zdigits2_unique; [|lia]. change (53 - 1) with 52. lia. }
      rewrite shr_fexp_keep.
      2:{ rewrite Hdig.
          change (fexp prec emax (53 + (d - 53)))
            with (Z.max (53 + (d - 53) - 53) (-1074)). lia. }
      cbn [shr_record_of_loc shr_m].
      destruct m' as [|p'|p'] eqn:Em'; try lia.
      replace (d - 53 <=? emax - prec) with true
        by (symmetry; apply Z.leb_le; unfold emax, prec; lia).
      eexists _, _. split; [reflexivity|]. split; [exact Hdig|lia].
    + assert (Em' : m' = 2 ^ 53) by lia.
      assert (Hq' : q = 2 ^ 53 - 1).
      { destruct (Z.eq_dec q (2 ^ 53 - 1)) as [H|H]; [exact H|]. lia. }
      assert (Hr : shr_r mrs' = true).
      { destruct (shr_r mrs') eqn:R; [reflexivity|].
        pose proof (round_nearest_even_down mrs' R) as Hdown.
        fold q in Hdown. fold m' in Hdown. lia. }
      assert (Hd3 : d <= 1023).
      { destruct (Z_le_gt_dec d 1023) as [H|H]; [exact H|].
        assert (Ed : d = 1024) by lia. exfalso.
        rewrite Ed in Hm1, Hr1. change (1024 - 53) with 971 in Hm1.
        change (1024 - 53 - 1) with 970 in Hr1.
        assert (Hlo : (2 ^ 54 - 2) * 2 ^ 970 <= Z.pos m).
        { pose proof (Z.mul_div_le (Z.pos m) (2 ^ 971) ltac:(lia)) as H1.
          rewrite <- Hm1, Hq' in H1. lia. }
        assert (E : Z.pos m / 2 ^ 970 = 2 ^ 54 - 2).
        { apply Z.le_antisymm.
          - apply Z.lt_succ_r. apply Z.div_lt_upper_bound; lia.
          - apply Z.div_le_lower_bound; lia. }
        rewrite E in Hr1. rewrite Hr1 in Hr. discriminate. }
      assert (Hdig : Zdigits2 m' = 54).
      { apply Zdigits2_unique; [|lia]. rewrite Em'.
        change (54 - 1) with 53. lia. }
      assert (Hn2 : fexp prec emax (Zdigits2 m' + (d - 53)) = d - 52).
      { rewrite Hdig.
        change (fexp prec emax (54 + (d - 53)))
          with (Z.max (54 + (d - 53) - 53) (-1074)). lia. }
      destruct (shr_fexp_shift m' (d - 53) ltac:(lia) ltac:(lia))
        as (mrs'' & E2 & Hm2 & _).
      rewrite E2, Hm2, Hn2, Em'.
      replace (d - 52 - (d - 53)) with 1 by lia.
      change (2 ^ 53 / 2 ^ 1) with (Z.pos (2 ^ 52)).
      cbv iota.
      replace (d - 52 <=? emax - prec) with true
        by (symmetry; apply Z.leb_le; unfold emax, prec; lia).
      eexists _, _. split; [reflexivity|]. split; [reflexivity|lia].
Qed.

Lemma float_of_Z_finite v :
  0 < v < 2 ^ 1024 - 2 ^ 970 ->
  exists m e, float_of_Z v = S754_finite false m e.
Proof.
  intros H. destruct (float_of_Z_normal v H) as (m & e & E & _). eauto.
Qed.

End FloatFacts.

(** ** Float quotients and their text *)

Section QuotFacts.

Local Open Scope Z_scope.

Lemma Zdigits2_nonneg x : 0 <= Zdigits2 x.
Proof. destruct x; simpl; lia. Qed.

Lemma Zdigits2_upper x : 0 <= x -> x < 2 ^ Zdigits2 x.
Proof.
  intros H. destruct (Z.eq_dec x 0) as [->|Hx]; [simpl; lia|].
  apply Zdigits2_bounds. lia.
Qed.

Lemma Zdigits2_le x k : 0 <= x < 2 ^ k -> 0 <= k -> Zdigits2 x <= k.
Proof.
  intros [H0 Hk] Hk0. destruct (Z.eq_dec x 0) as [->|Hx]; [simpl; lia|].
  pose proof (Zdigits2_bounds x ltac:(lia)) as [Hlo _].
  destruct (Z_le_gt_dec (Zdigits2 x) k) as [H|H]; [exact H|].
  assert (2 ^ k <= 2 ^ (Zdigits2 x - 1)) by (apply Z.pow_le_mono_r; lia). lia.
Qed.

(** The shift of [shr_fexp], for any rounding location. *)
Lemma shr_fexp_cases mx ex l :
  0 <= mx ->
  exists mrs e',
    shr_fexp prec emax mx ex l = (mrs, e')
    /\ ((fexp prec emax (Zdigits2 mx + ex) - ex <= 0
         /\ shr_m mrs = mx /\ e' = ex)
        \/ (0 < fexp prec emax (Zdigits2 mx + ex) - ex
            /\ shr_m mrs = mx / 2 ^ (fexp prec emax (Zdigits2 mx + ex) - ex)
            /\ e' = fexp prec emax (Zdigits2 mx + ex))).
Proof.
  intros Hm. unfold shr_fexp, shr.
  destruct (fexp prec emax (Zdigits2 mx + ex) - ex) as [|n|n] eqn:E.
  - eexists _, _. split; [reflexivity|]. left.
    destruct l as [|[| |]]; cbn; repeat split; lia.
  - destruct (shr_record_of_loc mx l) as [m0 r0 s0] eqn:R.
    assert (m0 = mx) by (destruct l as [|[| |]]; cbn in R; congruence).
    subst m0. destruct (shr_iter mx r0 s0 n Hm) as [H1 _].
    eexists _, _. split; [reflexivity|]. right.
    split; [lia|]. split; [exact H1|lia].
  - eexists _, _. split; [reflexivity|]. left.
    destruct l as [|[| |]]; cbn; repeat split; lia.
Qed.

(** Rounding a mantissa whose magnitude is in range never gives an
    infinity. *)
Lemma binary_round_aux_in_range mz ez lz :
  0 <= mz ->
  Zdigits2 mz + ez <= 1023 ->
  ez <= 971 ->
  binary_round_aux prec emax false mz ez lz = S754_zero false
  \/ exists m e, binary_round_aux prec emax false mz ez lz
                 = S754_finite false m e.
Proof.
  intros Hmz Hmag Hez. unfold binary_round_aux.
  destruct (shr_fexp_cases mz ez lz Hmz) as (mrs' & e' & E1 & C1).
  rewrite E1.
  set (q := shr_m mrs') in *.
  assert (Hq : 0 <= q /\ Zdigits2 q + e' <= 1023 /\ e' <= 971).
  { destruct C1 as [(Hn & Hm & He)|(Hn & Hm & He)].
    - rewrite Hm, He. lia.
    - change (fexp prec emax (Zdigits2 mz + ez))
        with (Z.max (Zdigits2 mz + ez - 53) (-1074)) in *.
      set (n := Z.max (Zdigits2 mz + ez - 53) (-1074) - ez) in *.
      assert (H0 : 0 <= q)
        by (rewrite Hm; apply Z.div_pos; [lia|apply Z.pow_pos_nonneg; lia]).
      split; [exact H0|]. split; [|lia].
      destruct (Z_le_gt_dec n (Zdigits2 mz)) as [Hle|Hgt].
      + assert (Zdigits2 q <= Zdigits2 mz - n).
        { apply Zdigits2_le; [|lia]. split; [exact H0|]. rewrite Hm.
          apply Z.div_lt_upper_bound; [apply Z.pow_pos_nonneg; lia|].
          rewrite <- pow2_split by lia.
          replace (n + (Zdigits2 mz - n)) with (Zdigits2 mz) by lia.
          apply Zdigits2_upper. exact Hmz. }
        lia.
      + assert (q = 0).
        { rewrite Hm. apply Z.div_small. split; [exact Hmz|].
          apply Z.lt_le_trans with (2 ^ Zdigits2 mz);
            [apply Zdigits2_upper; exact Hmz|].
          apply Z.pow_le_mono_r; lia. }
        replace q with 0 by lia. simpl Zdigits2. lia. }
  destruct Hq as (Hq0 & Hqmag & He').
  pose proof (round_nearest_even_bounds q (loc_of_shr_record mrs')) as Hm'.
  set (m' := round_nearest_even q (loc_of_shr_record mrs')) in *.
  assert (Hm'0 : 0 <= m') by lia.
  assert (Hdig : Zdigits2 m' <= Zdigits2 q + 1).
  { apply Zdigits2_le; [|pose proof (Zdigits2_nonneg q); lia].
    split; [lia|]. pose proof (Zdigits2_upper q Hq0).
    rewrite Z.pow_add_r by (pose proof (Zdigits2_nonneg q); lia).
    change (2 ^ 1) with 2. lia. }
  destruct (shr_fexp_cases m' e' loc_Exact Hm'0) as (mrs'' & e'' & E2 & C2).
  rewrite E2.
  assert (He'' : e'' <= 971 /\ 0 <= shr_m mrs'').
  { destruct C2 as [(Hn & Hm & He)|(Hn & Hm & He)].
    - rewrite Hm, He. lia.
    - change (fexp prec emax (Zdigits2 m' + e'))
        with (Z.max (Zdigits2 m' + e' - 53) (-1074)) in *.
      split; [lia|]. rewrite Hm. apply Z.div_pos; [lia|].
      apply Z.pow_pos_nonneg; lia. }
  destruct He'' as [He'' Hm''].
  destruct (shr_m mrs'') as [|p|p]; [left; reflexivity| |lia].
  right. replace (e'' <=? emax - prec) with true
    by (symmetry; apply Z.leb_le; unfold emax, prec; lia).
  eauto.
Qed.

Lemma div_eucl_fst a b : fst (Z.div_eucl a b) = a / b.
Proof. unfold Z.div. destruct (Z.div_eucl a b); reflexivity. Qed.

(** The quotient of two normal floats, the divisor at least 2, is zero or
    finite. *)
Lemma SFdiv_in_range m1 e1 m2 e2 :
  Zdigits2 (Z.pos m1) = 53 -> e1 <= 971 ->
  Zdigits2 (Z.pos m2) = 53 -> -51 <= e2 ->
  SFdiv prec emax (S754_finite false m1 e1) (S754_finite false m2 e2)
  = S754_zero false
  \/ exists m e,
      SFdiv prec emax (S754_finite false m1 e1) (S754_finite false m2 e2)
      = S754_finite false m e.
Proof.
  intros Hd1 He1 Hd2 He2. cbn [SFdiv xorb].
  destruct (SFdiv_core_binary prec emax (Z.pos m1) e1 (Z.pos m2) e2)
    as [[mz ez] lz] eqn:E.
  unfold SFdiv_core_binary in E. rewrite Hd1, Hd2 in E.
  change (fexp prec emax (53 + e1 - (53 + e2)))
    with (Z.max (53 + e1 - (53 + e2) - 53) (-1074)) in E.
  set (e' := Z.min (Z.max (53 + e1 - (53 + e2) - 53) (-1074)) (e1 - e2)) in E.
  set (s := e1 - e2 - e') in E.
  set (m' := match s with
             | 0 => Z.pos m1
             | Z.pos _ => Z.shiftl (Z.pos m1) s
             | Z.neg _ => 0
             end) in E.
  assert (Hs : 0 <= s) by (unfold s, e'; lia).
  assert (Hm' : m' = Z.pos m1 * 2 ^ s).
  { unfold m'. destruct s as [|p|p] eqn:Es; [simpl; lia| |lia].
    apply Z.shiftl_mul_pow2. lia. }
  pose proof (div_eucl_fst m' (Z.pos m2)) as Hq.
  destruct (Z.div_eucl m' (Z.pos m2)) as [q r]. cbn [fst] in Hq.
  injection E as <- <- <-.
  pose proof (Zdigits2_bounds (Z.pos m1) ltac:(lia)) as [_ Hhi1].
  pose proof (Zdigits2_bounds (Z.pos m2) ltac:(lia)) as [Hlo2 _].
  rewrite Hd1 in Hhi1. rewrite Hd2 in Hlo2. change (53 - 1) with 52 in Hlo2.
  assert (H2s : 0 < 2 ^ s) by (apply Z.pow_pos_nonneg; lia).
  assert (Hq0 : 0 <= q).
  { rewrite Hq. apply Z.div_pos; [|lia]. rewrite Hm'. lia. }
  assert (Hqs : q < 2 ^ (s + 1)).
  { rewrite Hq. apply Z.div_lt_upper_bound; [lia|].
    rewrite Hm', Z.pow_add_r by lia. change (2 ^ 1) with 2.
    apply Z.lt_le_trans with (2 ^ 53 * 2 ^ s);
      [apply Z.mul_lt_mono_pos_r; lia|].
    replace (2 ^ 53 * 2 ^ s) with (2 ^ 52 * (2 ^ s * 2)) by lia.
    apply Z.mul_le_mono_nonneg_r; lia. }
  apply binary_round_aux_in_range; [exact Hq0| |unfold e'; lia].
  pose proof (Zdigits2_le q (s + 1) (conj Hq0 Hqs) ltac:(lia)). unfold s in *.
  lia.
Qed.

Lemma is_digit_char d : 0 <= d <= 9 -> is_digit (digit_char d) = true.
Proof.
  intros H.
  assert (d = 0 \/ d = 1 \/ d = 2 \/ d = 3 \/ d = 4 \/ d = 5 \/ d = 6 \/
          d = 7 \/ d = 8 \/ d = 9) as C by lia.
  repeat destruct C as [->|C]; try subst d; reflexivity.
Qed.

Lemma string_of_uint_digits d :
  forallb is_digit (lit (NilEmpty.string_of_uint d)) = true.
Proof. induction d; simpl; auto. Qed.

Lemma str_of_int_digits q :
  0 <= q ->
  forallb is_digit (str_of_int q) = true /\ str_of_int q <> [].
Proof.
  intros Hq. unfold str_of_int.
  destruct q as [|p|p]; [split; [reflexivity|discriminate]| |lia].
  cbn [Z.to_int NilZero.string_of_int]. unfold NilZero.string_of_uint.
  destruct (Pos.to_uint p) eqn:E;
    try (split; [rewrite <- E at 1; try apply string_of_uint_digits|]);
    try (split; [reflexivity|discriminate]);
    try (rewrite <- E; apply string_of_uint_digits);
    simpl; discriminate.
Qed.

Lemma round_half_even_nonneg num den :
  0 <= num -> 0 < den -> 0 <= round_half_even num den.
Proof.
  intros Hn Hd. unfold round_half_even.
  assert (0 <= num / den) by (apply Z.div_pos; lia).
  destruct (2 * (num mod den) ?= den); [destruct (Z.even (num / den))| |]; lia.
Qed.

(** The rounding is to a nearest integer. *)
Lemma round_half_even_nearest num den :
  0 < den -> 2 * Z.abs (num - round_half_even num den * den) <= den.
Proof.
  intros Hd. unfold round_half_even.
  pose proof (Z.div_mod num den ltac:(lia)) as E.
  pose proof (Z.mod_pos_bound num den Hd) as B.
  destruct (Z.compare_spec (2 * (num mod den)) den) as [C|C|C];
    [destruct (Z.even (num / den))| |]; nia.
Qed.

Lemma milli_nonneg m e : 0 <= milli m e.
Proof.
  unfold milli. destruct (0 <=? e) eqn:E.
  - apply Z.leb_le in E. assert (0 < 2 ^ e) by (apply Z.pow_pos_nonneg; lia).
    lia.
  - apply Z.leb_gt in E. apply round_half_even_nonneg; [lia|].
    apply Z.pow_pos_nonneg; lia.
Qed.

Lemma fixed3_is_fixed3 n : 0 <= n -> is_fixed3 (fixed3 n) = true.
Proof.
  intros Hn. unfold fixed3, is_fixed3.
  rewrite !rev_app_distr. cbn [rev app lit list_ascii_of_string].
  assert (Hq : 0 <= n / 1000) by (apply Z.div_pos; lia).
  destruct (str_of_int_digits (n / 1000) Hq) as [Hd Hne].
  rewrite !is_digit_char
    by (match goal with
        | |- 0 <= ?a mod 10 <= 9 => pose proof (Z.mod_pos_bound a 10); lia
        end).
  rewrite forallb_rev, Hd. cbn [andb Ascii.eqb].
  destruct (rev (str_of_int (n / 1000))) eqn:R; [|reflexivity].
  exfalso. apply Hne. rewrite <- (rev_involutive (str_of_int (n / 1000))), R.
  reflexivity.
Qed.

(** A quotient against one of the float scales always prints as digits, a
    point and three digits. *)
Lemma float_quot_fixed3 v K m2 e2 :
  0 < v < overflow_bound ->
  float_of_Z K = S754_finite false m2 e2 ->
  Zdigits2 (Z.pos m2) = 53 -> -51 <= e2 ->
  is_fixed3 (format_3f (float_quot v K)) = true.
Proof.
  intros Hv EK Hd2 He2. unfold float_quot. rewrite EK.
  destruct (float_of_Z_normal v Hv) as (m1 & e1 & E1 & Hd1 & He1).
  rewrite E1.
  destruct (SFdiv_in_range m1 e1 m2 e2 Hd1 He1 Hd2 He2) as [->|(m & e & ->)].
  - reflexivity.
  - cbn [format_3f sign_str app]. apply fixed3_is_fixed3, milli_nonneg.
Qed.
End QuotFacts.


(** ** The scale tables *)

Section HumanizeFacts.

Local Open Scope Z_scope.

Lemma int_to_float_ok v :
  0 < v < overflow_bound -> int_to_float v = Ok (float_of_Z v).
Proof.
  intros H. destruct (float_of_Z_finite v H) as (m & e & E).
  unfold int_to_float. rewrite E. reflexivity.
Qed.

Lemma leb_scaled a b c : 0 < c -> (a * c <=? b * c) = (a <=? b).
Proof.
  intros Hc. destruct (Z.leb_spec a b) as [H|H].
  - apply Z.leb_le. apply Z.mul_le_mono_nonneg_r; lia.
  - apply Z.leb_gt. apply Z.mul_lt_mono_pos_r; lia.
Qed.

(** A scale that is an integer below [2^53] is compared as that integer. *)
Lemma num_ge_float K m k v :
  float_of_Z K = S754_finite false m (Z.neg k) ->
  Z.pos m = K * 2 ^ Z.pos k ->
  num_ge v (NFloat (float_of_Z K)) = (K <=? v).
Proof.
  intros E Hm. cbn [num_ge]. rewrite E. unfold int_ge_float.
  cbn [cond_Zopp Z.leb Z.compare Z.opp]. rewrite Hm.
  apply leb_scaled. apply Z.pow_pos_nonneg; lia.
Qed.

Lemma humanize_step_float u K m k rest v fb :
  float_of_Z K = S754_finite false m (Z.neg k) ->
  Z.pos m = K * 2 ^ Z.pos k ->
  0 < K ->
  v < overflow_bound ->
  humanize ((Fmt3f u, NFloat (float_of_Z K)) :: rest) v fb =
  if K <=? v then Ok (format_3f (float_quot v K) ++ u)
  else humanize rest v fb.
Proof.
  intros E Hm HK Hv. cbn [humanize]. rewrite (num_ge_float K m k v E Hm).
  destruct (Z.leb_spec K v) as [H|H]; [|reflexivity].
  cbn [num_div]. rewrite int_to_float_ok by lia. cbn [bind].
  unfold float_div, float_quot. rewrite E. reflexivity.
Qed.

Lemma humanize_step_int u rest v fb :
  humanize ((FmtD u, NInt 1) :: rest) v fb =
  if 1 <=? v then Ok (str_of_int v ++ u) else humanize rest v fb.
Proof.
  cbn [humanize num_ge]. destruct (1 <=? v); [|reflexivity].
  cbn [num_div Z.eqb bind format]. rewrite Z.div_1_r. reflexivity.
Qed.

Lemma us_table_scales :
  us_table =
  [ (Fmt3f (lit "h"), NFloat (float_of_Z 3600000000));
    (Fmt3f (lit "m"), NFloat (float_of_Z 60000000));
    (Fmt3f (lit "s"), NFloat (float_of_Z 1000000));
    (Fmt3f (lit "ms"), NFloat (float_of_Z 1000));
    (FmtD (lit "us"), NInt 1) ].
Proof. vm_compute. reflexivity. Qed.

(** The tests of [humanize_us], largest scale first. *)
Lemma humanize_us_chain v :
  v < overflow_bound ->
  humanize_us v =
  if 3600000000 <=? v
  then Ok (format_3f (float_quot v 3600000000) ++ lit "h")
  else if 60000000 <=? v
  then Ok (format_3f (float_quot v 60000000) ++ lit "m")
  else if 1000000 <=? v
  then Ok (format_3f (float_quot v 1000000) ++ lit "s")
  else if 1000 <=? v
  then Ok (format_3f (float_quot v 1000) ++ lit "ms")
  else if 1 <=? v then Ok (str_of_int v ++ lit "us")
  else Ok (lit "0us").
Proof.
  intros Hv. unfold humanize_us. rewrite us_table_scales.
  rewrite (humanize_step_float (lit "h") 3600000000 7549747200000000 21)
    by (try exact Hv; try lia; vm_compute; reflexivity).
  rewrite (humanize_step_float (lit "m") 60000000 8053063680000000 27)
    by (try exact Hv; try lia; vm_compute; reflexivity).
  rewrite (humanize_step_float (lit "s") 1000000 8589934592000000 33)
    by (try exact Hv; try lia; vm_compute; reflexivity).
  rewrite (humanize_step_float (lit "ms") 1000 8796093022208000 43)
    by (try exact Hv; try lia; vm_compute; reflexivity).
  rewrite humanize_step_int. reflexivity.
Qed.

Lemma count_table_scales :
  count_table =
  [ (Fmt3f (lit "G"), NFloat (float_of_Z 1073741824));
    (Fmt3f (lit "M"), NFloat (float_of_Z 1048576));
    (Fmt3f (lit "K"), NFloat (float_of_Z 1024));
    (FmtD [], NInt 1) ].
Proof. vm_compute. reflexivity. Qed.

Lemma humanize_count_chain v :
  v < overflow_bound ->
  humanize_count v =
  if 1073741824 <=? v
  then Ok (format_3f (float_quot v 1073741824) ++ lit "G")
  else if 1048576 <=? v
  then Ok (format_3f (float_quot v 1048576) ++ lit "M")
  else if 1024 <=? v
  then Ok (format_3f (float_quot v 1024) ++ lit "K")
  else if 1 <=? v then Ok (str_of_int v ++ [])
  else Ok (lit "0").
Proof.
  intros Hv. unfold humanize_count. rewrite count_table_scales.
  rewrite (humanize_step_float (lit "G") 1073741824 4503599627370496 22)
    by (try exact Hv; try lia; vm_compute; reflexivity).
  rewrite (humanize_step_float (lit "M") 1048576 4503599627370496 32)
    by (try exact Hv; try lia; vm_compute; reflexivity).
  rewrite (humanize_step_float (lit "K") 1024 4503599627370496 42)
    by (try exact Hv; try lia; vm_compute; reflexivity).
  rewrite humanize_step_int. reflexivity.
Qed.

Lemma round_nearest_even_up mrs :
  shr_r mrs = true -> Z.odd (shr_m mrs) = true ->
  round_nearest_even (shr_m mrs) (loc_of_shr_record mrs) = shr_m mrs + 1.
Proof.
  destruct mrs as [m r s]. cbn [shr_r shr_m]. intros -> Hodd.
  destruct s; cbn [loc_of_shr_record round_nearest_even]; [reflexivity|].
  rewrite <- Z.negb_odd, Hodd. reflexivity.
Qed.

(** From [2^1024 - 2^970] on the conversion rounds to the infinity. *)
Lemma float_of_Z_infinite v :
  2 ^ 1024 - 2 ^ 970 <= v -> float_of_Z v = S754_infinity false.
Proof.
  intros Hv. destruct v as [|m|m]; try (exfalso; vm_compute in Hv; auto; fail).
  unfold float_of_Z, binary_normalize, binary_round.
  pose proof (digits2_bounds m) as Hd.
  set (d := Z.pos (digits2_pos m)) in *.
  assert (Hd1 : 1024 <= d).
  { destruct (Z_le_gt_dec 1024 d) as [H|H]; [exact H|].
    assert (2 ^ d <= 2 ^ 1023) by (apply Z.pow_le_mono_r; lia). lia. }
  change (fexp prec emax (d + 0)) with (Z.max (d + 0 - 53) (-1074)).
  replace (Z.max (d + 0 - 53) (-1074)) with (d - 53) by lia.
  unfold shl_align. destruct (d - 53 - 0) as [|n|n] eqn:En; try lia.
  unfold binary_round_aux.
  assert (Hn1 : fexp prec emax (Zdigits2 (Z.pos m) + 0) - 0 = d - 53).
  { cbn [Zdigits2]. fold d.
    change (fexp prec emax (d + 0)) with (Z.max (d + 0 - 53) (-1074)). lia. }
  destruct (shr_fexp_shift (Z.pos m) 0 ltac:(lia) ltac:(lia))
    as (mrs' & E1 & Hm1 & Hr1).
  rewrite E1.
  replace (fexp prec emax (Zdigits2 (Z.pos m) + 0)) with (d - 53) by lia.
  rewrite Hn1 in Hm1, Hr1.
  set (q := shr_m mrs') in *.
  assert (Hq : 2 ^ 52 <= q < 2 ^ 53).
  { rewrite Hm1. split.
    - apply Z.div_le_lower_bound; [apply Z.pow_pos_nonneg; lia|].
      rewrite <- pow2_split by lia.
      replace (d - 53 + 52) with (d - 1) by lia. lia.
    - apply Z.div_lt_upper_bound; [apply Z.pow_pos_nonneg; lia|].
      rewrite <- pow2_split by lia.
      replace (d - 53 + 53) with d by lia. lia. }
  pose proof (round_nearest_even_bounds q (loc_of_shr_record mrs')) as Hm'.
  assert (Hup : d = 1024 ->
                round_nearest_even q (loc_of_shr_record mrs') = 2 ^ 53).
  { intros Ed. rewrite Ed in Hm1, Hr1, Hd.
    change (1024 - 53) with 971 in Hm1. change (1024 - 53 - 1) with 970 in Hr1.
    change (1024 - 1) with 1023 in Hd.
    assert (Eq : q = 2 ^ 53 - 1).
    { apply Z.le_antisymm; [lia|]. rewrite Hm1.
      apply Z.div_le_lower_bound; lia. }
    assert (E : Z.pos m / 2 ^ 970 = 2 ^ 54 - 1).
    { apply Z.le_antisymm.
      - apply Z.lt_succ_r. apply Z.div_lt_upper_bound; lia.
      - apply Z.div_le_lower_bound; lia. }
    rewrite E in Hr1. change (Z.odd (2 ^ 54 - 1)) with true in Hr1.
    unfold q in *. rewrite round_nearest_even_up; [lia|exact Hr1|].
    rewrite Eq. reflexivity. }
  set (m' := round_nearest_even q (loc_of_shr_record mrs')) in *.
  destruct (Z_lt_le_dec m' (2 ^ 53)) as [Hno|Hcarry].
  - assert (Hd2 : 1025 <= d).
    { destruct (Z.eq_dec d 1024) as [E|E]; [specialize (Hup E); lia|lia]. }
    assert (Hdig : Zdigits2 m' = 53).
    { apply Zdigits2_unique; [|lia]. change (53 - 1) with 52. lia. }
    rewrite shr_fexp_keep.
    2:{ rewrite Hdig.
        change (fexp prec emax (53 + (d - 53)))
          with (Z.max (53 + (d - 53) - 53) (-1074)). lia. }
    cbn [shr_record_of_loc shr_m].
    destruct m' as [|p'|p'] eqn:Em'; try lia.
    replace (d - 53 <=? emax - prec) with false
      by (symmetry; apply Z.leb_gt; unfold emax, prec; lia).
    reflexivity.
  - assert (Em' : m' = 2 ^ 53) by lia.
    assert (Hdig : Zdigits2 m' = 54).
    { apply Zdigits2_unique; [|lia]. rewrite Em'.
      change (54 - 1) with 53. lia. }
    assert (Hn2 : fexp prec emax (Zdigits2 m' + (d - 53)) = d - 52).
    { rewrite Hdig.
      change (fexp prec emax (54 + (d - 53)))
        with (Z.max (54 + (d - 53) - 53) (-1074)). lia. }
    destruct (shr_fexp_shift m' (d - 53) ltac:(lia) ltac:(lia))
      as (mrs'' & E2 & Hm2 & _).
    rewrite E2, Hm2, Hn2, Em'.
    replace (d - 52 - (d - 53)) with 1 by lia.
    change (2 ^ 53 / 2 ^ 1) with (Z.pos (2 ^ 52)).
    cbv iota.
    replace (d - 52 <=? emax - prec) with false
      by (symmetry; apply Z.leb_gt; unfold emax, prec; lia).
    reflexivity.
Qed.

Lemma humanize_us_too_large v :
  overflow_bound <= v -> humanize_us v = Raise OverflowError.
Proof.
  intros Hv. unfold humanize_us. rewrite us_table_scales. cbn [humanize].
  rewrite (num_ge_float 3600000000 7549747200000000 21)
    by (vm_compute; reflexivity).
  assert (Hb : 3600000000 <= overflow_bound) by (vm_compute; congruence).
  replace (3600000000 <=? v) with true by (symmetry; apply Z.leb_le; lia).
  cbn [num_div]. unfold int_to_float.
  rewrite (float_of_Z_infinite v Hv). reflexivity.
Qed.

Lemma humanize_count_too_large v :
  overflow_bound <= v -> humanize_count v = Raise OverflowError.
Proof.
  intros Hv. unfold humanize_count. rewrite count_table_scales.
  cbn [humanize].
  rewrite (num_ge_float 1073741824 4503599627370496 22)
    by (vm_compute; reflexivity).
  assert (Hb : 1073741824 <= overflow_bound) by (vm_compute; congruence).
  replace (1073741824 <=? v) with true by (symmetry; apply Z.leb_le; lia).
  cbn [num_div]. unfold int_to_float.
  rewrite (float_of_Z_infinite v Hv). reflexivity.
Qed.

End HumanizeFacts.

(** ** Claims on unit formatting *)

Section HumanizeClaims.

Local Open Scope Z_scope.

Lemma us_scales_largest v :
  0 < v -> exists s, largest_scale us_scales v s.
Proof.
  intros Hv. unfold largest_scale, us_scales.
  destruct (Z_le_gt_dec 3600000000 v);
    [exists 3600000000; simpl; intuition lia|].
  destruct (Z_le_gt_dec 60000000 v);
    [exists 60000000; simpl; intuition lia|].
  destruct (Z_le_gt_dec 1000000 v);
    [exists 1000000; simpl; intuition lia|].
  destruct (Z_le_gt_dec 1000 v);
    [exists 1000; simpl; intuition lia|].
  exists 1; simpl; intuition lia.
Qed.

Lemma count_scales_largest v :
  0 < v -> exists s, largest_scale count_scales v s.
Proof.
  intros Hv. unfold largest_scale, count_scales.
  change (2 ^ 30) with 1073741824. change (2 ^ 20) with 1048576.
  change (2 ^ 10) with 1024.
  destruct (Z_le_gt_dec 1073741824 v);
    [exists 1073741824; simpl; intuition lia|].
  destruct (Z_le_gt_dec 1048576 v);
    [exists 1048576; simpl; intuition lia|].
  destruct (Z_le_gt_dec 1024 v);
    [exists 1024; simpl; intuition lia|].
  exists 1; simpl; intuition lia.
Qed.

Lemma humanize_us_at_scale v s :
  v < overflow_bound ->
  largest_scale us_scales v s ->
  humanize_us v = Ok (scaled_text us_unit s v).
Proof.
  intros Hv (Hin & Hle & Hmax). rewrite (humanize_us_chain v Hv).
  pose proof (Hmax 3600000000 ltac:(simpl; auto)) as H1.
  pose proof (Hmax 60000000 ltac:(simpl; auto)) as H2.
  pose proof (Hmax 1000000 ltac:(simpl; auto 6)) as H3.
  pose proof (Hmax 1000 ltac:(simpl; auto 6)) as H4.
  simpl in Hin.
  destruct Hin as [<-|[<-|[<-|[<-|[<-|[]]]]]];
    repeat match goal with
           | |- context [?a <=? v] =>
               destruct (Z.leb_spec a v); try lia
           end; reflexivity.
Qed.

Lemma humanize_count_at_scale v s :
  v < overflow_bound ->
  largest_scale count_scales v s ->
  humanize_count v = Ok (scaled_text count_unit s v).
Proof.
  intros Hv (Hin & Hle & Hmax). rewrite (humanize_count_chain v Hv).
  unfold count_scales in *.
  change (2 ^ 30) with 1073741824 in *. change (2 ^ 20) with 1048576 in *.
  change (2 ^ 10) with 1024 in *.
  pose proof (Hmax 1073741824 ltac:(simpl; auto)) as H1.
  pose proof (Hmax 1048576 ltac:(simpl; auto)) as H2.
  pose proof (Hmax 1024 ltac:(simpl; auto 6)) as H3.
  simpl in Hin.
  destruct Hin as [<-|[<-|[<-|[<-|[]]]]];
    repeat match goal with
           | |- context [?a <=? v] =>
               destruct (Z.leb_spec a v); try lia
           end; reflexivity.
Qed.

Lemma us_quot_fixed3 v s :
  0 < v < overflow_bound ->
  largest_scale us_scales v s -> s <> 1 ->
  is_fixed3 (format_3f (float_quot v s)) = true.
Proof.
  intros Hv (Hin & _) Hs1. simpl in Hin.
  destruct Hin as [<-|[<-|[<-|[<-|[<-|[]]]]]]; try lia;
    eapply float_quot_fixed3; try exact Hv;
    try (vm_compute; reflexivity); lia.
Qed.

Lemma count_quot_fixed3 v s :
  0 < v < overflow_bound ->
  largest_scale count_scales v s -> s <> 1 ->
  is_fixed3 (format_3f (float_quot v s)) = true.
Proof.
  intros Hv (Hin & _) Hs1. simpl in Hin.
  destruct Hin as [<-|[<-|[<-|[<-|[]]]]]; try lia;
    eapply float_quot_fixed3; try exact Hv;
    try (vm_compute; reflexivity); lia.
Qed.

(** C6, as written, fails: the conversion of a large enough count to a
    float overflows, so the scale is selected but nothing is formatted.  The
    least such count is [2^1024 - 2^970]. *)
Lemma humanize_us_overflow :
  humanize_us (2 ^ 1024) = Raise OverflowError
  /\ humanize_us (2 ^ 1024 - 2 ^ 970) = Raise OverflowError.
Proof. split; vm_compute; reflexivity. Qed.

(** C6 (amended): for every microsecond count [v >= 0], [humanize_us]
    raises OverflowError when [v >= 2^1024 - 2^970], and below that bound
    answers ["0us"] at 0 and otherwise formats [v] at the largest of the
    scales 3600e6, 60e6, 1e6, 1e3 and 1 that [v] reaches: three decimals of
    the float quotient, or the integer itself at scale 1, followed by the
    unit.  The four examples of the specification hold. *)
Theorem humanize_us_largest_scale (v : Z) :
  0 <= v ->
  (overflow_bound <= v -> humanize_us v = Raise OverflowError)
  /\ (v < overflow_bound ->
      (v = 0 -> humanize_us v = Ok (lit "0us"))
      /\ (forall s, largest_scale us_scales v s ->
                    humanize_us v = Ok (scaled_text us_unit s v))
      /\ (forall s, largest_scale us_scales v s -> s <> 1 ->
                    is_fixed3 (format_3f (float_quot v s)) = true)
      /\ (0 < v -> exists s, largest_scale us_scales v s))
  /\ humanize_us 3661000000 = Ok (lit "1.017h")
  /\ humanize_us 1000 = Ok (lit "1.000ms")
  /\ humanize_us 999 = Ok (lit "999us")
  /\ humanize_us 0 = Ok (lit "0us").
Proof.
  intros H0. split; [apply humanize_us_too_large|].
  split; [|repeat split; vm_compute; reflexivity].
  intros Hv. split; [intros ->; vm_compute; reflexivity|].
  split; [intros s Hs; apply humanize_us_at_scale; assumption|].
  split; [intros s Hs Hs1; apply us_quot_fixed3; [|exact Hs|exact Hs1]|].
  { destruct Hs as (Hin & Hle & _). unfold us_scales in Hin. simpl in Hin.
    intuition lia. }
  apply us_scales_largest.
Qed.

Lemma humanize_us_largest_scale_witness :
  humanize_us 1500 = Ok (lit "1.500ms").
Proof.
  assert (H0 : 0 <= 1500) by lia.
  assert (Hv : 1500 < overflow_bound) by (vm_compute; reflexivity).
  destruct (humanize_us_largest_scale 1500 H0) as (_ & H & _).
  destruct (H Hv) as (_ & Hs & _).
  rewrite (Hs 1000).
  - vm_compute. reflexivity.
  - unfold largest_scale, us_scales. simpl. intuition lia.
Defined.

(** C9, as written, fails in the same way. *)
Lemma humanize_count_overflow :
  humanize_count (2 ^ 1024) = Raise OverflowError
  /\ humanize_count (2 ^ 1024 - 2 ^ 970) = Raise OverflowError.
Proof. split; vm_compute; reflexivity. Qed.

(** C9 (amended): for every count [c >= 0], [humanize_count] raises
    OverflowError when [c >= 2^1024 - 2^970], and below that bound answers
    ["0"] at 0 and otherwise formats [c] at the largest of the scales 2^30,
    2^20, 2^10 and 1 that [c] reaches: three decimals of the float quotient
    followed by G, M or K, or the integer itself at scale 1.  The two
    examples of the specification hold. *)
Theorem humanize_count_largest_scale (c : Z) :
  0 <= c ->
  (overflow_bound <= c -> humanize_count c = Raise OverflowError)
  /\ (c < overflow_bound ->
      (c = 0 -> humanize_count c = Ok (lit "0"))
      /\ (forall s, largest_scale count_scales c s ->
                    humanize_count c = Ok (scaled_text count_unit s c))
      /\ (forall s, largest_scale count_scales c s -> s <> 1 ->
                    is_fixed3 (format_3f (float_quot c s)) = true)
      /\ (0 < c -> exists s, largest_scale count_scales c s))
  /\ humanize_count 1024 = Ok (lit "1.000K")
  /\ humanize_count 0 = Ok (lit "0").
Proof.
  intros H0. split; [apply humanize_count_too_large|].
  split; [|repeat split; vm_compute; reflexivity].
  intros Hv. split; [intros ->; vm_compute; reflexivity|].
  split; [intros s Hs; apply humanize_count_at_scale; assumption|].
  split; [intros s Hs Hs1; apply count_quot_fixed3; [|exact Hs|exact Hs1]|].
  { destruct Hs as (Hin & Hle & _). unfold count_scales in Hin. simpl in Hin.
    intuition lia. }
  apply count_scales_largest.
Qed.

Lemma humanize_count_largest_scale_witness :
  humanize_count 1500000 = Ok (lit "1.431M").
Proof.
  assert (H0 : 0 <= 1500000) by lia.
  assert (Hv : 1500000 < overflow_bound) by (vm_compute; reflexivity).
  destruct (humanize_count_largest_scale 1500000 H0) as (_ & H & _).
  destruct (H Hv) as (_ & Hs & _).
  rewrite (Hs 1048576).
  - vm_compute. reflexivity.
  - unfold largest_scale, count_scales. simpl. intuition lia.
Defined.

(** C10: for every negative value both functions fall through every scale
    test and return their fallback text, ["0us"] and ["0"]. *)
Theorem humanize_negative (v : Z) :
  v < 0 ->
  humanize_us v = Ok (lit "0us") /\ humanize_count v = Ok (lit "0").
Proof.
  intros Hv.
  assert (Hb : v < overflow_bound).
  { apply Z.lt_trans with 0; [exact Hv|]. vm_compute. reflexivity. }
  rewrite (humanize_us_chain v Hb), (humanize_count_chain v Hb).
  repeat match goal with
         | |- context [?a <=? v] => destruct (Z.leb_spec a v); try lia
         end.
  split; reflexivity.
Qed.

Lemma humanize_negative_witness :
  humanize_us (-5) = Ok (lit "0us") /\ humanize_count (-5) = Ok (lit "0").
Proof. apply (humanize_negative (-5)). reflexivity. Defined.

End HumanizeClaims.

(** ** Claims on the normalizer *)

(** The module with the missing import added. *)
Lemma re_bound : load_global ("re"%string :: module_globals) "re" = Ok tt.
Proof. reflexivity. Qed.

(** Where [re] is bound, normalizing a normalized string changes nothing. *)
Lemma CleanQuery_twice g q o :
  CleanQuery g q = Ok o -> CleanQuery g o = Ok o.
Proof.
  intros H.
  assert (Hre : load_global g "re" = Ok tt).
  { unfold CleanQuery in H. destruct (load_global g "re") as [[]|e];
      [reflexivity|discriminate]. }
  rewrite (CleanQuery_plain g q Hre) in H. injection H as <-.
  rewrite (CleanQuery_plain g _ Hre), clean_plain_idem. reflexivity.
Qed.

(** C1, as written, fails.  The module never imports [re], so the call of
    the claim's own example raises [NameError].  With [re] bound, only the
    space character counts as whitespace, so a run of tabs is neither
    collapsed nor trimmed; and a block comment that holds [--] loses
    everything from there on, its closing marker included. *)
Lemma CleanQuery_whitespace_and_block_comment :
  CleanQuery module_globals (lit "SELECT /* keep */ 1")
  = Raise (NameError "re")
  /\ CleanQuery ("re"%string :: module_globals)
                ([TAB] ++ lit "a" ++ [TAB; TAB] ++ lit "b" ++ [TAB])
     = Ok ([TAB] ++ lit "a" ++ [TAB; TAB] ++ lit "b" ++ [TAB])
  /\ has_ws_run ([TAB] ++ lit "a" ++ [TAB; TAB] ++ lit "b" ++ [TAB]) = true
  /\ has_ws_end ([TAB] ++ lit "a" ++ [TAB; TAB] ++ lit "b" ++ [TAB]) = true
  /\ CleanQuery ("re"%string :: module_globals)
                (lit "SELECT /* a -- b */ 1")
     = Ok (lit "SELECT /* a").
Proof. repeat split; vm_compute; reflexivity. Qed.

(** C1 (amended): in a module where the name [re] is bound, for every query
    string [CleanQuery] cuts each line at its first [--], joins the lines
    with one space, turns every run of space characters into one space and
    removes the spaces at both ends; tabs and other whitespace are kept.
    Block comment markers get no treatment of their own: in a query without
    [--] only spaces and newlines change.  The two examples of the
    specification hold. *)
Theorem CleanQuery_normalizes (g : list string) (q : str) :
  load_global g "re" = Ok tt ->
  CleanQuery g q = Ok (normalize_spec q)
  /\ (has_dd q = false -> unblank (normalize_spec q) = unblank q)
  /\ CleanQuery g (lit "SELECT 1 -- comment" ++ [LF] ++ lit "  FROM  dual")
     = Ok (lit "SELECT 1 FROM dual")
  /\ CleanQuery g (lit "SELECT /* keep */ 1")
     = Ok (lit "SELECT /* keep */ 1").
Proof.
  intros Hre.
  split; [rewrite (CleanQuery_plain g q Hre), clean_plain_normalize_spec;
          reflexivity|].
  split; [rewrite <- clean_plain_normalize_spec;
          apply clean_plain_layout_only|].
  split; rewrite (CleanQuery_plain g _ Hre); vm_compute; reflexivity.
Qed.

Lemma CleanQuery_normalizes_witness :
  CleanQuery ("re"%string :: module_globals)
             (lit "SELECT /* keep */" ++ [LF] ++ lit "  1 -- one")
  = Ok (normalize_spec (lit "SELECT /* keep */" ++ [LF] ++ lit "  1 -- one")).
Proof.
  apply (proj1 (CleanQuery_normalizes
                  ("re"%string :: module_globals)
                  (lit "SELECT /* keep */" ++ [LF] ++ lit "  1 -- one")
                  re_bound)).
Defined.

(** C2 fails on the module as it stands: [re] is never imported, so every
    call raises [NameError] and nothing is returned that could be normalized
    again. *)
Theorem CleanQuery_raises_NameError (q : str) :
  CleanQuery module_globals q = Raise (NameError "re").
Proof. reflexivity. Qed.

(** X1: the body of the function is idempotent: in a module that binds [re],
    every call returns, and a second call on the result returns it
    unchanged. *)
Theorem CleanQuery_idempotent_where_re_is_bound (g : list string) (s : str) :
  load_global g "re" = Ok tt ->
  exists o, CleanQuery g s = Ok o /\ CleanQuery g o = Ok o.
Proof.
  intros Hre. exists (clean_plain s).
  split; [apply CleanQuery_plain, Hre|].
  apply (CleanQuery_twice g s). apply CleanQuery_plain, Hre.
Qed.

Lemma CleanQuery_idempotent_where_re_is_bound_witness :
  exists o,
    CleanQuery ("re"%string :: module_globals) (lit "  a  --  b ") = Ok o
    /\ CleanQuery ("re"%string :: module_globals) o = Ok o.
Proof.
  apply (CleanQuery_idempotent_where_re_is_bound
           ("re"%string :: module_globals) (lit "  a  --  b ") re_bound).
Defined.

(** ** Claims on the connection descriptor *)

(** C4, as written, fails: nothing checks the sign of the port, so a
    negative number, or the text of zero, makes a descriptor. *)
Lemma DatabaseSpec_nonpositive_port :
  DatabaseSpec_init None (Some (VInt (-1))) None None None None
  = Ok {| host := VStr (lit "localhost"); port := -1;
          user := VStr (lit "root"); password := VStr [];
          database := VStr []; driver := VStr (lit "mysql") |}
  /\ DatabaseSpec_init None (Some (VStr (lit "0"))) None None None None
     = Ok {| host := VStr (lit "localhost"); port := 0;
             user := VStr (lit "root"); password := VStr [];
             database := VStr []; driver := VStr (lit "mysql") |}.
Proof. split; reflexivity. Qed.

(** C4 (amended): a port that is given and truthy is coerced with [int];
    when the coercion fails the construction fails with that error (a
    non-numeric string raises the [ValueError] of [int]), and otherwise the
    descriptor holds exactly the coerced integer, whatever its sign.  A port
    left out or falsy gives 3306. *)
Theorem DatabaseSpec_port (h p u pw db dr : option value) :
  match p with
  | Some v =>
      if truthy v then
        match py_int v with
        | Ok n =>
            exists d, DatabaseSpec_init h p u pw db dr = Ok d /\ port d = n
        | Raise e => DatabaseSpec_init h p u pw db dr = Raise e
        end
      else
        exists d,
          DatabaseSpec_init h p u pw db dr = Ok d /\ port d = 3306%Z
  | None =>
      exists d, DatabaseSpec_init h p u pw db dr = Ok d /\ port d = 3306%Z
  end
  /\ DatabaseSpec_init h (Some (VStr (lit "abc"))) u pw db dr
     = Raise (ValueError_int_literal (lit "abc")).
Proof.
  split; [|reflexivity].
  unfold DatabaseSpec_init. destruct p as [v|]; cbn [arg].
  - destruct (truthy v).
    + destruct (py_int v); cbn [bind];
        [eexists; split; reflexivity|reflexivity].
    + cbn [bind]. eexists; split; reflexivity.
  - cbn [truthy py_int bind]. eexists; split; reflexivity.
Qed.

(** C8: when every argument is left out or falsy the descriptor is exactly
    the documented defaults; in every descriptor an argument left out or
    falsy is replaced by its default, and no field is [None]. *)
Theorem DatabaseSpec_defaults (h p u pw db dr : option value) :
  (empty h = true -> empty p = true -> empty u = true ->
   empty pw = true -> empty db = true -> empty dr = true ->
   DatabaseSpec_init h p u pw db dr = Ok defaults)
  /\ (forall d,
        DatabaseSpec_init h p u pw db dr = Ok d ->
        (empty h = true -> host d = host defaults)
        /\ (empty p = true -> port d = port defaults)
        /\ (empty u = true -> user d = user defaults)
        /\ (empty pw = true -> password d = password defaults)
        /\ (empty db = true -> database d = database defaults)
        /\ (empty dr = true -> driver d = driver defaults)
        /\ host d <> VNone /\ user d <> VNone /\ password d <> VNone
        /\ database d <> VNone /\ driver d <> VNone).
Proof.
  assert (Hdef : forall a dflt,
             truthy dflt = true \/ dflt = VStr [] ->
             empty a = true ->
             (if truthy (arg a dflt) then arg a dflt else dflt) = dflt).
  { intros [v|] dflt Hd Ha; cbn [arg empty] in *.
    - apply negb_true_iff in Ha. rewrite Ha. reflexivity.
    - destruct Hd as [->| ->]; reflexivity. }
  assert (Hnone : forall a dflt,
             dflt <> VNone ->
             (if truthy (arg a dflt) then arg a dflt else dflt) <> VNone).
  { intros a dflt Hd. destruct (truthy (arg a dflt)) eqn:E; [|exact Hd].
    intros H. rewrite H in E. discriminate. }
  assert (Hport : empty p = true ->
                  (if truthy (arg p (VInt 3306)) then py_int (arg p (VInt 3306))
                   else Ok 3306%Z) = Ok 3306%Z).
  { destruct p as [v|]; cbn [arg empty]; [|reflexivity].
    intros Ha. apply negb_true_iff in Ha. rewrite Ha. reflexivity. }
  split.
  - intros Hh Hp Hu Hpw Hdb Hdr. unfold DatabaseSpec_init.
    rewrite (Hport Hp). cbn [bind]. unfold defaults.
    rewrite !Hdef by (auto; left; reflexivity). reflexivity.
  - intros d Hd. unfold DatabaseSpec_init in Hd.
    destruct (if truthy (arg p (VInt 3306)) then py_int (arg p (VInt 3306))
              else Ok 3306%Z) as [n|e] eqn:En; cbn [bind] in Hd;
      [|discriminate].
    injection Hd as <-. cbn [host port user password database driver defaults].
    repeat split;
      try (intros Ha; apply Hdef; [auto; left; reflexivity|exact Ha]);
      try (apply Hnone; discriminate).
    intros Hp. specialize (Hport Hp). congruence.
Qed.

Lemma DatabaseSpec_defaults_witness :
  DatabaseSpec_init (Some (VStr [])) (Some (VInt 0)) None (Some VNone)
                    (Some (VStr [])) None
  = Ok defaults.
Proof.
  apply (proj1 (DatabaseSpec_defaults (Some (VStr [])) (Some (VInt 0)) None
                                      (Some VNone) (Some (VStr [])) None));
    reflexivity.
Defined.

(** ** Claims on the driver *)

Lemma int_of_str_raise s e :
  int_of_str s = Raise e -> e = ValueError_int_literal s.
Proof.
  unfold int_of_str.
  destruct (match drop_while_end is_space (drop_while is_space s) with
            | [] => _ | c :: t => _ end) as [neg ds].
  destruct ds as [|c ds]; [congruence|].
  destruct (digits_val 0 (c :: ds)); congruence.
Qed.

Lemma raise_not_numeric s e : int_of_str s = Raise e -> ~ numeric s.
Proof. intros E [n Hn]. congruence. Qed.

(** A row is refused exactly when it is malformed, with the error of its
    first fault. *)
Lemma QueryStatistic_init_raise row e :
  QueryStatistic_init row = Raise e -> row_error row e.
Proof.
  destruct row as [|a [|b [|c [|d [|x row]]]]]; cbn [QueryStatistic_init];
    try (intros H; injection H as <-; left; split;
         [cbn [List.length]; lia|reflexivity]).
  intros H. right. split; [reflexivity|]. cbn [tl].
  destruct (int_of_str b) as [nb|eb] eqn:Eb; cbn [bind] in H.
  - destruct (int_of_str c) as [nc|ec] eqn:Ec; cbn [bind] in H.
    + destruct (int_of_str d) as [nd|ed] eqn:Ed; cbn [bind] in H;
        [discriminate|].
      injection H as <-. exists d. rewrite (int_of_str_raise d ed Ed).
      split; [simpl; auto|]. split; [eapply raise_not_numeric; eauto|auto].
    + injection H as <-. exists c. rewrite (int_of_str_raise c ec Ec).
      split; [simpl; auto|]. split; [eapply raise_not_numeric; eauto|auto].
  - injection H as <-. exists b. rewrite (int_of_str_raise b eb Eb).
    split; [simpl; auto|]. split; [eapply raise_not_numeric; eauto|auto].
Qed.

Lemma QueryStatistic_init_malformed row :
  malformed row -> exists e, QueryStatistic_init row = Raise e.
Proof.
  intros [Hlen|(f & Hin & Hf)].
  - destruct row as [|a [|b [|c [|d [|x row]]]]]; cbn [QueryStatistic_init];
      try (eexists; reflexivity).
    cbn [List.length] in Hlen. lia.
  - destruct row as [|a [|b [|c [|d [|x row]]]]]; cbn [QueryStatistic_init];
      try (eexists; reflexivity).
    destruct (int_of_str b) as [nb|eb] eqn:Eb; cbn [bind];
      [|eexists; reflexivity].
    destruct (int_of_str c) as [nc|ec] eqn:Ec; cbn [bind];
      [|eexists; reflexivity].
    destruct (int_of_str d) as [nd|ed] eqn:Ed; cbn [bind];
      [|eexists; reflexivity].
    exfalso. apply Hf. cbn [tl] in Hin.
    destruct Hin as [<-|[<-|[<-|[]]]]; eexists; eassumption.
Qed.

Lemma QueryStatistic_init_ok row r :
  QueryStatistic_init row = Ok r -> ~ malformed row.
Proof.
  intros H Hm. destruct (QueryStatistic_init_malformed row Hm) as [e He].
  congruence.
Qed.

(** The comprehension stops at the first element that raises. *)
Lemma comprehension_raise {A B : Type} (f : A -> result B) l a e0 :
  In a l -> f a = Raise e0 ->
  exists before bad after e,
    l = before ++ bad :: after
    /\ (forall x, In x before -> exists b, f x = Ok b)
    /\ f bad = Raise e
    /\ comprehension f l = Raise e.
Proof.
  induction l as [|x l IH]; [intros []|].
  intros Hin Ha. cbn [comprehension].
  destruct (f x) as [b|e] eqn:Ex.
  - destruct Hin as [->|Hin]; [congruence|].
    destruct (IH Hin Ha) as (before & bad & after & e & -> & Hb & Hbad & Hc).
    exists (x :: before), bad, after, e. cbn [bind]. rewrite Hc.
    repeat split; auto.
    intros y [<-|Hy]; [eauto|auto].
  - exists [], x, l, e. cbn [bind]. repeat split; auto. intros y [].
Qed.

Lemma comprehension_Forall2 {A B : Type} (f : A -> result B) l bs :
  comprehension f l = Ok bs <-> Forall2 (fun a b => f a = Ok b) l bs.
Proof.
  revert bs. induction l as [|x l IH]; intros bs; cbn [comprehension].
  - split; [intros H; injection H as <-; constructor|].
    intros H; inversion H; reflexivity.
  - destruct (f x) as [b|e] eqn:Ex; cbn [bind].
    + destruct (comprehension f l) as [bs'|e'] eqn:Ec; cbn [bind].
      * split.
        -- intros H; injection H as <-. constructor; [exact Ex|].
           apply IH. reflexivity.
        -- intros H. inversion H as [|? b0 ? bs0 Hb Hbs]; subst.
           apply IH in Hbs. congruence.
      * split; [discriminate|].
        intros H. inversion H as [|? b0 ? bs0 Hb Hbs]; subst.
        apply IH in Hbs. discriminate.
    + split; [discriminate|].
      intros H. inversion H; subst. congruence.
Qed.

Section DriverClaims.

Variable csv_reader : str -> list (list str).
Variable dbbench : str -> list value -> execution.
Variables (statsFile : str) (dbspec : DatabaseSpec) (configFileName : str).
Variable basedir : option str.

(** The descriptor holds strings, as the arguments of a process must be. *)
Hypothesis command_of_strings :
  forallb is_str (run_command statsFile dbspec configFileName basedir) = true.

Lemma debug_line_ok command :
  forallb is_str command = true -> exists t, debug_line command = Ok t.
Proof.
  intros H. unfold debug_line.
  assert (E : exists items, comprehension debug_item command = Ok items).
  { induction command as [|a command IH]; [eexists; reflexivity|].
    simpl in H. apply andb_prop in H as [Ha Hc].
    destruct (IH Hc) as [items Hi]. destruct a; try discriminate.
    cbn [comprehension]. rewrite Hi. unfold debug_item.
    destruct (truthy (VStr s)); eexists; reflexivity. }
  destruct E as [items ->]. eexists. reflexivity.
Qed.

Lemma RunDbbench_exit_zero output stats :
  dbbench statsFile (run_command statsFile dbspec configFileName basedir)
  = Exited 0 output stats ->
  RunDbbench csv_reader dbbench statsFile dbspec configFileName basedir
  = comprehension QueryStatistic_init (csv_reader stats).
Proof.
  intros H. unfold RunDbbench, check_output. cbv zeta.
  fold (run_command statsFile dbspec configFileName basedir).
  destruct (debug_line_ok _ command_of_strings) as [t ->].
  rewrite command_of_strings, H. reflexivity.
Qed.

(** C5: when the process, started on arguments that are strings, exits
    with a non-zero code, the call raises the error that carries that code
    and the captured output, and returns no record. *)
Theorem RunDbbench_nonzero_exit returncode output stats :
  dbbench statsFile (run_command statsFile dbspec configFileName basedir)
  = Exited returncode output stats ->
  returncode <> 0%Z ->
  RunDbbench csv_reader dbbench statsFile dbspec configFileName basedir
  = Raise (CalledProcessError
           returncode
           (run_command statsFile dbspec configFileName basedir) output).
Proof.
  intros H Hcode. unfold RunDbbench, check_output. cbv zeta.
  fold (run_command statsFile dbspec configFileName basedir).
  destruct (debug_line_ok _ command_of_strings) as [t ->].
  rewrite command_of_strings, H. cbn [bind].
  apply Z.eqb_neq in Hcode. rewrite Hcode. reflexivity.
Qed.

(** C3 (amended): when, after an exit with code 0, a row of the result
    file is malformed the call returns no record: it raises the error of the
    first malformed row,
    which is the [TypeError] of a call with the wrong number of arguments
    (it carries that number only) or the [ValueError] of [int] (it carries
    the field that is not numeric). *)
Theorem RunDbbench_malformed_row output stats row :
  dbbench statsFile (run_command statsFile dbspec configFileName basedir)
  = Exited 0 output stats ->
  In row (csv_reader stats) ->
  malformed row ->
  exists before bad after e,
    csv_reader stats = before ++ bad :: after
    /\ (forall r, In r before -> ~ malformed r)
    /\ row_error bad e
    /\ RunDbbench csv_reader dbbench statsFile dbspec configFileName basedir
       = Raise e.
Proof.
  intros H Hin Hbad. rewrite (RunDbbench_exit_zero output stats H).
  destruct (QueryStatistic_init_malformed row Hbad) as [e0 He0].
  destruct (comprehension_raise QueryStatistic_init _ row e0 Hin He0)
    as (before & bad & after & e & Hrows & Hbefore & Hb & Hc).
  exists before, bad, after, e. repeat split; auto.
  - intros r Hr. destruct (Hbefore r Hr) as [b Hb'].
    eapply QueryStatistic_init_ok; eauto.
  - apply QueryStatistic_init_raise. exact Hb.
Qed.

(** C7: after an exit with code 0 the call returns records exactly when
    every row is well formed, and then one record per row, in the order of
    the rows, with the integers the rows spell; the rows [q1,0,500,10] and
    [q2,500,1200,3] give two records in that order. *)
Theorem RunDbbench_row_order output stats :
  dbbench statsFile (run_command statsFile dbspec configFileName basedir)
  = Exited 0 output stats ->
  (forall recs,
      RunDbbench csv_reader dbbench statsFile dbspec configFileName basedir
      = Ok recs
      <-> Forall2 (fun row r => QueryStatistic_init row = Ok r)
                  (csv_reader stats) recs)
  /\ (csv_reader stats
      = [ [lit "q1"; lit "0"; lit "500"; lit "10"];
          [lit "q2"; lit "500"; lit "1200"; lit "3"] ] ->
      RunDbbench csv_reader dbbench statsFile dbspec configFileName basedir
      = Ok [ {| name := lit "q1"; startMicros := 0; elapsedMicros := 500;
                rowsAffected := 10 |};
             {| name := lit "q2"; startMicros := 500;
                elapsedMicros := 1200; rowsAffected := 3 |} ]).
Proof.
  intros H. rewrite (RunDbbench_exit_zero output stats H). split.
  - intros recs. apply comprehension_Forall2.
  - intros ->. reflexivity.
Qed.

End DriverClaims.

(** C3, as written, fails: a row with three fields raises an error that
    names no row, the same for different rows at different places. *)
Lemma RunDbbench_error_names_no_row :
  RunDbbench plain_csv_reader
             (fun _ _ => Exited 0 [] (lit "a,1,2" ++ [LF]))
             (lit "stats.csv") defaults (lit "run.ini") None
  = Raise (TypeError_init_args 4)
  /\ RunDbbench plain_csv_reader
                (fun _ _ => Exited 0 []
                              (lit "q1,0,500,10" ++ [LF] ++ lit "b,7,8"
                                   ++ [LF]))
                (lit "stats.csv") defaults (lit "run.ini") None
     = Raise (TypeError_init_args 4).
Proof. split; vm_compute; reflexivity. Qed.

Lemma RunDbbench_nonzero_exit_witness :
  RunDbbench plain_csv_reader
             (fun _ _ => Exited 2 (lit "connection refused")
                                (lit "q1,0,500,10" ++ [LF]))
             (lit "stats.csv") defaults (lit "conf/run.ini") None
  = Raise (CalledProcessError
             2 (dbbench_command (lit "stats.csv") defaults
                                (lit "conf/run.ini") (lit "conf"))
             (lit "connection refused")).
Proof.
  apply (RunDbbench_nonzero_exit plain_csv_reader
           (fun _ _ => Exited 2 (lit "connection refused")
                              (lit "q1,0,500,10" ++ [LF]))
           (lit "stats.csv") defaults (lit "conf/run.ini") None eq_refl
           2 (lit "connection refused") (lit "q1,0,500,10" ++ [LF])).
  - reflexivity.
  - discriminate.
Defined.

Lemma RunDbbench_malformed_row_witness :
  exists before bad after e,
    plain_csv_reader (lit "q1,0,500,10" ++ [LF] ++ lit "q2,x,1200,3" ++ [LF])
    = before ++ bad :: after
    /\ (forall r, In r before -> ~ malformed r)
    /\ row_error bad e
    /\ RunDbbench plain_csv_reader
                  (fun _ _ =>
                     Exited 0 []
                            (lit "q1,0,500,10" ++ [LF] ++ lit "q2,x,1200,3"
                                 ++ [LF]))
                  (lit "stats.csv") defaults (lit "run.ini") None
       = Raise e.
Proof.
  apply (RunDbbench_malformed_row plain_csv_reader
           (fun _ _ =>
              Exited 0 []
                     (lit "q1,0,500,10" ++ [LF] ++ lit "q2,x,1200,3" ++ [LF]))
           (lit "stats.csv") defaults (lit "run.ini") None eq_refl []
           (lit "q1,0,500,10" ++ [LF] ++ lit "q2,x,1200,3" ++ [LF])
           [lit "q2"; lit "x"; lit "1200"; lit "3"]).
  - reflexivity.
  - vm_compute. right. left. reflexivity.
  - right. exists (lit "x"). split; [simpl; auto|].
    intros [n Hn]. vm_compute in Hn. discriminate.
Defined.

Lemma RunDbbench_row_order_witness :
  RunDbbench plain_csv_reader
             (fun _ _ =>
                Exited 0 []
                       (lit "q1,0,500,10" ++ [LF] ++ lit "q2,500,1200,3"
                            ++ [LF]))
             (lit "stats.csv") defaults (lit "run.ini") None
  = Ok [ {| name := lit "q1"; startMicros := 0; elapsedMicros := 500;
            rowsAffected := 10 |};
         {| name := lit "q2"; startMicros := 500; elapsedMicros := 1200;
            rowsAffected := 3 |} ].
Proof.
  apply (proj2 (RunDbbench_row_order plain_csv_reader
                  (fun _ _ =>
                     Exited 0 []
                            (lit "q1,0,500,10" ++ [LF] ++ lit "q2,500,1200,3"
                                 ++ [LF]))
                  (lit "stats.csv") defaults (lit "run.ini") None eq_refl []
                  (lit "q1,0,500,10" ++ [LF] ++ lit "q2,500,1200,3" ++ [LF])
                  eq_refl)).
  reflexivity.
Defined.

(** * Further properties *)

(** ** The range and the fixed points of the normalizer *)

Lemma drop_while_end_length p s :
  List.length (drop_while_end p s) <= List.length s.
Proof.
  unfold drop_while_end. rewrite length_rev.
  pose proof (drop_while_length p (rev s)) as H. rewrite length_rev in H.
  exact H.
Qed.

Lemma collapse_spaces_length s :
  List.length (collapse_spaces s) <= List.length s.
Proof.
  induction s as [|c s IH]; [reflexivity|].
  cbn [collapse_spaces]. destruct (is_sp c && starts_sp s); simpl; lia.
Qed.

Lemma strip_spaces_length s :
  List.length (strip_spaces s) <= List.length s.
Proof.
  unfold strip_spaces.
  pose proof (drop_while_end_length is_sp (drop_while is_sp s)).
  pose proof (drop_while_length is_sp s). lia.
Qed.

Lemma drop_while_sp_keep s : starts_sp s = false -> drop_while is_sp s = s.
Proof.
  destruct s as [|c s]; [reflexivity|]. cbn [starts_sp drop_while].
  intros ->. reflexivity.
Qed.

Lemma strip_fixed_iff s :
  strip_spaces s = s <-> starts_sp s = false /\ starts_sp (rev s) = false.
Proof.
  split.
  - intros H. split.
    + destruct s as [|c s]; [reflexivity|]. cbn [starts_sp].
      destruct (is_sp c) eqn:Ec; [exfalso|reflexivity].
      assert (L : List.length (strip_spaces (c :: s)) <= List.length s).
      { unfold strip_spaces. cbn [drop_while]. rewrite Ec.
        pose proof (drop_while_end_length is_sp (drop_while is_sp s)).
        pose proof (drop_while_length is_sp s). lia. }
      rewrite H in L. simpl in L. lia.
    + unfold strip_spaces, drop_while_end in H.
      apply (f_equal (@rev ascii)) in H. rewrite rev_involutive in H.
      destruct (rev s) as [|c t] eqn:E; [reflexivity|].
      cbn [starts_sp]. eapply drop_while_head. exact H.
  - intros [H1 H2]. unfold strip_spaces.
    rewrite (drop_while_sp_keep s H1). unfold drop_while_end.
    rewrite (drop_while_sp_keep (rev s) H2). apply rev_involutive.
Qed.

Lemma collapse_fixed_iff s : collapse_spaces s = s <-> has_sp_run s = false.
Proof.
  induction s as [|c s IH]; [split; reflexivity|].
  cbn [collapse_spaces has_sp_run].
  destruct (is_sp c && starts_sp s) eqn:E; cbn [orb].
  - split; [|discriminate]. intros H.
    pose proof (collapse_spaces_length s) as L. rewrite H in L.
    simpl in L. lia.
  - rewrite <- IH. split; [intros H; injection H; auto|intros ->; reflexivity].
Qed.

Lemma clean_plain_normalized q : normalized (clean_plain q) = true.
Proof.
  assert (Hs : strip_spaces (clean_plain q) = clean_plain q).
  { unfold clean_plain. rewrite strip_collapse_comm, strip_spaces_idem.
    reflexivity. }
  assert (Hc : collapse_spaces (clean_plain q) = clean_plain q).
  { unfold clean_plain. apply collapse_spaces_idem. }
  apply strip_fixed_iff in Hs as [H1 H2]. apply collapse_fixed_iff in Hc.
  unfold normalized. rewrite H1, H2, Hc. cbn [negb]. rewrite !andb_true_r.
  unfold clean_plain.
  set (j := join [SP] (map cut_comment (split LF q))).
  assert (Hlf : forallb not_lf j = true)
    by (apply join_not_lf, cut_lines_not_lf).
  assert (Hdd : has_dd j = false) by (apply has_dd_join, cut_lines_no_dd).
  rewrite has_dd_collapse, (has_dd_strip j Hdd). cbn [negb].
  rewrite andb_true_r. apply forallb_collapse. unfold strip_spaces.
  apply forallb_drop_while_end, forallb_drop_while, Hlf.
Qed.

Lemma normalized_fixed s : normalized s = true -> clean_plain s = s.
Proof.
  unfold normalized. intros H.
  apply andb_prop in H as [H H5]. apply andb_prop in H as [H H4].
  apply andb_prop in H as [H H3]. apply andb_prop in H as [H1 H2].
  apply negb_true_iff in H2, H3, H4, H5.
  apply clean_plain_fixed; auto.
  - apply strip_fixed_iff. auto.
  - apply collapse_fixed_iff. exact H5.
Qed.

Lemma CleanQuery_ok_inv g q o :
  CleanQuery g q = Ok o -> load_global g "re" = Ok tt /\ o = clean_plain q.
Proof.
  intros H.
  assert (Hre : load_global g "re" = Ok tt).
  { unfold CleanQuery in H. destruct (load_global g "re") as [[]|e];
      [reflexivity|discriminate]. }
  rewrite (CleanQuery_plain g q Hre) in H. injection H as <-. auto.
Qed.

(** X2: whatever the query, the text returned is one line that holds no [--],
    starts and ends with no space and has no two spaces in a row. *)
Theorem CleanQuery_returns_normalized (g : list string) (q o : str) :
  CleanQuery g q = Ok o -> normalized o = true.
Proof.
  intros H. apply CleanQuery_ok_inv in H as [_ ->].
  apply clean_plain_normalized.
Qed.

Lemma CleanQuery_returns_normalized_witness :
  normalized (lit "SELECT 1 FROM dual") = true.
Proof.
  apply (CleanQuery_returns_normalized
           ("re"%string :: module_globals)
           (lit "SELECT 1 -- comment" ++ [LF] ++ lit "  FROM  dual")).
  vm_compute. reflexivity.
Defined.

(** X3: where [re] is bound, the strings the normalizer returns unchanged are
    exactly the normalized ones. *)
Theorem CleanQuery_fixed_points (g : list string) (s : str) :
  load_global g "re" = Ok tt ->
  (CleanQuery g s = Ok s <-> normalized s = true).
Proof.
  intros Hre. rewrite (CleanQuery_plain g s Hre). split.
  - intros H. injection H as H. rewrite <- H. apply clean_plain_normalized.
  - intros H. rewrite (normalized_fixed s H). reflexivity.
Qed.

Lemma CleanQuery_fixed_points_witness :
  CleanQuery ("re"%string :: module_globals) (lit "SELECT /* keep */ 1")
  = Ok (lit "SELECT /* keep */ 1")
  <-> normalized (lit "SELECT /* keep */ 1") = true.
Proof.
  apply (CleanQuery_fixed_points ("re"%string :: module_globals)
           (lit "SELECT /* keep */ 1")).
  reflexivity.
Defined.

(** ** The normalizer never lengthens a query *)

Lemma split_nonempty sep s : split sep s <> [].
Proof.
  destruct s as [|c s]; [discriminate|]. rewrite split_cons.
  destruct (Ascii.eqb c sep); discriminate.
Qed.

Lemma join_cons_length (l : str) ls :
  List.length (join [SP] (l :: ls))
  = List.length l +
    match ls with [] => 0 | _ => S (List.length (join [SP] ls)) end.
Proof.
  destruct ls as [|l' ls]; [simpl; lia|].
  change (join [SP] (l :: l' :: ls)) with (l ++ [SP] ++ join [SP] (l' :: ls)).
  rewrite !length_app. reflexivity.
Qed.

Lemma cut_comment_length l : List.length (cut_comment l) <= List.length l.
Proof.
  induction l as [|c l IH]; [reflexivity|].
  cbn [cut_comment]. destruct (starts_dd (c :: l)); simpl; lia.
Qed.

Lemma cut_lines_length q :
  List.length (join [SP] (map cut_comment (split LF q))) <= List.length q.
Proof.
  induction q as [|c q IH]; [reflexivity|].
  rewrite split_cons. pose proof (split_nonempty LF q) as Hne.
  destruct (split LF q) as [|l ls] eqn:E; [congruence|].
  destruct (Ascii.eqb c LF).
  - cbn [map]. rewrite join_cons_length. cbn [map] in IH.
    cbn [List.length cut_comment]. lia.
  - cbn [hd tl map] in *. rewrite join_cons_length in *.
    pose proof (cut_comment_length l). cbn [cut_comment].
    destruct (starts_dd (c :: l)); cbn [List.length];
      destruct (map cut_comment ls); lia.
Qed.

Lemma clean_plain_length q : List.length (clean_plain q) <= List.length q.
Proof.
  unfold clean_plain.
  pose proof (cut_lines_length q).
  pose proof (strip_spaces_length
                (join [SP] (map cut_comment (split LF q)))).
  pose proof (collapse_spaces_length
                (strip_spaces (join [SP] (map cut_comment (split LF q))))).
  lia.
Qed.

(** X4: the text returned is never longer than the query. *)
Theorem CleanQuery_never_longer (g : list string) (q o : str) :
  CleanQuery g q = Ok o -> List.length o <= List.length q.
Proof.
  intros H. apply CleanQuery_ok_inv in H as [_ ->]. apply clean_plain_length.
Qed.

Lemma CleanQuery_never_longer_witness :
  List.length (lit "a b") <= List.length (lit " a" ++ [LF] ++ lit "b --c").
Proof.
  apply (CleanQuery_never_longer ("re"%string :: module_globals)).
  vm_compute. reflexivity.
Defined.

(** ** What follows a line-comment marker is of no account *)

Lemma cut_alike_cons c l1 l2 :
  cut_alike l1 l2 -> cut_alike (c :: l1) (c :: l2).
Proof.
  intros [H1 H2]. split; [|reflexivity].
  cbn [cut_comment]. rewrite !starts_dd_cons, H1, H2. reflexivity.
Qed.

Lemma split_app_lf a b :
  forallb not_lf a = true -> split LF (a ++ LF :: b) = a :: split LF b.
Proof.
  induction a as [|c a IH]; intros H.
  - cbn [app]. rewrite split_cons. reflexivity.
  - simpl in H. apply andb_prop in H as [Hc Ha]. cbn [app].
    rewrite split_cons, (IH Ha). unfold not_lf in Hc.
    destruct (Ascii.eqb c LF); [discriminate|reflexivity].
Qed.

Lemma cut_comment_dd r : cut_comment (lit "--" ++ r) = [].
Proof. reflexivity. Qed.

Lemma comment_lines p r t :
  forallb not_lf r = true ->
  t = [] \/ (exists t', t = LF :: t') ->
  Forall2 cut_alike (split LF (p ++ lit "--" ++ r ++ t))
          (split LF (p ++ lit "--" ++ t)).
Proof.
  intros Hr Ht. induction p as [|c p IH].
  - cbn [app]. destruct Ht as [->|[t' ->]].
    + rewrite app_nil_r.
      rewrite (split_single (lit "--" ++ r)) by exact Hr.
      constructor; [|constructor]. split; reflexivity.
    + change (lit "--" ++ r ++ LF :: t') with ((lit "--" ++ r) ++ LF :: t').
      rewrite (split_app_lf (lit "--" ++ r) t') by exact Hr.
      rewrite (split_app_lf (lit "--") t') by reflexivity.
      constructor; [split; reflexivity|].
      induction (split LF t'); constructor; [split; reflexivity|assumption].
  - cbn [app]. rewrite !split_cons. destruct (Ascii.eqb c LF).
    + constructor; [split; reflexivity|exact IH].
    + destruct (split LF (p ++ lit "--" ++ r ++ t)) as [|l1 ls1] eqn:E1;
        [exfalso; revert E1; apply split_nonempty|].
      destruct (split LF (p ++ lit "--" ++ t)) as [|l2 ls2] eqn:E2;
        [exfalso; revert E2; apply split_nonempty|].
      inversion IH as [|? ? ? ? Hl Hls]; subst. cbn [hd tl].
      constructor; [apply cut_alike_cons, Hl|exact Hls].
Qed.

Lemma cut_alike_map ls1 ls2 :
  Forall2 cut_alike ls1 ls2 -> map cut_comment ls1 = map cut_comment ls2.
Proof.
  induction 1 as [|l1 l2 ls1 ls2 [H _] _ IH]; [reflexivity|].
  simpl. rewrite H, IH. reflexivity.
Qed.

(** X5: the text between a [--] and the end of its line has no part in the
    result, whatever it is: a quote, the end of a block comment, more
    dashes. *)
Theorem CleanQuery_ignores_comment_text (g : list string) (p r t : str) :
  forallb not_lf r = true ->
  t = [] \/ (exists t', t = LF :: t') ->
  CleanQuery g (p ++ lit "--" ++ r ++ t) = CleanQuery g (p ++ lit "--" ++ t).
Proof.
  intros Hr Ht. destruct (load_global g "re") as [[]|e] eqn:Hre.
  - rewrite !(CleanQuery_plain g _ Hre). unfold clean_plain.
    rewrite (cut_alike_map _ _ (comment_lines p r t Hr Ht)). reflexivity.
  - unfold CleanQuery. rewrite Hre. reflexivity.
Qed.

Lemma CleanQuery_ignores_comment_text_witness :
  CleanQuery ("re"%string :: module_globals)
             (lit "SELECT '" ++ lit "--" ++ lit "x' */ , 1"
                  ++ (LF :: lit "FROM t"))
  = CleanQuery ("re"%string :: module_globals)
               (lit "SELECT '" ++ lit "--" ++ (LF :: lit "FROM t")).
Proof.
  apply (CleanQuery_ignores_comment_text
           ("re"%string :: module_globals)
           (lit "SELECT '") (lit "x' */ , 1") (LF :: lit "FROM t")).
  - reflexivity.
  - right. exists (lit "FROM t"). reflexivity.
Defined.

(** ** Decimal texts and [int] *)

Section IntFacts.

Local Open Scope Z_scope.

Lemma digits_val_cons acc c s d :
  digit_val c = Some d -> digits_val acc (c :: s) = digits_val (10 * acc + d) s.
Proof. intros H. cbn [digits_val]. rewrite H. reflexivity. Qed.

Ltac digit_step d k :=
  unfold lit; cbn [NilEmpty.string_of_uint list_ascii_of_string];
  rewrite (digits_val_cons _ _ _ k) by reflexivity;
  fold (lit (NilEmpty.string_of_uint d)).

Lemma digits_val_uint_acc d : forall acc,
  digits_val (Z.pos acc) (lit (NilEmpty.string_of_uint d))
  = Some (Z.pos (Pos.of_uint_acc d acc)).
Proof.
  induction d; intros acc; cbn [Pos.of_uint_acc]; [reflexivity|..].
  - digit_step d 0. rewrite <- IHd. f_equal; lia.
  - digit_step d 1. rewrite <- IHd. f_equal; lia.
  - digit_step d 2. rewrite <- IHd. f_equal; lia.
  - digit_step d 3. rewrite <- IHd. f_equal; lia.
  - digit_step d 4. rewrite <- IHd. f_equal; lia.
  - digit_step d 5. rewrite <- IHd. f_equal; lia.
  - digit_step d 6. rewrite <- IHd. f_equal; lia.
  - digit_step d 7. rewrite <- IHd. f_equal; lia.
  - digit_step d 8. rewrite <- IHd. f_equal; lia.
  - digit_step d 9. rewrite <- IHd. f_equal; lia.
Qed.

Lemma digits_val_uint d :
  digits_val 0 (lit (NilEmpty.string_of_uint d))
  = Some (Z.of_N (Pos.of_uint d)).
Proof.
  induction d; cbn [Pos.of_uint]; [reflexivity|..]; cbn [Z.of_N].
  - digit_step d 0. exact IHd.
  - digit_step d 1. apply digits_val_uint_acc.
  - digit_step d 2. apply digits_val_uint_acc.
  - digit_step d 3. apply digits_val_uint_acc.
  - digit_step d 4. apply digits_val_uint_acc.
  - digit_step d 5. apply digits_val_uint_acc.
  - digit_step d 6. apply digits_val_uint_acc.
  - digit_step d 7. apply digits_val_uint_acc.
  - digit_step d 8. apply digits_val_uint_acc.
  - digit_step d 9. apply digits_val_uint_acc.
Qed.

Lemma str_of_int_pos p :
  str_of_int (Z.pos p) = lit (NilEmpty.string_of_uint (Pos.to_uint p)).
Proof.
  unfold str_of_int. cbn [Z.to_int NilZero.string_of_int].
  unfold NilZero.string_of_uint.
  destruct (Pos.to_uint p) eqn:E; try reflexivity.
  pose proof (Unsigned.of_to p) as H. rewrite E in H. discriminate.
Qed.

Lemma str_of_int_neg p :
  str_of_int (Z.neg p) = "-"%char :: str_of_int (Z.pos p).
Proof. reflexivity. Qed.

Lemma digits_val_str_of_int p :
  digits_val 0 (str_of_int (Z.pos p)) = Some (Z.pos p).
Proof.
  rewrite str_of_int_pos, digits_val_uint, Unsigned.of_to. reflexivity.
Qed.

Lemma is_digit_not_space c : is_digit c = true -> is_space c = false.
Proof.
  unfold is_digit, is_space. intros H. apply andb_prop in H as [H1 H2].
  apply Nat.leb_le in H1, H2.
  destruct (Nat.eqb_spec (nat_of_ascii c) 32); [lia|].
  destruct (Nat.leb_spec (nat_of_ascii c) 13); [lia|].
  rewrite andb_false_r. reflexivity.
Qed.

Lemma is_digit_not_sign c :
  is_digit c = true -> Ascii.eqb c "-" = false /\ Ascii.eqb c "+" = false.
Proof.
  unfold is_digit. intros H. apply andb_prop in H as [H1 H2].
  apply Nat.leb_le in H1, H2.
  split; apply Ascii.eqb_neq; intros ->.
  - change (nat_of_ascii "-") with 45%nat in *. lia.
  - change (nat_of_ascii "+") with 43%nat in *. lia.
Qed.

Lemma drop_while_end_snoc_keep p s c :
  p c = false -> drop_while_end p (s ++ [c]) = s ++ [c].
Proof.
  intros H. unfold drop_while_end. rewrite rev_app_distr. cbn [rev app].
  cbn [drop_while]. rewrite H. cbn [rev]. rewrite rev_involutive.
  reflexivity.
Qed.

(** A text of digits is its own body: no blank to drop at either end. *)
Lemma digits_body ds :
  forallb is_digit ds = true ->
  drop_while_end is_space (drop_while is_space ds) = ds.
Proof.
  intros H. destruct ds as [|c ds]; [reflexivity|].
  pose proof H as H'. simpl in H'. apply andb_prop in H' as [Hc _].
  cbn [drop_while]. rewrite (is_digit_not_space c Hc).
  destruct (exists_last (l := c :: ds) ltac:(discriminate)) as (s & d & E).
  rewrite E in *. rewrite forallb_app in H. apply andb_prop in H as [_ Hd].
  simpl in Hd. rewrite andb_true_r in Hd.
  apply drop_while_end_snoc_keep, is_digit_not_space, Hd.
Qed.

Lemma int_of_str_digits ds n :
  forallb is_digit ds = true -> ds <> [] -> digits_val 0 ds = Some n ->
  int_of_str ds = Ok n /\ int_of_str ("-"%char :: ds) = Ok (- n).
Proof.
  intros Hd Hne Hv. split.
  - unfold int_of_str. rewrite (digits_body ds Hd).
    destruct ds as [|c ds]; [congruence|].
    simpl in Hd. apply andb_prop in Hd as [Hc _].
    destruct (is_digit_not_sign c Hc) as [-> ->]. rewrite Hv. reflexivity.
  - unfold int_of_str. cbn [drop_while].
    change (is_space "-") with false. cbv iota.
    assert (E : drop_while_end is_space ("-"%char :: ds) = "-"%char :: ds).
    { destruct (exists_last Hne) as (s & d & ->).
      rewrite forallb_app in Hd. apply andb_prop in Hd as [_ Hd].
      simpl in Hd. rewrite andb_true_r in Hd.
      change ("-"%char :: s ++ [d]) with (("-"%char :: s) ++ [d]).
      apply drop_while_end_snoc_keep, is_digit_not_space, Hd. }
    rewrite E. change (Ascii.eqb "-" "-") with true. cbv iota.
    destruct ds as [|c ds]; [congruence|]. rewrite Hv. reflexivity.
Qed.

(** [int(str(n))] is [n]. *)
Lemma int_of_str_str_of_int n : int_of_str (str_of_int n) = Ok n.
Proof.
  destruct n as [|p|p]; [reflexivity| |].
  - destruct (str_of_int_digits (Z.pos p) ltac:(lia)) as [Hd Hne].
    apply (int_of_str_digits _ _ Hd Hne (digits_val_str_of_int p)).
  - rewrite str_of_int_neg.
    destruct (str_of_int_digits (Z.pos p) ltac:(lia)) as [Hd Hne].
    apply (int_of_str_digits _ _ Hd Hne (digits_val_str_of_int p)).
Qed.

(** Blanks around a text do not change its body. *)
Lemma drop_while_app_all p l s :
  forallb p l = true -> drop_while p (l ++ s) = drop_while p s.
Proof.
  induction l as [|c l IH]; [reflexivity|].
  intros H. simpl in H. apply andb_prop in H as [Hc Hl].
  cbn [app drop_while]. rewrite Hc. auto.
Qed.

Lemma drop_while_end_app_all p s r :
  forallb p r = true -> drop_while_end p (s ++ r) = drop_while_end p s.
Proof.
  intros H. unfold drop_while_end. rewrite rev_app_distr.
  rewrite drop_while_app_all by (rewrite forallb_rev; exact H).
  reflexivity.
Qed.

Lemma drop_while_app_keep p s r :
  forallb p s = false -> drop_while p (s ++ r) = drop_while p s ++ r.
Proof.
  induction s as [|c s IH]; [discriminate|].
  intros H. simpl in H. cbn [app drop_while].
  destruct (p c); [apply IH; exact H|reflexivity].
Qed.

Lemma body_padded l f r :
  forallb is_space l = true -> forallb is_space r = true ->
  drop_while_end is_space (drop_while is_space (l ++ f ++ r))
  = drop_while_end is_space (drop_while is_space f).
Proof.
  intros Hl Hr. rewrite (drop_while_app_all _ l _ Hl).
  destruct (forallb is_space f) eqn:F.
  - rewrite (drop_while_all _ (f ++ r)), (drop_while_all _ f F);
      [reflexivity|]. rewrite forallb_app, F, Hr. reflexivity.
  - rewrite (drop_while_app_keep _ f r F).
    apply drop_while_end_app_all, Hr.
Qed.

Lemma int_of_str_same_body s s' n :
  drop_while_end is_space (drop_while is_space s')
  = drop_while_end is_space (drop_while is_space s) ->
  int_of_str s = Ok n -> int_of_str s' = Ok n.
Proof.
  unfold int_of_str. intros ->.
  destruct (match drop_while_end is_space (drop_while is_space s) with
            | [] => _ | c :: t => _ end) as [neg ds].
  destruct ds as [|c ds]; [discriminate|].
  destruct (digits_val 0 (c :: ds)); [auto|discriminate].
Qed.

Lemma int_of_str_padded f f' n :
  padded f f' -> int_of_str f = Ok n -> int_of_str f' = Ok n.
Proof.
  intros (l & r & Hl & Hr & ->). apply int_of_str_same_body.
  apply body_padded; assumption.
Qed.

(** What [int] accepts is made of digits, signs and blanks, with a digit
    among them. *)
Lemma drop_while_decomp p s :
  exists a, s = a ++ drop_while p s /\ forallb p a = true.
Proof.
  induction s as [|c s (a & E & Ha)]; [exists []; auto|].
  cbn [drop_while]. destruct (p c) eqn:Pc.
  - exists (c :: a). split; [cbn [app]; f_equal; exact E|].
    simpl. rewrite Pc. exact Ha.
  - exists []. auto.
Qed.

Lemma drop_while_end_decomp p s :
  exists b, s = drop_while_end p s ++ b /\ forallb p b = true.
Proof.
  unfold drop_while_end.
  destruct (drop_while_decomp p (rev s)) as (a & E & Ha).
  exists (rev a). split; [|rewrite forallb_rev; exact Ha].
  rewrite <- rev_app_distr, <- E, rev_involutive. reflexivity.
Qed.

Lemma digit_val_is_digit c d : digit_val c = Some d -> is_digit c = true.
Proof.
  unfold digit_val, is_digit.
  destruct (Nat.leb 48 (nat_of_ascii c) && Nat.leb (nat_of_ascii c) 57);
    [reflexivity|discriminate].
Qed.

Lemma digits_val_digits ds : forall acc n,
  digits_val acc ds = Some n -> forallb is_digit ds = true.
Proof.
  induction ds as [|c ds IH]; [reflexivity|].
  intros acc n H. cbn [digits_val] in H.
  destruct (digit_val c) as [d|] eqn:E; [|discriminate].
  simpl. rewrite (digit_val_is_digit c d E). eapply IH. exact H.
Qed.

Lemma forallb_weaken (p q : ascii -> bool) s :
  (forall c, p c = true -> q c = true) ->
  forallb p s = true -> forallb q s = true.
Proof.
  intros H. induction s as [|c s IH]; [reflexivity|].
  simpl. intros E. apply andb_prop in E as [Ec Es].
  rewrite (H c Ec), (IH Es). reflexivity.
Qed.

Lemma int_char_digit c : is_digit c = true -> int_char c = true.
Proof. unfold int_char. intros ->. reflexivity. Qed.

Lemma int_char_space c : is_space c = true -> int_char c = true.
Proof. unfold int_char. intros ->. rewrite orb_true_r. reflexivity. Qed.

Lemma existsb_app_r (p : ascii -> bool) a b :
  existsb p b = true -> existsb p (a ++ b) = true.
Proof. intros H. rewrite existsb_app, H. apply orb_true_r. Qed.

Lemma existsb_app_l (p : ascii -> bool) a b :
  existsb p a = true -> existsb p (a ++ b) = true.
Proof. intros H. rewrite existsb_app, H. reflexivity. Qed.

Lemma forallb_existsb (p : ascii -> bool) s :
  forallb p s = true -> s <> [] -> existsb p s = true.
Proof.
  destruct s as [|c s]; [congruence|]. simpl. intros H _.
  apply andb_prop in H as [-> _]. reflexivity.
Qed.

Lemma int_of_str_chars s n :
  int_of_str s = Ok n ->
  forallb int_char s = true /\ existsb is_digit s = true.
Proof.
  intros H. unfold int_of_str in H.
  destruct (drop_while_decomp is_space s) as (a & Ea & Ha).
  destruct (drop_while_end_decomp is_space (drop_while is_space s))
    as (b & Eb & Hb).
  set (body := drop_while_end is_space (drop_while is_space s)) in *.
  assert (Hbody : forallb int_char body = true
                  /\ existsb is_digit body = true).
  { destruct body as [|c t]; [discriminate|].
    destruct (Ascii.eqb c "-") eqn:E1; [|destruct (Ascii.eqb c "+") eqn:E2].
    - destruct t as [|d t]; [discriminate|].
      destruct (digits_val 0 (d :: t)) eqn:V; [|discriminate].
      apply digits_val_digits in V. split.
      + cbn [forallb]. unfold int_char at 1. rewrite E1, orb_true_r.
        apply (forallb_weaken _ _ _ int_char_digit V).
      + apply (existsb_app_r _ [c]), (forallb_existsb _ _ V). discriminate.
    - destruct t as [|d t]; [discriminate|].
      destruct (digits_val 0 (d :: t)) eqn:V; [|discriminate].
      apply digits_val_digits in V. split.
      + cbn [forallb]. unfold int_char at 1. rewrite E2, orb_true_r.
        apply (forallb_weaken _ _ _ int_char_digit V).
      + apply (existsb_app_r _ [c]), (forallb_existsb _ _ V). discriminate.
    - destruct (digits_val 0 (c :: t)) eqn:V; [|discriminate].
      apply digits_val_digits in V. split.
      + apply (forallb_weaken _ _ _ int_char_digit V).
      + apply (forallb_existsb _ _ V). discriminate. }
  destruct Hbody as [H1 H2]. rewrite Ea, Eb. split.
  - rewrite !forallb_app, H1.
    rewrite (forallb_weaken _ _ _ int_char_space Ha).
    rewrite (forallb_weaken _ _ _ int_char_space Hb). reflexivity.
  - apply existsb_app_r, existsb_app_l, H2.
Qed.

End IntFacts.

(** ** Rows *)

Lemma QueryStatistic_init_inv row rec :
  QueryStatistic_init row = Ok rec ->
  exists nm a b c,
    row = [nm; a; b; c] /\ name rec = nm
    /\ int_of_str a = Ok (startMicros rec)
    /\ int_of_str b = Ok (elapsedMicros rec)
    /\ int_of_str c = Ok (rowsAffected rec).
Proof.
  destruct row as [|nm [|a [|b [|c [|x row]]]]]; cbn [QueryStatistic_init];
    try discriminate.
  destruct (int_of_str a) as [na|] eqn:Ea; cbn [bind]; [|discriminate].
  destruct (int_of_str b) as [nb|] eqn:Eb; cbn [bind]; [|discriminate].
  destruct (int_of_str c) as [nc|] eqn:Ec; cbn [bind]; [|discriminate].
  intros H. injection H as <-. exists nm, a, b, c. repeat split; auto.
Qed.

(** X7: a row whose counts are written the way [str] writes integers, negative
    ones included, gives the record of exactly these integers, with the
    name as it stands. *)
Theorem QueryStatistic_init_reads_decimal (nm : str) (s e r : Z) :
  QueryStatistic_init [nm; str_of_int s; str_of_int e; str_of_int r]
  = Ok {| name := nm; startMicros := s; elapsedMicros := e;
          rowsAffected := r |}.
Proof.
  cbn [QueryStatistic_init]. rewrite !int_of_str_str_of_int. reflexivity.
Qed.

(** X8: blanks around the counts of a row do not matter: a row that is
    accepted gives the same record with any whitespace put before or after
    its three counts. *)
Theorem QueryStatistic_init_ignores_blanks
        (nm a b c a' b' c' : str) (rec : QueryStatistic) :
  QueryStatistic_init [nm; a; b; c] = Ok rec ->
  padded a a' -> padded b b' -> padded c c' ->
  QueryStatistic_init [nm; a'; b'; c'] = Ok rec.
Proof.
  intros H Pa Pb Pc.
  destruct (QueryStatistic_init_inv _ _ H)
    as (nm0 & a0 & b0 & c0 & E & Hn & Ha & Hb & Hc).
  injection E as <- <- <- <-. cbn [QueryStatistic_init].
  rewrite (int_of_str_padded a a' _ Pa Ha), (int_of_str_padded b b' _ Pb Hb),
    (int_of_str_padded c c' _ Pc Hc).
  cbn [bind]. destruct rec; cbn in *. subst. reflexivity.
Qed.

Lemma QueryStatistic_init_ignores_blanks_witness :
  QueryStatistic_init [lit "q1"; lit " 0"; lit "500 "; [TAB] ++ lit "-10"]
  = Ok {| name := lit "q1"; startMicros := 0; elapsedMicros := 500;
          rowsAffected := -10 |}.
Proof.
  apply (QueryStatistic_init_ignores_blanks
           (lit "q1") (lit "0") (lit "500") (lit "-10")).
  - reflexivity.
  - exists (lit " "), []. repeat split; reflexivity.
  - exists [], (lit " "). repeat split; reflexivity.
  - exists [TAB], []. repeat split; reflexivity.
Defined.

(** X9: a row is accepted only if each of its three counts is made of digits,
    signs and blanks and holds a digit: a decimal point, an exponent or a
    thousands separator makes the row fail. *)
Theorem QueryStatistic_init_decimal_only
        (row : list str) (rec : QueryStatistic) :
  QueryStatistic_init row = Ok rec ->
  Forall (fun f => forallb int_char f = true /\ existsb is_digit f = true)
         (tl row).
Proof.
  intros H.
  destruct (QueryStatistic_init_inv _ _ H)
    as (nm & a & b & c & -> & _ & Ha & Hb & Hc).
  cbn [tl]. repeat constructor; eapply int_of_str_chars; eassumption.
Qed.

Lemma QueryStatistic_init_decimal_only_witness :
  Forall (fun f => forallb int_char f = true /\ existsb is_digit f = true)
         [lit "0"; lit "500"; lit "10"].
Proof.
  apply (QueryStatistic_init_decimal_only
           [lit "q1"; lit "0"; lit "500"; lit "10"]
           {| name := lit "q1"; startMicros := 0; elapsedMicros := 500;
              rowsAffected := 10 |}).
  reflexivity.
Defined.

(** ** The descriptor, rebuilt and printed *)

Lemma keep_or_default_twice (x dflt : value) :
  let f := if truthy x then x else dflt in
  (if truthy f then f else dflt) = f.
Proof.
  cbv zeta. destruct (truthy x) eqn:E; [rewrite E; reflexivity|].
  destruct (truthy dflt); reflexivity.
Qed.

Lemma DatabaseSpec_init_inv h p u pw db dr d :
  DatabaseSpec_init h p u pw db dr = Ok d ->
  exists x y z w v,
    d = {| host := if truthy x then x else VStr (lit "localhost");
           port := port d;
           user := if truthy y then y else VStr (lit "root");
           password := if truthy z then z else VStr [];
           database := if truthy w then w else VStr [];
           driver := if truthy v then v else VStr (lit "mysql") |}.
Proof.
  unfold DatabaseSpec_init.
  destruct (if truthy (arg p (VInt 3306)) then py_int (arg p (VInt 3306))
            else Ok 3306%Z) as [n|e]; cbn [bind]; [|discriminate].
  intros H. injection H as <-. cbn [port]. repeat eexists.
Qed.

(** X13: a descriptor rebuilt from its own fields is the same descriptor, but
    for a stored port 0, which becomes 3306. *)
Theorem DatabaseSpec_rebuild (h p u pw db dr : option value)
        (d : DatabaseSpec) :
  DatabaseSpec_init h p u pw db dr = Ok d ->
  DatabaseSpec_init (Some (host d)) (Some (VInt (port d))) (Some (user d))
                    (Some (password d)) (Some (database d))
                    (Some (driver d))
  = Ok {| host := host d;
          port := if (port d =? 0)%Z then 3306%Z else port d;
          user := user d; password := password d;
          database := database d; driver := driver d |}.
Proof.
  intros H. destruct (DatabaseSpec_init_inv _ _ _ _ _ _ _ H)
    as (x & y & z & w & v & E).
  rewrite E. cbn [host port user password database driver].
  unfold DatabaseSpec_init. cbn [arg truthy py_int].
  destruct (port d =? 0)%Z; cbn [negb bind];
    rewrite !keep_or_default_twice; reflexivity.
Qed.

Lemma DatabaseSpec_rebuild_witness :
  DatabaseSpec_init (Some (VStr (lit "localhost"))) (Some (VInt 0))
                    (Some (VStr (lit "root"))) (Some (VStr []))
                    (Some (VStr [])) (Some (VStr (lit "mysql")))
  = Ok {| host := VStr (lit "localhost"); port := 3306;
          user := VStr (lit "root"); password := VStr [];
          database := VStr []; driver := VStr (lit "mysql") |}.
Proof.
  apply (DatabaseSpec_rebuild
           None (Some (VStr (lit "0"))) None None None None
           {| host := VStr (lit "localhost"); port := 0;
              user := VStr (lit "root"); password := VStr [];
              database := VStr []; driver := VStr (lit "mysql") |}).
  reflexivity.
Defined.

Lemma str_of_int_nonempty n : str_of_int n <> [].
Proof.
  destruct n as [|p|p]; [discriminate| |discriminate].
  apply (str_of_int_digits (Z.pos p)). lia.
Qed.

(** X14: a port given as the decimal text of an integer is stored as that
    integer, zero and the negative ones included: what [str] writes of a
    port, the constructor reads back. *)
Theorem DatabaseSpec_port_of_text (h u pw db dr : option value) (n : Z) :
  exists d,
    DatabaseSpec_init h (Some (VStr (str_of_int n))) u pw db dr = Ok d
    /\ port d = n.
Proof.
  unfold DatabaseSpec_init. cbn [arg truthy py_int].
  pose proof (str_of_int_nonempty n) as Hne.
  destruct (str_of_int n) as [|c s] eqn:E; [congruence|].
  rewrite <- E, int_of_str_str_of_int. cbn [bind].
  eexists. split; reflexivity.
Qed.

(** X15: the text of a descriptor does not tell its fields apart: a colon in
    the user name or in the password moves the border between the two. *)
Theorem DatabaseSpec_repr_ambiguous (h p db dr : option value)
        (a b c : str) (d1 d2 : DatabaseSpec) :
  a <> [] ->
  DatabaseSpec_init h p (Some (VStr (a ++ lit ":" ++ b))) (Some (VStr c))
                    db dr = Ok d1 ->
  DatabaseSpec_init h p (Some (VStr a)) (Some (VStr (b ++ lit ":" ++ c)))
                    db dr = Ok d2 ->
  DatabaseSpec_repr d1 = DatabaseSpec_repr d2 /\ d1 <> d2.
Proof.
  intros Ha H1 H2. unfold DatabaseSpec_init in H1, H2.
  destruct (if truthy (arg p (VInt 3306)) then py_int (arg p (VInt 3306))
            else Ok 3306%Z) as [n|e]; cbn [bind] in H1, H2; [|discriminate].
  injection H1 as <-. injection H2 as <-.
  destruct a as [|x a]; [congruence|]. split.
  - unfold DatabaseSpec_repr.
    cbn [driver user password host port database].
    f_equal. f_equal.
    destruct b, c; cbn [app py_str]; f_equal;
      rewrite <- ?app_assoc; reflexivity.
  - intros E. apply (f_equal user) in E. cbn [user app] in E.
    injection E as E. apply (f_equal (@List.length ascii)) in E.
    rewrite length_app in E. simpl in E. lia.
Qed.

Lemma DatabaseSpec_repr_ambiguous_witness :
  DatabaseSpec_repr
    {| host := VStr (lit "localhost"); port := 3306;
       user := VStr (lit "ann:x"); password := VStr (lit "y");
       database := VStr []; driver := VStr (lit "mysql") |}
  = DatabaseSpec_repr
      {| host := VStr (lit "localhost"); port := 3306;
         user := VStr (lit "ann"); password := VStr (lit "x:y");
         database := VStr []; driver := VStr (lit "mysql") |}.
Proof.
  apply (DatabaseSpec_repr_ambiguous None None None None
           (lit "ann") (lit "x") (lit "y")).
  - discriminate.
  - reflexivity.
  - reflexivity.
Defined.

(** ** The text of a record *)

Section ReprFacts.

Local Open Scope Z_scope.

Lemma is_digit_printable c : is_digit c = true -> printable c = true.
Proof.
  unfold is_digit, printable. intros H. apply andb_prop in H as [H1 H2].
  apply Nat.leb_le in H1, H2.
  apply andb_true_intro. split; [apply Nat.leb_le|apply Nat.ltb_lt]; lia.
Qed.

Lemma digits_printable s :
  forallb is_digit s = true -> forallb printable s = true.
Proof. apply forallb_weaken, is_digit_printable. Qed.

Lemma is_fixed3_printable s :
  is_fixed3 s = true -> forallb printable s = true.
Proof.
  unfold is_fixed3. intros H. rewrite <- forallb_rev.
  destruct (rev s) as [|d3 [|d2 [|d1 [|dot ip]]]]; try discriminate.
  apply andb_prop in H as [H _]. apply andb_prop in H as [H Hip].
  apply andb_prop in H as [H Hdot]. apply andb_prop in H as [H H1].
  apply andb_prop in H as [H3 H2].
  apply Ascii.eqb_eq in Hdot. subst dot. cbn [forallb].
  rewrite (is_digit_printable _ H1), (is_digit_printable _ H2),
    (is_digit_printable _ H3), (digits_printable _ Hip).
  reflexivity.
Qed.

Lemma str_of_int_printable v :
  0 <= v -> forallb printable (str_of_int v) = true.
Proof.
  intros H. apply digits_printable, (str_of_int_digits v H).
Qed.

Lemma quot_printable v K m2 e2 u :
  0 < v < overflow_bound ->
  float_of_Z K = S754_finite false m2 e2 ->
  Zdigits2 (Z.pos m2) = 53 -> -51 <= e2 ->
  forallb printable u = true ->
  forallb printable (format_3f (float_quot v K) ++ u) = true.
Proof.
  intros Hv EK Hd He Hu. rewrite forallb_app, Hu, andb_true_r.
  apply is_fixed3_printable. eapply float_quot_fixed3; eauto.
Qed.

Lemma humanize_us_text v :
  v < overflow_bound ->
  exists t, humanize_us v = Ok t /\ forallb printable t = true.
Proof.
  intros Hv. rewrite (humanize_us_chain v Hv).
  repeat match goal with
         | |- context [?a <=? v] => destruct (Z.leb_spec a v)
         end;
    eexists; (split; [reflexivity|]);
    try (eapply quot_printable;
         [lia|vm_compute; reflexivity|reflexivity|lia|reflexivity]).
  - rewrite forallb_app, str_of_int_printable by lia. reflexivity.
  - reflexivity.
Qed.

Lemma humanize_count_text v :
  v < overflow_bound ->
  exists t, humanize_count v = Ok t /\ forallb printable t = true.
Proof.
  intros Hv. rewrite (humanize_count_chain v Hv).
  repeat match goal with
         | |- context [?a <=? v] => destruct (Z.leb_spec a v)
         end;
    eexists; (split; [reflexivity|]);
    try (eapply quot_printable;
         [lia|vm_compute; reflexivity|reflexivity|lia|reflexivity]).
  - rewrite forallb_app, str_of_int_printable by lia. reflexivity.
  - reflexivity.
Qed.

Lemma hex_digit_printable n :
  (n < 16)%nat -> printable (hex_digit n) = true.
Proof.
  intros H.
  do 16 (destruct n as [|n]; [reflexivity|]). lia.
Qed.

Lemma repr_char_printable q c :
  printable q = true -> forallb printable (repr_char q c) = true.
Proof.
  intros Hq. unfold repr_char.
  destruct (Ascii.eqb c q) eqn:E1.
  { apply Ascii.eqb_eq in E1. subst c. cbn [orb forallb]. rewrite Hq.
    reflexivity. }
  destruct (Ascii.eqb c BACKSLASH) eqn:E2.
  { apply Ascii.eqb_eq in E2. subst c. reflexivity. }
  cbn [orb]. destruct (Ascii.eqb c TAB); [reflexivity|].
  destruct (Ascii.eqb c LF); [reflexivity|].
  destruct (Ascii.eqb c CR); [reflexivity|].
  destruct (Nat.ltb (nat_of_ascii c) 32 || Nat.leb 127 (nat_of_ascii c))
    eqn:E3.
  - pose proof (nat_ascii_bounded c) as Hb. cbn [forallb].
    rewrite !hex_digit_printable; [reflexivity| |].
    + apply Nat.mod_upper_bound. lia.
    + apply Nat.Div0.div_lt_upper_bound. exact Hb.
  - apply orb_false_elim in E3 as [E3 E4]. cbn [forallb]. unfold printable.
    apply Nat.ltb_ge in E3. apply Nat.leb_gt in E4.
    rewrite andb_true_r. apply andb_true_intro.
    split; [apply Nat.leb_le|apply Nat.ltb_lt]; lia.
Qed.

Lemma repr_str_printable s : forallb printable (repr_str s) = true.
Proof.
  unfold repr_str.
  assert (Hq : printable (repr_quote s) = true).
  { unfold repr_quote.
    destruct (existsb (Ascii.eqb QUOTE) s
              && negb (existsb (Ascii.eqb DQUOTE) s)); reflexivity. }
  cbn [forallb]. rewrite Hq, forallb_app. cbn [forallb]. rewrite Hq.
  rewrite !andb_true_r. cbn [andb].
  generalize (repr_quote s) Hq. intros q Pq. clear Hq.
  induction s as [|c s IH]; [reflexivity|].
  cbn [flat_map]. rewrite forallb_app, IH, (repr_char_printable _ c Pq).
  reflexivity.
Qed.

Lemma QueryStatistic_repr_text q :
  startMicros q < overflow_bound ->
  elapsedMicros q < overflow_bound ->
  rowsAffected q < overflow_bound ->
  exists t, QueryStatistic_repr q = Ok t /\ forallb printable t = true.
Proof.
  intros Hs He Hr. unfold QueryStatistic_repr.
  destruct (humanize_us_text _ Hs) as (ts & -> & Ps).
  destruct (humanize_us_text _ He) as (te & -> & Pe).
  destruct (humanize_count_text _ Hr) as (tr & -> & Pr).
  cbn [bind]. eexists. split; [reflexivity|].
  cbn [join]. rewrite !forallb_app, Ps, Pe, Pr, repr_str_printable.
  reflexivity.
Qed.

Lemma QueryStatistic_repr_overflow q :
  overflow_bound <= startMicros q \/ overflow_bound <= elapsedMicros q
  \/ overflow_bound <= rowsAffected q ->
  QueryStatistic_repr q = Raise OverflowError.
Proof.
  intros H. unfold QueryStatistic_repr.
  destruct (Z_lt_le_dec (startMicros q) overflow_bound) as [Hs|Hs];
    [|rewrite (humanize_us_too_large _ Hs); reflexivity].
  destruct (humanize_us_text _ Hs) as (ts & -> & _). cbn [bind].
  destruct (Z_lt_le_dec (elapsedMicros q) overflow_bound) as [He|He];
    [|rewrite (humanize_us_too_large _ He); reflexivity].
  destruct (humanize_us_text _ He) as (te & -> & _). cbn [bind].
  destruct (Z_lt_le_dec (rowsAffected q) overflow_bound) as [Hr|Hr];
    [lia|rewrite (humanize_count_too_large _ Hr); reflexivity].
Qed.

End ReprFacts.

(** X10: the text of a record exists exactly when its three counts are below
    [2^1024 - 2^970]; a larger count, which [int] reads from a long enough
    row, makes [__repr__] raise [OverflowError]. *)
Theorem QueryStatistic_repr_returns (q : QueryStatistic) :
  ((exists t, QueryStatistic_repr q = Ok t)
   <-> (startMicros q < overflow_bound /\ elapsedMicros q < overflow_bound
        /\ rowsAffected q < overflow_bound)%Z)
  /\ ((overflow_bound <= startMicros q \/ overflow_bound <= elapsedMicros q
       \/ overflow_bound <= rowsAffected q)%Z
      <-> QueryStatistic_repr q = Raise OverflowError).
Proof.
  assert (A : (startMicros q < overflow_bound
               /\ elapsedMicros q < overflow_bound
               /\ rowsAffected q < overflow_bound)%Z
              -> exists t, QueryStatistic_repr q = Ok t).
  { intros (Hs & He & Hr).
    destruct (QueryStatistic_repr_text q Hs He Hr) as (t & Ht & _). eauto. }
  pose proof (QueryStatistic_repr_overflow q) as B.
  split; split; auto.
  - intros [t Ht].
    destruct (Z_lt_le_dec (startMicros q) overflow_bound);
      [|rewrite B in Ht by auto; discriminate].
    destruct (Z_lt_le_dec (elapsedMicros q) overflow_bound);
      [|rewrite B in Ht by auto; discriminate].
    destruct (Z_lt_le_dec (rowsAffected q) overflow_bound);
      [auto|rewrite B in Ht by auto; discriminate].
  - intros H.
    destruct (Z_lt_le_dec (startMicros q) overflow_bound); [|auto].
    destruct (Z_lt_le_dec (elapsedMicros q) overflow_bound); [|auto].
    destruct (Z_lt_le_dec (rowsAffected q) overflow_bound); [|auto].
    destruct A as [t Ht]; [auto|congruence].
Qed.

(** X11: the text of a record is one line of printable ASCII, whatever bytes
    the name holds. *)
Theorem QueryStatistic_repr_printable (q : QueryStatistic) (t : str) :
  QueryStatistic_repr q = Ok t -> forallb printable t = true.
Proof.
  intros H.
  destruct (Z_lt_le_dec (startMicros q) overflow_bound) as [Hs|Hs];
    [|rewrite QueryStatistic_repr_overflow in H by auto; discriminate].
  destruct (Z_lt_le_dec (elapsedMicros q) overflow_bound) as [He|He];
    [|rewrite QueryStatistic_repr_overflow in H by auto; discriminate].
  destruct (Z_lt_le_dec (rowsAffected q) overflow_bound) as [Hr|Hr];
    [|rewrite QueryStatistic_repr_overflow in H by auto; discriminate].
  destruct (QueryStatistic_repr_text q Hs He Hr) as (t' & Ht & P).
  congruence.
Qed.

Lemma QueryStatistic_repr_printable_witness :
  forallb printable
    (lit "QueryStatistic(name='a\nb',start=1.500ms,elapsed=0us,"
         ++ lit "rowsAffected=2.000K)") = true.
Proof.
  apply (QueryStatistic_repr_printable
           {| name := lit "a" ++ [LF] ++ lit "b"; startMicros := 1500;
              elapsedMicros := 0; rowsAffected := 2048 |}).
  vm_compute. reflexivity.
Defined.

(** ** Runs that start no process *)

Lemma debug_item_ok a :
  truthy a && negb (is_str a) = false -> exists t, debug_item a = Ok t.
Proof.
  unfold debug_item. destruct (truthy a); [|eauto].
  destruct a; cbn; try discriminate; eauto.
Qed.

Lemma debug_item_bad a :
  truthy a && negb (is_str a) = true ->
  debug_item a = Raise TypeError_join_item.
Proof.
  unfold debug_item. destruct (truthy a); [|discriminate].
  destruct a; cbn; try discriminate; reflexivity.
Qed.

Lemma debug_line_cases command :
  if existsb (fun v => truthy v && negb (is_str v)) command
  then debug_line command = Raise TypeError_join_item
  else exists t, debug_line command = Ok t.
Proof.
  unfold debug_line.
  assert (H : if existsb (fun v => truthy v && negb (is_str v)) command
              then comprehension debug_item command
                   = Raise TypeError_join_item
              else exists items, comprehension debug_item command = Ok items).
  { induction command as [|a command IH]; [cbn; eauto|].
    cbn [existsb comprehension].
    destruct (truthy a && negb (is_str a)) eqn:Ea; cbn [orb].
    - rewrite (debug_item_bad a Ea). reflexivity.
    - destruct (debug_item_ok a Ea) as [t ->]. cbn [bind].
      destruct (existsb _ command).
      + rewrite IH. reflexivity.
      + destruct IH as [items ->]. cbn [bind]. eauto. }
  destruct (existsb _ command).
  - rewrite H. reflexivity.
  - destruct H as [items ->]. cbn [bind]. eauto.
Qed.

(** X17: when an argument of the command is not a string the call raises a
    [TypeError] and starts no process: the error is that of the debug line
    when the argument is truthy, that of [subprocess] otherwise, whatever
    the process and the reader would do. *)
Theorem RunDbbench_argument_not_a_string
        (statsFile : str) (dbspec : DatabaseSpec) (configFileName : str)
        (basedir : option str) :
  forallb is_str (run_command statsFile dbspec configFileName basedir)
  = false ->
  forall (csv_reader : str -> list (list str))
         (dbbench : str -> list value -> execution),
    RunDbbench csv_reader dbbench statsFile dbspec configFileName basedir
    = Raise (if existsb (fun v => truthy v && negb (is_str v))
                        (run_command statsFile dbspec configFileName basedir)
             then TypeError_join_item else TypeError_exec_arg).
Proof.
  intros H csv_reader dbbench. unfold RunDbbench, check_output. cbv zeta.
  fold (run_command statsFile dbspec configFileName basedir).
  pose proof (debug_line_cases
                (run_command statsFile dbspec configFileName basedir)) as D.
  destruct (existsb _ (run_command statsFile dbspec configFileName basedir)).
  - rewrite D. reflexivity.
  - destruct D as [t ->]. cbn [bind]. rewrite H. reflexivity.
Qed.

Lemma RunDbbench_argument_not_a_string_witness :
  RunDbbench plain_csv_reader
             (fun _ _ => Exited 0 [] (lit "q1,0,500,10" ++ [LF]))
             (lit "stats.csv")
             {| host := VInt 5; port := 3306; user := VStr (lit "root");
                password := VStr []; database := VStr [];
                driver := VStr (lit "mysql") |}
             (lit "run.ini") None
  = Raise TypeError_join_item.
Proof.
  apply (RunDbbench_argument_not_a_string
           (lit "stats.csv")
           {| host := VInt 5; port := 3306; user := VStr (lit "root");
              password := VStr []; database := VStr [];
              driver := VStr (lit "mysql") |}
           (lit "run.ini") None eq_refl plain_csv_reader
           (fun _ _ => Exited 0 [] (lit "q1,0,500,10" ++ [LF]))).
Defined.

Section DriverFailures.

Variable csv_reader : str -> list (list str).
Variable dbbench : str -> list value -> execution.
Variables (statsFile : str) (dbspec : DatabaseSpec) (configFileName : str).
Variable basedir : option str.

(** X18: when the process cannot be started, as when no [dbbench] is on the
    search path, the call raises the [OSError] of the attempt and returns
    no record. *)
Theorem RunDbbench_not_started (errno : Z) :
  forallb is_str (run_command statsFile dbspec configFileName basedir)
  = true ->
  dbbench statsFile (run_command statsFile dbspec configFileName basedir)
  = NotStarted errno ->
  RunDbbench csv_reader dbbench statsFile dbspec configFileName basedir
  = Raise (OSError errno).
Proof.
  intros Hs H. unfold RunDbbench, check_output. cbv zeta.
  fold (run_command statsFile dbspec configFileName basedir).
  pose proof (debug_line_cases
                (run_command statsFile dbspec configFileName basedir)) as D.
  destruct (existsb _ (run_command statsFile dbspec configFileName basedir))
    eqn:E.
  - exfalso. apply existsb_exists in E as (v & Hin & Hv).
    apply andb_prop in Hv as [_ Hv]. apply negb_true_iff in Hv.
    rewrite forallb_forall in Hs. rewrite (Hs v Hin) in Hv. discriminate.
  - destruct D as [t ->]. cbn [bind]. rewrite Hs, H. reflexivity.
Qed.

End DriverFailures.

Lemma RunDbbench_not_started_witness :
  RunDbbench plain_csv_reader (fun _ _ => NotStarted 2)
             (lit "stats.csv") defaults (lit "conf/run.ini") None
  = Raise (OSError 2).
Proof.
  apply (RunDbbench_not_started plain_csv_reader (fun _ _ => NotStarted 2)
           (lit "stats.csv") defaults (lit "conf/run.ini") None 2);
    reflexivity.
Defined.

(** ** The base directory of a run *)






(** ** Descriptors whose command is made of strings *)

Lemma field_is_str a dflt :
  is_str dflt = true ->
  is_str (if truthy (arg a dflt) then arg a dflt else dflt) = str_or_empty a.
Proof.
  intros Hd. destruct a as [v|]; cbn [arg str_or_empty].
  - destruct (truthy v); cbn [negb]; [rewrite orb_false_r; reflexivity|].
    rewrite Hd, orb_true_r. reflexivity.
  - destruct (truthy dflt); exact Hd.
Qed.

(** X16: the command of a run on a descriptor that the constructor built is
    made of strings exactly when the host, the user, the password and the
    database were each left out, falsy or a string: the constructor takes
    any truthy value, and it is the run that fails on one that is no
    string. *)
Theorem DatabaseSpec_command_of_strings
        (h p u pw db dr : option value) (d : DatabaseSpec)
        (statsFile configFileName : str) (basedir : option str) :
  DatabaseSpec_init h p u pw db dr = Ok d ->
  forallb is_str (run_command statsFile d configFileName basedir)
  = str_or_empty db && str_or_empty h && str_or_empty u && str_or_empty pw.
Proof.
  unfold DatabaseSpec_init.
  destruct (if truthy (arg p (VInt 3306)) then py_int (arg p (VInt 3306))
            else Ok 3306%Z) as [n|e]; cbn [bind]; [|discriminate].
  intros H. assert (E : forall x y : DatabaseSpec, Ok x = Ok y -> x = y)
    by (intros; congruence).
  apply E in H. clear E. subst d. unfold run_command, dbbench_command.
  cbn [forallb is_str host port user password database driver andb].
  rewrite !field_is_str by reflexivity. rewrite andb_true_r.
  rewrite !andb_assoc. reflexivity.
Qed.

Lemma DatabaseSpec_command_of_strings_witness :
  forallb is_str
          (run_command (lit "stats.csv")
                       {| host := VInt 5; port := 3306;
                          user := VStr (lit "root"); password := VStr [];
                          database := VStr []; driver := VStr (lit "mysql") |}
                       (lit "run.ini") None)
  = str_or_empty None && str_or_empty (Some (VInt 5)) && str_or_empty None
    && str_or_empty (Some VNone).
Proof.
  apply (DatabaseSpec_command_of_strings
           (Some (VInt 5)) None None (Some VNone) None None).
  reflexivity.
Defined.

(** ** The search path, call after call *)

Lemma str_eqb_eq a b : str_eqb a b = true <-> a = b.
Proof.
  revert b. induction a as [|c a IH]; intros [|d b]; cbn [str_eqb];
    try (split; [discriminate|congruence]); [split; reflexivity|].
  rewrite andb_true_iff, Ascii.eqb_eq, IH.
  split; [intros [-> ->]; reflexivity|intros H; injection H; auto].
Qed.

Lemma str_eqb_refl a : str_eqb a a = true.
Proof. apply str_eqb_eq. reflexivity. Qed.

Lemma str_eqb_neq a b : a <> b -> str_eqb a b = false.
Proof.
  intros H. destruct (str_eqb a b) eqn:E; [|reflexivity].
  apply str_eqb_eq in E. congruence.
Qed.

Lemma environ_get_set env key v :
  environ_get (environ_set env key v) key = Some v.
Proof.
  induction env as [|[k w] env IH]; cbn [environ_set environ_get].
  - rewrite str_eqb_refl. reflexivity.
  - destruct (str_eqb k key) eqn:E; cbn [environ_get]; rewrite E; auto.
Qed.

Lemma environ_get_set_other env key v k' :
  k' <> key ->
  environ_get (environ_set env key v) k' = environ_get env k'.
Proof.
  intros Hk. induction env as [|[k w] env IH]; cbn [environ_set environ_get].
  - rewrite (str_eqb_neq key k') by congruence. reflexivity.
  - destruct (str_eqb k key) eqn:E; cbn [environ_get].
    + apply str_eqb_eq in E. subst k.
      rewrite (str_eqb_neq key k') by congruence. reflexivity.
    + destruct (str_eqb k k'); [reflexivity|exact IH].
Qed.

Lemma split_app_sep sep a b :
  split sep (a ++ sep :: b) = split sep a ++ split sep b.
Proof.
  induction a as [|c a IH]; cbn [app].
  - rewrite split_cons, Ascii.eqb_refl. reflexivity.
  - rewrite !split_cons, IH. destruct (Ascii.eqb c sep); [reflexivity|].
    pose proof (split_nonempty sep a) as Hne.
    destruct (split sep a); [congruence|reflexivity].
Qed.

Lemma split_no_sep sep s :
  existsb (fun c => Ascii.eqb c sep) s = false -> split sep s = [s].
Proof.
  induction s as [|c s IH]; [reflexivity|].
  cbn [existsb]. intros H. apply orb_false_elim in H as [Hc Hs].
  rewrite split_cons, Hc, (IH Hs). reflexivity.
Qed.

Section SearchPathFacts.

Variable access_X_OK : str -> bool.
Variable realpath_file : str.

Lemma dbbench_found_added p c :
  existsb (fun x => Ascii.eqb x ":") c = false ->
  dbbench_found access_X_OK (p ++ lit ":" ++ c)
  = dbbench_found access_X_OK p
    || access_X_OK (path_join c (lit "dbbench")).
Proof.
  intros Hc. unfold dbbench_found.
  change (p ++ lit ":" ++ c) with (p ++ ":"%char :: c).
  rewrite split_app_sep, existsb_app, (split_no_sep _ c Hc).
  cbn [existsb]. rewrite orb_false_r. reflexivity.
Qed.

(** X20: the call raises [KeyError] exactly when no [PATH] is set; when it
    returns, every other variable has the value it had and the old search
    path starts the new one: nothing is ever taken out of it. *)
Theorem EnsureDbbenchInPath_only_adds (env : environ) :
  (environ_get env (lit "PATH") = None ->
   EnsureDbbenchInPath access_X_OK realpath_file env = KeyError (lit "PATH"))
  /\ (forall p,
        environ_get env (lit "PATH") = Some p ->
        exists env' warnings added,
          EnsureDbbenchInPath access_X_OK realpath_file env
          = Returned env' warnings
          /\ environ_get env' (lit "PATH") = Some (p ++ added)
          /\ forall k, k <> lit "PATH" ->
                       environ_get env' k = environ_get env k).
Proof.
  unfold EnsureDbbenchInPath. cbv zeta. split.
  - intros ->. reflexivity.
  - intros p Hp. rewrite Hp.
    destruct (dbbench_found access_X_OK p); cbn [negb].
    + exists env, [], []. rewrite app_nil_r. repeat split; auto.
    + eexists _, _, _. split; [reflexivity|].
      split; [apply environ_get_set|].
      intros k Hk. apply environ_get_set_other, Hk.
Qed.

(** X21: after a call that returns, some entry of the search path holds an
    executable [dbbench] exactly when one did before or the directory of
    the module holds one: the directory is added unchecked. *)
Theorem EnsureDbbenchInPath_found_after (env : environ) (p : str) :
  environ_get env (lit "PATH") = Some p ->
  existsb (fun x => Ascii.eqb x ":") (dirname realpath_file) = false ->
  exists env' warnings p',
    EnsureDbbenchInPath access_X_OK realpath_file env = Returned env' warnings
    /\ environ_get env' (lit "PATH") = Some p'
    /\ dbbench_found access_X_OK p'
       = dbbench_found access_X_OK p
         || access_X_OK (path_join (dirname realpath_file) (lit "dbbench")).
Proof.
  intros Hp Hc. unfold EnsureDbbenchInPath. cbv zeta. rewrite Hp.
  destruct (dbbench_found access_X_OK p) eqn:F; cbn [negb].
  - exists env, [], p. rewrite F. repeat split; auto.
  - eexists _, _, _. split; [reflexivity|].
    split; [apply environ_get_set|].
    rewrite (dbbench_found_added p _ Hc), F. reflexivity.
Qed.

(** X22: a second call changes nothing when the first one left an executable
    [dbbench] on the search path; otherwise it adds the directory of the
    module once more, and so does every further call. *)
Theorem EnsureDbbenchInPath_again (env env1 : environ) (w1 : list str)
        (p : str) :
  environ_get env (lit "PATH") = Some p ->
  existsb (fun x => Ascii.eqb x ":") (dirname realpath_file) = false ->
  EnsureDbbenchInPath access_X_OK realpath_file env = Returned env1 w1 ->
  if dbbench_found access_X_OK p
     || access_X_OK (path_join (dirname realpath_file) (lit "dbbench"))
  then EnsureDbbenchInPath access_X_OK realpath_file env1 = Returned env1 []
  else exists env2 w2,
      EnsureDbbenchInPath access_X_OK realpath_file env1 = Returned env2 w2
      /\ environ_get env1 (lit "PATH")
         = Some (p ++ lit ":" ++ dirname realpath_file)
      /\ environ_get env2 (lit "PATH")
         = Some ((p ++ lit ":" ++ dirname realpath_file)
                   ++ lit ":" ++ dirname realpath_file).
Proof.
  intros Hp Hc H. unfold EnsureDbbenchInPath in H. cbv zeta in H.
  rewrite Hp in H.
  destruct (dbbench_found access_X_OK p) eqn:F; cbn [negb orb] in *.
  - assert (E1 : env1 = env) by congruence. subst env1.
    unfold EnsureDbbenchInPath. cbv zeta. rewrite Hp, F. reflexivity.
  - assert (E1 : env1 = environ_set env (lit "PATH")
                                   (p ++ lit ":" ++ dirname realpath_file))
      by congruence.
    clear H. subst env1.
    set (c := dirname realpath_file) in *.
    unfold EnsureDbbenchInPath. cbv zeta. fold c.
    rewrite environ_get_set, (dbbench_found_added p c Hc), F. cbn [orb].
    destruct (access_X_OK (path_join c (lit "dbbench"))); cbn [negb].
    + reflexivity.
    + eexists _, _. split; [reflexivity|].
      split; [reflexivity|apply environ_get_set].
Qed.

End SearchPathFacts.

Lemma EnsureDbbenchInPath_only_adds_witness :
  exists env' warnings added,
    EnsureDbbenchInPath (fun _ => false) (lit "/opt/tools/dbbench.py")
                        [(lit "HOME", lit "/root"); (lit "PATH", lit "/bin")]
    = Returned env' warnings
    /\ environ_get env' (lit "PATH") = Some (lit "/bin" ++ added)
    /\ forall k, k <> lit "PATH" ->
                 environ_get env' k
                 = environ_get [(lit "HOME", lit "/root");
                                (lit "PATH", lit "/bin")] k.
Proof.
  apply (proj2 (EnsureDbbenchInPath_only_adds
                  (fun _ => false) (lit "/opt/tools/dbbench.py")
                  [(lit "HOME", lit "/root"); (lit "PATH", lit "/bin")])).
  reflexivity.
Defined.

Lemma EnsureDbbenchInPath_found_after_witness :
  exists env' warnings p',
    EnsureDbbenchInPath (str_eqb (lit "/opt/tools/dbbench"))
                        (lit "/opt/tools/dbbench.py")
                        [(lit "PATH", lit "/bin:/usr/bin")]
    = Returned env' warnings
    /\ environ_get env' (lit "PATH") = Some p'
    /\ dbbench_found (str_eqb (lit "/opt/tools/dbbench")) p'
       = dbbench_found (str_eqb (lit "/opt/tools/dbbench"))
                       (lit "/bin:/usr/bin")
         || str_eqb (lit "/opt/tools/dbbench")
                    (path_join (dirname (lit "/opt/tools/dbbench.py"))
                               (lit "dbbench")).
Proof.
  apply (EnsureDbbenchInPath_found_after
           (str_eqb (lit "/opt/tools/dbbench")) (lit "/opt/tools/dbbench.py")
           [(lit "PATH", lit "/bin:/usr/bin")] (lit "/bin:/usr/bin"));
    reflexivity.
Defined.

Lemma EnsureDbbenchInPath_again_witness :
  exists env2 w2,
    EnsureDbbenchInPath (fun _ => false) (lit "/opt/tools/dbbench.py")
                        [(lit "PATH", lit "/bin:/opt/tools")]
    = Returned env2 w2
    /\ environ_get [(lit "PATH", lit "/bin:/opt/tools")] (lit "PATH")
       = Some (lit "/bin" ++ lit ":" ++ dirname (lit "/opt/tools/dbbench.py"))
    /\ environ_get env2 (lit "PATH")
       = Some ((lit "/bin" ++ lit ":"
                    ++ dirname (lit "/opt/tools/dbbench.py"))
                 ++ lit ":" ++ dirname (lit "/opt/tools/dbbench.py")).
Proof.
  apply (EnsureDbbenchInPath_again
           (fun _ => false) (lit "/opt/tools/dbbench.py")
           [(lit "PATH", lit "/bin")] [(lit "PATH", lit "/bin:/opt/tools")]
           [lit "No dbbench found in PATH, adding /opt/tools to the PATH"]
           (lit "/bin"));
    reflexivity.
Defined.

(** ** The normalizer as a list of words *)

Lemma drop_while_end_comm p s :
  drop_while p (drop_while_end p s) = drop_while_end p (drop_while p s).
Proof.
  induction s as [|c s IH]; [reflexivity|].
  rewrite drop_while_end_cons. destruct (forallb p (c :: s)) eqn:F.
  - rewrite (drop_while_all p (c :: s) F). reflexivity.
  - cbn [drop_while]. destruct (p c) eqn:Pc; [exact IH|].
    rewrite drop_while_end_cons, F. reflexivity.
Qed.

Lemma words_cons c s :
  words (c :: s) =
  if is_sp c then words s
  else (c :: hd [] (split SP s))
         :: filter (fun w => match w with [] => false | _ => true end)
                   (tl (split SP s)).
Proof.
  unfold words. rewrite split_cons. unfold is_sp.
  destruct (Ascii.eqb c SP); reflexivity.
Qed.

Lemma words_all_sp s : forallb is_sp s = true -> words s = [].
Proof.
  induction s as [|c s IH]; [reflexivity|].
  intros H. simpl in H. apply andb_prop in H as [Hc Hs].
  rewrite words_cons, Hc. auto.
Qed.

Lemma words_not_all_sp s : forallb is_sp s = false -> words s <> [].
Proof.
  induction s as [|c s IH]; [discriminate|].
  intros H. simpl in H. rewrite words_cons.
  destruct (is_sp c); [auto|discriminate].
Qed.


Lemma join_cons_after w ws : join [SP] (w :: ws) = w ++ after_word ws.
Proof.
  destruct ws as [|w' ws]; [symmetry; apply app_nil_r|reflexivity].
Qed.

Lemma squeeze_words s :
  collapse_spaces (strip_spaces s) = join [SP] (words s)
  /\ collapse_spaces (drop_while_end is_sp s)
     = hd [] (split SP s)
         ++ after_word
              (filter (fun w => match w with [] => false | _ => true end)
                      (tl (split SP s))).
Proof.
  induction s as [|c s [IH1 IH2]]; [split; reflexivity|].
  pose proof (split_nonempty SP s) as Hne.
  destruct (is_sp c) eqn:Ec.
  - assert (c = SP) by (apply Ascii.eqb_eq, Ec). subst c. split.
    + rewrite words_cons, Ec. unfold strip_spaces. cbn [drop_while].
      rewrite Ec. exact IH1.
    + rewrite split_cons, Ascii.eqb_refl. cbn [hd tl app].
      fold (words s). rewrite drop_while_end_cons.
      destruct (forallb is_sp (SP :: s)) eqn:F.
      * simpl in F. rewrite (words_all_sp s F). reflexivity.
      * simpl in F. rewrite (collapse_spaces_run SP _ Ec).
        rewrite drop_while_end_comm. fold (strip_spaces s). rewrite IH1.
        pose proof (words_not_all_sp s F) as Hw.
        destruct (words s); [congruence|reflexivity].
  - assert (E : collapse_spaces (drop_while_end is_sp (c :: s))
                = c :: collapse_spaces (drop_while_end is_sp s)).
    { rewrite drop_while_end_cons. cbn [forallb]. rewrite Ec. cbn [andb].
      cbn [collapse_spaces]. rewrite Ec. reflexivity. }
    split.
    + rewrite words_cons, Ec, join_cons_after. unfold strip_spaces.
      cbn [drop_while]. rewrite Ec, E, IH2. reflexivity.
    + rewrite E, IH2, split_cons. unfold is_sp in Ec. rewrite Ec.
      reflexivity.
Qed.

Lemma words_join ls :
  words (join [SP] ls) = List.concat (map words ls).
Proof.
  induction ls as [|l ls IH]; [reflexivity|].
  destruct ls as [|l' ls]; [cbn; rewrite app_nil_r; reflexivity|].
  change (join [SP] (l :: l' :: ls)) with (l ++ SP :: join [SP] (l' :: ls)).
  unfold words at 1. rewrite split_app_sep, filter_app.
  change (words l ++ words (join [SP] (l' :: ls))
          = List.concat (map words (l :: l' :: ls))).
  rewrite IH. reflexivity.
Qed.

Lemma clean_plain_words q :
  clean_plain q
  = join [SP] (List.concat (map (fun l => words (cut_comment l))
                                (split LF q))).
Proof.
  unfold clean_plain. rewrite (proj1 (squeeze_words _)), words_join.
  rewrite map_map. reflexivity.
Qed.

(** X6: where [re] is bound, the text returned is made of the words of the
    query, those of each line up to its first [--], in their order and with
    one space between two of them. *)
Theorem CleanQuery_words (g : list string) (q : str) :
  load_global g "re" = Ok tt ->
  CleanQuery g q
  = Ok (join [SP] (List.concat (map (fun l => words (cut_comment l))
                                    (split LF q)))).
Proof.
  intros Hre. rewrite (CleanQuery_plain g q Hre), clean_plain_words.
  reflexivity.
Qed.

Lemma CleanQuery_words_witness :
  CleanQuery ("re"%string :: module_globals)
             (lit " a  b --c" ++ [LF] ++ lit "d ")
  = Ok (join [SP] [lit "a"; lit "b"; lit "d"]).
Proof.
  apply (CleanQuery_words ("re"%string :: module_globals)
                          (lit " a  b --c" ++ [LF] ++ lit "d ")).
  reflexivity.
Defined.

(** ** The name can be read back from the text of a record *)

Lemma repr_quote_cases s : repr_quote s = QUOTE \/ repr_quote s = DQUOTE.
Proof.
  unfold repr_quote.
  destruct (existsb (Ascii.eqb QUOTE) s
            && negb (existsb (Ascii.eqb DQUOTE) s)); auto.
Qed.

Lemma repr_char_cases q c :
  (repr_char q c = [BACKSLASH; c] /\ (c = q \/ c = BACKSLASH))
  \/ (repr_char q c = [BACKSLASH; "t"%char] /\ c = TAB)
  \/ (repr_char q c = [BACKSLASH; "n"%char] /\ c = LF)
  \/ (repr_char q c = [BACKSLASH; "r"%char] /\ c = CR)
  \/ repr_char q c
     = [BACKSLASH; "x"%char; hex_digit (nat_of_ascii c / 16);
        hex_digit (nat_of_ascii c mod 16)]
  \/ (repr_char q c = [c] /\ c <> BACKSLASH /\ c <> q).
Proof.
  unfold repr_char.
  destruct (Ascii.eqb_spec c q) as [->|Hq].
  { left. auto. }
  destruct (Ascii.eqb_spec c BACKSLASH) as [->|Hb].
  { left. auto. }
  cbn [orb].
  destruct (Ascii.eqb_spec c TAB) as [->|_]; [right; left; auto|].
  destruct (Ascii.eqb_spec c LF) as [->|_]; [right; right; left; auto|].
  destruct (Ascii.eqb_spec c CR) as [->|_];
    [right; right; right; left; auto|].
  destruct (Nat.ltb (nat_of_ascii c) 32 || Nat.leb 127 (nat_of_ascii c)).
  - right; right; right; right; left. reflexivity.
  - right; right; right; right; right. auto.
Qed.

Lemma hex_digit_inj n m :
  n < 16 -> m < 16 -> hex_digit n = hex_digit m -> n = m.
Proof.
  intros Hn Hm.
  do 16 (destruct n as [|n];
         [do 16 (destruct m as [|m];
                 [try reflexivity; intros H; vm_compute in H; discriminate|]);
          lia|]).
  lia.
Qed.

Lemma hex_pair_inj c d :
  hex_digit (nat_of_ascii c / 16) = hex_digit (nat_of_ascii d / 16) ->
  hex_digit (nat_of_ascii c mod 16) = hex_digit (nat_of_ascii d mod 16) ->
  c = d.
Proof.
  intros H1 H2.
  pose proof (nat_ascii_bounded c) as Bc.
  pose proof (nat_ascii_bounded d) as Bd.
  apply hex_digit_inj in H1;
    [|apply Nat.Div0.div_lt_upper_bound; lia
     |apply Nat.Div0.div_lt_upper_bound; lia].
  apply hex_digit_inj in H2;
    [|apply Nat.mod_upper_bound; lia|apply Nat.mod_upper_bound; lia].
  assert (E : nat_of_ascii c = nat_of_ascii d).
  { rewrite (Nat.div_mod_eq (nat_of_ascii c) 16).
    rewrite (Nat.div_mod_eq (nat_of_ascii d) 16). congruence. }
  rewrite <- (ascii_nat_embedding c), <- (ascii_nat_embedding d), E.
  reflexivity.
Qed.

(** The texts of two characters never start a string the same way. *)
Lemma repr_char_code q c d X Y :
  q = QUOTE \/ q = DQUOTE ->
  repr_char q c ++ X = repr_char q d ++ Y -> c = d.
Proof.
  intros Hq.
  destruct (repr_char_cases q c)
    as [[-> Hc]|[[-> ->]|[[-> ->]|[[-> ->]|[->|(-> & Hc1 & Hc2)]]]]];
    destruct (repr_char_cases q d)
      as [[-> Hd]|[[-> ->]|[[-> ->]|[[-> ->]|[->|(-> & Hd1 & Hd2)]]]]];
    cbn [app]; intros H; try reflexivity;
    try (injection H; intros; subst;
         repeat match goal with
                | D : _ \/ _ |- _ => destruct D
                end; subst;
         first [reflexivity | congruence | discriminate]).
  injection H as H1 H2. apply hex_pair_inj; assumption.
Qed.

Lemma repr_char_head q c :
  q = QUOTE \/ q = DQUOTE ->
  exists h t, repr_char q c = h :: t /\ h <> q.
Proof.
  intros Hq.
  destruct (repr_char_cases q c)
    as [[-> Hc]|[[-> ->]|[[-> ->]|[[-> ->]|[->|(-> & Hc1 & Hc2)]]]]];
    try (exists BACKSLASH; eexists; split; [reflexivity|];
         destruct Hq as [->| ->]; discriminate).
  exists c, []. auto.
Qed.

Lemma repr_body_code q : q = QUOTE \/ q = DQUOTE ->
  forall a b X Y,
    flat_map (repr_char q) a ++ q :: X = flat_map (repr_char q) b ++ q :: Y ->
    a = b.
Proof.
  intros Hq. induction a as [|c a IH]; intros [|d b] X Y H.
  - reflexivity.
  - exfalso. cbn [flat_map app] in H.
    destruct (repr_char_head q d Hq) as (h & t & E & Hh). rewrite E in H.
    cbn [app] in H. congruence.
  - exfalso. cbn [flat_map app] in H.
    destruct (repr_char_head q c Hq) as (h & t & E & Hh). rewrite E in H.
    cbn [app] in H. congruence.
  - cbn [flat_map] in H. rewrite <- !app_assoc in H.
    pose proof (repr_char_code q c d _ _ Hq H) as E. subst d.
    apply app_inv_head in H. f_equal. eapply IH. exact H.
Qed.

Lemma repr_str_code a b X Y :
  repr_str a ++ X = repr_str b ++ Y -> a = b.
Proof.
  unfold repr_str. cbn [app]. intros H. injection H as Hq H.
  rewrite <- !app_assoc in H. cbn [app] in H. rewrite <- Hq in H.
  eapply repr_body_code; [apply repr_quote_cases|exact H].
Qed.

(** X12: two records with the same text have the same name: quotes, commas and
    control characters in a name are written so that it can be read
    back. *)
Theorem QueryStatistic_repr_tells_name (q1 q2 : QueryStatistic) (t : str) :
  QueryStatistic_repr q1 = Ok t -> QueryStatistic_repr q2 = Ok t ->
  name q1 = name q2.
Proof.
  unfold QueryStatistic_repr. intros H1 H2.
  destruct (humanize_us (startMicros q1)); [|discriminate].
  destruct (humanize_us (elapsedMicros q1)); [|discriminate].
  destruct (humanize_count (rowsAffected q1)); [|discriminate].
  destruct (humanize_us (startMicros q2)); [|discriminate].
  destruct (humanize_us (elapsedMicros q2)); [|discriminate].
  destruct (humanize_count (rowsAffected q2)); [|discriminate].
  cbn [bind] in H1, H2. rewrite <- H2 in H1. clear H2.
  assert (H : forall x y : str, Ok x = Ok y -> x = y)
    by (intros; congruence).
  apply H in H1. clear H. cbn [join] in H1.
  apply app_inv_head in H1. rewrite <- !app_assoc in H1.
  apply app_inv_head in H1. eapply repr_str_code. exact H1.
Qed.

Lemma QueryStatistic_repr_tells_name_witness :
  lit "a,'b" = lit "a,'b".
Proof.
  apply (QueryStatistic_repr_tells_name
           {| name := lit "a,'b"; startMicros := 1000000;
              elapsedMicros := 2; rowsAffected := 3 |}
           {| name := lit "a,'b"; startMicros := 1000400;
              elapsedMicros := 2; rowsAffected := 3 |}
           (lit "QueryStatistic(name=" ++ [DQUOTE] ++ lit "a,'b" ++ [DQUOTE]
              ++ lit ",start=1.000s,elapsed=2us,rowsAffected=3)"));
    vm_compute; reflexivity.
Defined.
